(** * Buffered stream reader (fitz/stream-read.c)

    A shallow embedding of the reading routines of [stream-read.c] and the
    properties they satisfy.  A stream is a window of fetched bytes over a pull
    source; every routine is a computation over the pair (context, stream)
    that either returns a value or throws, the state surviving the throw as it
    does across [fz_try]/[fz_catch]. *)

From Stdlib Require Import String ZArith Bool Lia.
From Stdlib.Strings Require Import Byte.
From Stdlib Require Import List.
Import ListNotations.
Local Open Scope Z_scope.

(** ** Machine integers *)

Definition byte := Byte.byte.

(** The value of a byte as the C [int] that [*stm->rp] yields. *)
Definition byte_val (b : byte) : Z := Z.of_N (Byte.to_N b).

(** [EOF] of <stdio.h>. *)
Definition EOF : Z := -1.

Definition size_max : Z := 2 ^ 64 - 1.

(** Conversion to [size_t] (64 bits), [uint16_t], [uint32_t], [uint64_t]. *)
Definition to_size (x : Z) : Z := x mod 2 ^ 64.
Definition to_u16 (x : Z) : Z := x mod 2 ^ 16.
Definition to_u32 (x : Z) : Z := x mod 2 ^ 32.
Definition to_u64 (x : Z) : Z := x mod 2 ^ 64.

Definition min_int64 : Z := - 2 ^ 63.
Definition max_int64 : Z := 2 ^ 63 - 1.

(** Conversion to [int64_t], two's complement. *)
Definition to_i64 (x : Z) : Z := (x + 2 ^ 63) mod 2 ^ 64 - 2 ^ 63.

(** [#define MIN_BOMB (100 << 20)] *)
Definition MIN_BOMB : Z := Z.shiftl 100 20.

(** ** Errors *)

(** Modelled from the spec: the error kinds.  The enumeration is declared in
    the headers; these are the two codes this file names and any other
    code. *)
Inductive fz_error_code :=
| FZ_ERROR_GENERIC
| FZ_ERROR_TRYLATER
| FZ_ERROR_OTHER (code : Z).

(** Modelled from the spec: a typed error carrying a human-readable message,
    which is what [fz_throw] throws. *)

Record fz_error := mk_error { err_code : fz_error_code; err_msg : string }.

Definition is_trylater (e : fz_error) : bool :=
  match err_code e with FZ_ERROR_TRYLATER => true | _ => false end.

Inductive result (A : Type) :=
| Ok (a : A)
| Throw (e : fz_error).
Arguments Ok {A} a.
Arguments Throw {A} e.

(** ** Data model *)

(** Modelled from the spec: the growable buffer ([fz_buffer], declared in the
    headers that are not part of this file): the bytes stored so far, the
    length field and the capacity. *)
Record fz_buffer := mk_buffer { data : list byte; len : Z; cap : Z }.

(** Modelled from the spec: the allocator behind the buffer collaborator.  A
    request for memory may fail, and a failure is a thrown error:
    [new_fails size] is the error [fz_new_buffer] throws when asked for a
    buffer of that capacity, [grow_fails b] the error [fz_grow_buffer] throws
    when asked to grow [b]; [None] is a request that succeeds. *)
Record fz_alloc := mk_alloc {
  new_fails : Z -> option fz_error;
  grow_fails : fz_buffer -> option fz_error
}.

(** Modelled from the spec: the pull source.  A source is the sequence of
    answers it gives to successive fill requests: a non-empty block of bytes,
    or a thrown error.  When the sequence is used up the source reports end
    of data. *)
Inductive pull :=
| Data (b : byte) (bs : list byte)
| Fault (e : fz_error).

(** Modelled from the spec: what the optional native seek of a source does
    to the stream: a new window, a new [pos] and a repositioned source, or a
    thrown error. *)
Inductive seek_result :=
| SeekOk (newwindow : list byte) (newpos : Z) (newsrc : list pull)
| SeekFail (e : fz_error).

(** Modelled from the spec: the stream ([fz_stream], declared in the headers).
    [window] holds the bytes of [rp, wp); [pos] is the absolute offset of
    [wp]; [eof] is the sticky end flag; [avail] is the bit accumulator count;
    [seek] is the optional native seek capability. *)
Record fz_stream := mk_stream {
  eof : bool;
  pos : Z;
  avail : Z;
  window : list byte;
  source : list pull;
  seek : option (list pull -> Z -> Z -> seek_result)
}.

(** Modelled from the spec: the context ([fz_context], declared in the
    headers), as far as these routines touch it: the warnings emitted so far
    (most recent first) and the buffers released so far. *)
Record fz_context := mk_context {
  warnings : list string;
  dropped : list fz_buffer
}.

Record state := mk_state { ctx : fz_context; stm : fz_stream }.

(** ** The computation monad: state that survives a throw *)

Definition M (A : Type) : Type := state -> result A * state.

Definition ret {A} (a : A) : M A := fun s => (Ok a, s).

Definition bind {A B} (m : M A) (k : A -> M B) : M B :=
  fun s => match m s with
           | (Ok a, s') => k a s'
           | (Throw e, s') => (Throw e, s')
           end.

(** Modelled from the spec: [fz_throw], which throws an error of the given
    code and message. *)
Definition fz_throw {A} (code : fz_error_code) (msg : string) : M A :=
  fun s => (Throw (mk_error code msg), s).

Declare Scope fz_scope.
Delimit Scope fz_scope with fz.
Notation "x <- m ;; k" := (bind m (fun x => k))
  (at level 61, m at next level, right associativity) : fz_scope.
Notation "m ;;; k" := (bind m (fun _ => k))
  (at level 61, right associativity) : fz_scope.
Local Open Scope fz_scope.

Definition get_stm : M fz_stream := fun s => (Ok (stm s), s).

Definition put_stm (t : fz_stream) : M unit :=
  fun s => (Ok tt, mk_state (ctx s) t).

(** Modelled from the spec: [fz_warn], a non-fatal warning recorded in the
    context. *)
Definition fz_warn (msg : string) : M unit :=
  fun s =>
    (Ok tt,
     mk_state (mk_context (msg :: warnings (ctx s)) (dropped (ctx s))) (stm s)).

(** Modelled from the spec: [fz_drop_buffer], which releases a buffer. *)
Definition fz_drop_buffer (b : fz_buffer) : M unit :=
  fun s =>
    (Ok tt,
     mk_state (mk_context (warnings (ctx s)) (b :: dropped (ctx s))) (stm s)).

(** Field updates of the stream. *)
Definition set_eof (v : bool) (t : fz_stream) : fz_stream :=
  mk_stream v (pos t) (avail t) (window t) (source t) (seek t).
Definition set_avail (v : Z) (t : fz_stream) : fz_stream :=
  mk_stream (eof t) (pos t) v (window t) (source t) (seek t).
Definition set_window (w : list byte) (t : fz_stream) : fz_stream :=
  mk_stream (eof t) (pos t) (avail t) w (source t) (seek t).
Definition set_source (r : list pull) (t : fz_stream) : fz_stream :=
  mk_stream (eof t) (pos t) (avail t) (window t) r (seek t).
Definition refill (w : list byte) (r : list pull) (t : fz_stream) : fz_stream :=
  mk_stream (eof t) (pos t + Z.of_nat (length w)) (avail t) w r (seek t).

(** ** The fill contract and the byte primitives *)

(** Modelled from the spec: [fz_available], the fill capability
    [fill(minBytes) -> bytesAvailable].  Bytes still in the window are
    reported as they are; otherwise, unless the end flag is set, the source is
    asked once: a block extends the window and advances [pos], end of data
    sets the sticky flag and gives 0, an error of the source is thrown on. *)
Definition fz_available (max : Z) : M Z :=
  fun s =>
    let t := stm s in
    let n := Z.of_nat (length (window t)) in
    if negb (n =? 0) then (Ok n, s)
    else if eof t then (Ok 0, s)
    else match source t with
         | [] => (Ok 0, mk_state (ctx s) (set_eof true t))
         | Data b bs :: r =>
             (Ok (Z.of_nat (length (b :: bs))),
              mk_state (ctx s) (refill (b :: bs) r t))
         | Fault e :: r => (Throw e, mk_state (ctx s) (set_source r t))
         end.

(** Modelled from the spec: [fz_read_byte], the single-byte read returning a
    byte or the end-of-stream indicator. *)
Definition fz_read_byte : M Z :=
  _ <- fz_available 1 ;;
  t <- get_stm ;;
  match window t with
  | [] => ret EOF
  | b :: w => put_stm (set_window w t) ;;; ret (byte_val b)
  end.

(** Modelled from the spec: [fz_peek_byte], the non-consuming one-byte peek. *)
Definition fz_peek_byte : M Z :=
  _ <- fz_available 1 ;;
  t <- get_stm ;;
  match window t with
  | [] => ret EOF
  | b :: _ => ret (byte_val b)
  end.

(** ** fz_read *)

(** [memcpy(buf, stm->rp, n); stm->rp += n;] the bytes copied are returned. *)
Definition take_window (n : Z) : M (list byte) :=
  t <- get_stm ;;
  put_stm (set_window (skipn (Z.to_nat n) (window t)) t) ;;;
  ret (firstn (Z.to_nat n) (window t)).

(** The [do ... while (len > 0)] loop of [fz_read].  [buf] is what has been
    written to the destination so far.  Every round but the last takes at
    least one byte off [len], so [S (Z.to_nat len)] rounds are enough. *)
Fixpoint fz_read_loop (fuel : nat) (buf : list byte) (count len : Z)
  : M (list byte * Z) :=
  match fuel with
  | O => ret (buf, count)
  | S fuel' =>
      n <- fz_available len ;;
      let n := if n >? len then len else n in
      if n =? 0 then ret (buf, count)
      else
        chunk <- take_window n ;;
        let buf := buf ++ chunk in
        let count := count + n in
        let len := len - n in
        if len >? 0 then fz_read_loop fuel' buf count len
        else ret (buf, count)
  end.

(** [fz_read]: the bytes written to the destination and the returned count. *)
Definition fz_read (len : Z) : M (list byte * Z) :=
  fz_read_loop (S (Z.to_nat len)) [] 0 len.

(** ** fz_read_best, fz_read_all, fz_read_file *)

Definition bomb_error : fz_error :=
  mk_error FZ_ERROR_GENERIC "compression bomb detected".

(** All the bytes a stream can still deliver.  Every round of the slurp loop
    but the last consumes at least one of them, which bounds the rounds. *)
Fixpoint source_size (r : list pull) : nat :=
  match r with
  | [] => O
  | Data b bs :: r' => (length (b :: bs) + source_size r')%nat
  | Fault _ :: r' => source_size r'
  end.

Definition stream_size (t : fz_stream) : nat :=
  (length (window t) + source_size (source t))%nat.

Section Slurp.

(** The growth policy of the buffer collaborator: the capacity after
    [fz_grow_buffer] as a function of the capacity before. *)
Variable grow_cap : Z -> Z.

(** The allocator the buffer collaborator draws on. *)
Variable mem : fz_alloc.

(** The file-opening collaborator. *)
Variable fz_open_file : string -> result fz_stream.

(** Modelled from the spec: [fz_new_buffer], [create(capacity)]: an empty
    buffer of the capacity asked for, or the error of the allocator, thrown
    before there is a buffer. *)
Definition fz_new_buffer (size : Z) : M fz_buffer :=
  match new_fails mem size with
  | Some e => fun s => (Throw e, s)
  | None => ret (mk_buffer [] 0 size)
  end.

(** Modelled from the spec: [fz_grow_buffer], [grow()]: the capacity changes
    as the policy says and the contents stay, or the error of the allocator
    is thrown and the buffer is as it was. *)
Definition fz_grow_buffer (b : fz_buffer) : M fz_buffer :=
  match grow_fails mem b with
  | Some e => fun s => (Throw e, s)
  | None => ret (mk_buffer (data b) (len b) (grow_cap (cap b)))
  end.

(** The [while (1)] loop of [fz_read_best].  The local [buf] is returned
    beside the state, since the catch block still uses it after a throw. *)
Fixpoint read_best_loop (fuel : nat) (check_bomb : bool) (initial : Z)
    (buf : fz_buffer) (s : state) : result unit * fz_buffer * state :=
  match fuel with
  | O => (Ok tt, buf, s)
  | S fuel' =>
      match (if len buf =? cap buf then fz_grow_buffer buf else ret buf) s with
      | (Throw e, s1) => (Throw e, buf, s1)
      | (Ok buf, s1) =>
          if check_bomb && (len buf >=? MIN_BOMB) && (len buf / 200 >? initial)
          then (Throw bomb_error, buf, s1)
          else
            match fz_read (to_size (cap buf - len buf)) s1 with
            | (Throw e, s2) => (Throw e, buf, s2)
            | (Ok (bytes, n), s2) =>
                if n =? 0 then (Ok tt, buf, s2)
                else
                  read_best_loop fuel' check_bomb initial
                    (mk_buffer (data buf ++ bytes) (len buf + n) (cap buf)) s2
            end
      end
  end.

(** The body of the [fz_try] block; [None] is [buf == NULL]. *)
Definition read_best_try (check_bomb : bool) (initial : Z) (s : state)
  : result unit * option fz_buffer * state :=
  let initial := if initial <? 1024 then 1024 else initial in
  match fz_new_buffer (to_size (initial + 1)) s with
  | (Throw e, s1) => (Throw e, None, s1)
  | (Ok buf, s1) =>
      match read_best_loop (S (stream_size (stm s1))) check_bomb initial buf s1 with
      | (r, buf, s2) => (r, Some buf, s2)
      end
  end.

Definition drop_opt (buf : option fz_buffer) : M unit :=
  match buf with Some b => fz_drop_buffer b | None => ret tt end.

(** [fz_read_best].  [truncated] is the caller's flag: [None] for a NULL
    pointer, [Some v] for a flag holding [v]; the flag as the call leaves
    it is returned with the buffer. *)
Definition fz_read_best (initial : Z) (truncated : option Z) (s : state)
  : result (option fz_buffer) * option Z * state :=
  let check_bomb := initial >? 0 in
  let truncated := match truncated with Some _ => Some 0 | None => None end in
  match read_best_try check_bomb initial s with
  | (Ok _, buf, s1) => (Ok buf, truncated, s1)
  | (Throw e, buf, s1) =>
      if is_trylater e then
        let '(_, s2) := drop_opt buf s1 in (Throw e, truncated, s2)
      else
        match truncated with
        | Some _ => (Ok buf, Some 1, s1)
        | None => let '(_, s2) := drop_opt buf s1 in (Throw e, truncated, s2)
        end
  end.

Definition fz_read_all (initial : Z) (s : state)
  : result (option fz_buffer) * state :=
  let '(r, _, s1) := fz_read_best initial None s in (r, s1).

(** [fz_read_file]; the stream is dropped in the [fz_always] block and a
    caught error is thrown on. *)
Definition fz_read_file (filename : string) (c : fz_context)
  : result (option fz_buffer) * fz_context :=
  match fz_open_file filename with
  | Throw e => (Throw e, c)
  | Ok t => let '(r, s1) := fz_read_all 0 (mk_state c t) in (r, ctx s1)
  end.

End Slurp.

(** ** fz_read_line *)

(** What [fz_read_line] leaves behind: the characters stored in [mem] before
    [s], whether the terminating null byte was stored, and whether [mem]
    rather than NULL is returned. *)
Record line := mk_line { line_mem : list Z; line_nul : bool; line_ret : bool }.

Definition is_nil {A} (l : list A) : bool :=
  match l with [] => true | _ => false end.

(** The [while (n > 1)] loop; [out] is [mem .. s).  Each round that goes on
    takes one off [n], so [Z.to_nat n] rounds are enough. *)
Fixpoint read_line_loop (fuel : nat) (out : list Z) (n c : Z)
  : M (list Z * Z * Z) :=
  match fuel with
  | O => ret (out, n, c)
  | S fuel' =>
      if n >? 1 then
        c <- fz_read_byte ;;
        if c =? EOF then ret (out, n, c)
        else if c =? 13 then
          c <- fz_peek_byte ;;
          (if c =? 10 then _ <- fz_read_byte ;; ret tt else ret tt) ;;;
          ret (out, n, c)
        else if c =? 10 then ret (out, n, c)
        else read_line_loop fuel' (out ++ [c]) (n - 1) c
      else ret (out, n, c)
  end.

Definition fz_read_line (n : Z) : M line :=
  r <- read_line_loop (Z.to_nat n) [] n EOF ;;
  let '(out, n, c) := r in
  ret (mk_line out (negb (n =? 0)) (negb (is_nil out && (c =? EOF)))).

(** ** fz_tell, fz_seek *)

Definition fz_tell (t : fz_stream) : Z :=
  to_i64 (pos t - Z.of_nat (length (window t))).

(** [while (offset-- > 0)]: the counter is the number of rounds left. *)
Fixpoint seek_forward (k : nat) : M unit :=
  match k with
  | O => ret tt
  | S k' =>
      c <- fz_read_byte ;;
      if c =? EOF then fz_warn "seek failed" else seek_forward k'
  end.

Definition fz_seek (offset whence : Z) : M unit :=
  t <- get_stm ;;
  put_stm (set_avail 0 t) ;;;
  t <- get_stm ;;
  match seek t with
  | Some native =>
      let offset := if whence =? 1 then to_i64 (offset + fz_tell t) else offset in
      let whence := if whence =? 1 then 0 else whence in
      match native (source t) offset whence with
      | SeekOk w p r => put_stm (mk_stream false p (avail t) w r (seek t))
      | SeekFail e => fun s => (Throw e, s)
      end
  | None =>
      if negb (whence =? 2) then
        let offset := if whence =? 0 then to_i64 (offset - fz_tell t) else offset in
        (if offset <? 0 then fz_warn "cannot seek backwards" else ret tt) ;;;
        seek_forward (Z.to_nat offset)
      else fz_warn "cannot seek"
  end.

(** ** Fixed-width integer decoders *)

(** [uint32_t a = fz_read_byte(ctx, stm);] and its 64-bit twin. *)
Definition read_u32 : M Z := c <- fz_read_byte ;; ret (to_u32 c).
Definition read_u64 : M Z := c <- fz_read_byte ;; ret (to_u64 c).

(** [a << k] on [uint32_t] and on [uint64_t]. *)
Definition shl32 (a k : Z) : Z := to_u32 (Z.shiftl a k).
Definition shl64 (a k : Z) : Z := to_u64 (Z.shiftl a k).

(** [a == EOF] after the usual arithmetic conversions. *)
Definition eof32 (a : Z) : bool := a =? to_u32 EOF.
Definition eof64 (a : Z) : bool := a =? to_u64 EOF.

(** The errors the decoders throw. *)
Definition premature16 := mk_error FZ_ERROR_GENERIC "premature end of file in int16".
Definition premature24 := mk_error FZ_ERROR_GENERIC "premature end of file in int24".
Definition premature32 := mk_error FZ_ERROR_GENERIC "premature end of file in int32".
Definition premature64 := mk_error FZ_ERROR_GENERIC "premature end of file in int64".

Definition fz_read_uint16 : M Z :=
  a <- read_u32 ;;
  b <- read_u32 ;;
  let x := Z.lor (shl32 a 8) b in
  if eof32 a || eof32 b
  then fz_throw FZ_ERROR_GENERIC "premature end of file in int16"
  else ret (to_u16 x).

Definition fz_read_uint24 : M Z :=
  a <- read_u32 ;;
  b <- read_u32 ;;
  c <- read_u32 ;;
  let x := Z.lor (Z.lor (shl32 a 16) (shl32 b 8)) c in
  if eof32 a || eof32 b || eof32 c
  then fz_throw FZ_ERROR_GENERIC "premature end of file in int24"
  else ret x.

Definition fz_read_uint32 : M Z :=
  a <- read_u32 ;;
  b <- read_u32 ;;
  c <- read_u32 ;;
  d <- read_u32 ;;
  let x := Z.lor (Z.lor (Z.lor (shl32 a 24) (shl32 b 16)) (shl32 c 8)) d in
  if eof32 a || eof32 b || eof32 c || eof32 d
  then fz_throw FZ_ERROR_GENERIC "premature end of file in int32"
  else ret x.

Definition fz_read_uint64 : M Z :=
  a <- read_u64 ;;
  b <- read_u64 ;;
  c <- read_u64 ;;
  d <- read_u64 ;;
  e <- read_u64 ;;
  f <- read_u64 ;;
  g <- read_u64 ;;
  h <- read_u64 ;;
  let x := Z.lor (Z.lor (Z.lor (Z.lor (Z.lor (Z.lor (Z.lor
             (shl64 a 56) (shl64 b 48)) (shl64 c 40)) (shl64 d 32))
             (shl64 e 24)) (shl64 f 16)) (shl64 g 8)) h in
  if eof64 a || eof64 b || eof64 c || eof64 d
     || eof64 e || eof64 f || eof64 g || eof64 h
  then fz_throw FZ_ERROR_GENERIC "premature end of file in int64"
  else ret x.

Definition fz_read_uint16_le : M Z :=
  a <- read_u32 ;;
  b <- read_u32 ;;
  let x := Z.lor a (shl32 b 8) in
  if eof32 a || eof32 b
  then fz_throw FZ_ERROR_GENERIC "premature end of file in int16"
  else ret (to_u16 x).

Definition fz_read_uint24_le : M Z :=
  a <- read_u32 ;;
  b <- read_u32 ;;
  c <- read_u32 ;;
  let x := Z.lor (Z.lor a (shl32 b 8)) (shl32 c 16) in
  if eof32 a || eof32 b || eof32 c
  then fz_throw FZ_ERROR_GENERIC "premature end of file in int24"
  else ret x.

Definition fz_read_uint32_le : M Z :=
  a <- read_u32 ;;
  b <- read_u32 ;;
  c <- read_u32 ;;
  d <- read_u32 ;;
  let x := Z.lor (Z.lor (Z.lor a (shl32 b 8)) (shl32 c 16)) (shl32 d 24) in
  if eof32 a || eof32 b || eof32 c || eof32 d
  then fz_throw FZ_ERROR_GENERIC "premature end of file in int32"
  else ret x.

Definition fz_read_uint64_le : M Z :=
  a <- read_u64 ;;
  b <- read_u64 ;;
  c <- read_u64 ;;
  d <- read_u64 ;;
  e <- read_u64 ;;
  f <- read_u64 ;;
  g <- read_u64 ;;
  h <- read_u64 ;;
  let x := Z.lor (Z.lor (Z.lor (Z.lor (Z.lor (Z.lor (Z.lor
             a (shl64 b 8)) (shl64 c 16)) (shl64 d 24))
             (shl64 e 32)) (shl64 f 40)) (shl64 g 48)) (shl64 h 56) in
  if eof64 a || eof64 b || eof64 c || eof64 d
     || eof64 e || eof64 f || eof64 g || eof64 h
  then fz_throw FZ_ERROR_GENERIC "premature end of file in int64"
  else ret x.

(** [k] single-byte reads, one after the other. *)
Fixpoint fz_read_bytes (k : nat) : M (list Z) :=
  match k with
  | O => ret []
  | S k' => c <- fz_read_byte ;; cs <- fz_read_bytes k' ;; ret (c :: cs)
  end.

(** ** Views of a stream used in the statements *)

(** The bytes a source delivers before it next throws or ends, and how that
    run ends: [None] for end of data, [Some e] for a thrown error. *)
Fixpoint source_ahead (r : list pull) : list byte :=
  match r with
  | [] => []
  | Data b bs :: r' => (b :: bs) ++ source_ahead r'
  | Fault _ :: _ => []
  end.

Fixpoint source_end (r : list pull) : option fz_error :=
  match r with
  | [] => None
  | Data _ _ :: r' => source_end r'
  | Fault e :: _ => Some e
  end.

(** The bytes still to be read from a stream: those in the window, then,
    unless the end flag is set, those of the source. *)
Definition ahead (t : fz_stream) : list byte :=
  window t ++ (if eof t then [] else source_ahead (source t)).

Definition ahead_end (t : fz_stream) : option fz_error :=
  if eof t then None else source_end (source t).

(** The logical read offset [pos - (wp - rp)] as an integer. *)
Definition offset (t : fz_stream) : Z := pos t - Z.of_nat (length (window t)).

(** Going from [s] to [s'] read the bytes [bs] off the front of the stream
    and changed nothing else: the source answered no request with an error,
    and the context, the bit accumulator and the seek capability are as
    before. *)
Definition consumed (bs : list byte) (s s' : state) : Prop :=
  ahead (stm s) = bs ++ ahead (stm s')
  /\ ahead_end (stm s') = ahead_end (stm s)
  /\ offset (stm s') = offset (stm s) + Z.of_nat (length bs)
  /\ ctx s' = ctx s
  /\ avail (stm s') = avail (stm s)
  /\ seek (stm s') = seek (stm s)
  /\ stream_size (stm s) = (length bs + stream_size (stm s'))%nat
  /\ (forall e, In (Fault e) (source (stm s')) <-> In (Fault e) (source (stm s))).

(** A stream over a block of memory: everything is in the window. *)
Definition mem_stream (bs : list byte) : fz_stream :=
  mk_stream false (Z.of_nat (length bs)) 0 bs [] None.

Definition ctx0 : fz_context := mk_context [] [].

(** Big-endian and little-endian concatenation of bytes by shifts. *)
Definition be_concat (bs : list byte) : Z :=
  fold_left (fun acc b => Z.lor (Z.shiftl acc 8) (byte_val b)) bs 0.

Definition le_concat (bs : list byte) : Z := be_concat (rev bs).

(** The same number written in base 256. *)
Definition be_value (bs : list byte) : Z :=
  fold_left (fun acc b => acc * 256 + byte_val b) bs 0.

(** The condition under which the slurp loop aborts, on the accumulated
    length and the hint it is compared with. *)
Definition bomb_cond (size hint : Z) : Prop :=
  MIN_BOMB <= size /\ size / 200 > hint.

(** A buffer in good shape: the length field counts the stored bytes and
    does not exceed the capacity, which is a [size_t]. *)
Definition wf_buffer (b : fz_buffer) : Prop :=
  len b = Z.of_nat (length (data b)) /\ len b <= cap b <= size_max.

(** An allocator that has the memory asked for: no request fails. *)
Definition alloc_ok : fz_alloc := mk_alloc (fun _ => None) (fun _ => None).

(** A growth policy that gives room, within [size_t], as long as the
    capacity is at most [total]. *)
Definition grows_upto (grow_cap : Z -> Z) (total : Z) : Prop :=
  forall c, 0 <= c <= total -> c < grow_cap c <= size_max.

(** The hint after [if (initial < 1024) initial = 1024;]. *)
Definition clamp_hint (initial : Z) : Z :=
  if initial <? 1024 then 1024 else initial.

(** The caller's flag after [if (truncated) *truncated = 0;]. *)
Definition reset_flag (truncated : option Z) : option Z :=
  match truncated with Some _ => Some 0 | None => None end.

(** The context after one more buffer was released. *)
Definition released (b : fz_buffer) (s : state) : state :=
  mk_state (mk_context (warnings (ctx s)) (b :: dropped (ctx s))) (stm s).

(** [n] zero bytes. *)
Definition zeros (n : Z) : list byte := repeat x00 (Z.to_nat n).

(** A growth policy for the examples: twice the capacity and one more. *)
Definition grow_double (c : Z) : Z := 2 * c + 1.

(** A byte that is neither ['\r'] nor ['\n']. *)
Definition plain (b : byte) : Prop := b <> x0d /\ b <> x0a.

(** ** fz_skip *)

(** [sizeof(skip_buf)] *)
Definition skip_buf_size : Z := 4096.

(** The [while (len)] loop of [fz_skip]; the bytes read into [skip_buf] are
    discarded.  Every round that goes on takes at least one byte off [len],
    so [S (Z.to_nat len)] rounds are enough. *)
Fixpoint fz_skip_loop (fuel : nat) (total len : Z) : M Z :=
  match fuel with
  | O => ret total
  | S fuel' =>
      if len =? 0 then ret total
      else
        let l := if len >? skip_buf_size then skip_buf_size else len in
        r <- fz_read l ;;
        let count := snd r in
        let total := total + count in
        if count <? l then ret total
        else fz_skip_loop fuel' total (len - count)
  end.

Definition fz_skip (len : Z) : M Z :=
  fz_skip_loop (S (Z.to_nat len)) 0 len.

(** ** fz_read_string *)

Definition overrun_error : fz_error :=
  mk_error FZ_ERROR_GENERIC "Buffer overrun reading null terminated string".

Definition eof_string_error : fz_error :=
  mk_error FZ_ERROR_GENERIC "EOF reading null terminated string".

(** The [do ... while (c != 0)] loop of [fz_read_string]; [out] is what has
    been stored in [buffer] so far.  Every round takes one off [len] and a
    round with [len <= 0] throws, so [S (Z.to_nat len)] rounds are enough. *)
Fixpoint read_string_loop (fuel : nat) (out : list Z) (len : Z) : M (list Z) :=
  match fuel with
  | O => ret out
  | S fuel' =>
      if len <=? 0
      then fz_throw FZ_ERROR_GENERIC
             "Buffer overrun reading null terminated string"
      else
        c <- fz_read_byte ;;
        if c =? EOF
        then fz_throw FZ_ERROR_GENERIC "EOF reading null terminated string"
        else
          let out := out ++ [c] in
          let len := len - 1 in
          if negb (c =? 0) then read_string_loop fuel' out len else ret out
  end.

(** [fz_read_string]: the characters stored in [buffer]. *)
Definition fz_read_string (len : Z) : M (list Z) :=
  read_string_loop (S (Z.to_nat len)) [] len.

(** ** Signed integer decoders *)

(** Conversion to [int16_t] and [int32_t], two's complement. *)
Definition to_i16 (x : Z) : Z := (x + 2 ^ 15) mod 2 ^ 16 - 2 ^ 15.
Definition to_i32 (x : Z) : Z := (x + 2 ^ 31) mod 2 ^ 32 - 2 ^ 31.

Definition fz_read_int16 : M Z := x <- fz_read_uint16 ;; ret (to_i16 x).
Definition fz_read_int32 : M Z := x <- fz_read_uint32 ;; ret (to_i32 x).
Definition fz_read_int64 : M Z := x <- fz_read_uint64 ;; ret (to_i64 x).

Definition fz_read_int16_le : M Z := x <- fz_read_uint16_le ;; ret (to_i16 x).
Definition fz_read_int32_le : M Z := x <- fz_read_uint32_le ;; ret (to_i32 x).
Definition fz_read_int64_le : M Z := x <- fz_read_uint64_le ;; ret (to_i64 x).

(** A byte that is not the string terminator. *)
Definition nonzero (b : byte) : Prop := b <> x00.

(** * Properties *)

(** ** The fill contract *)

Lemma fz_available_eq max s :
  fz_available max s =
  match window (stm s) with
  | _ :: _ => (Ok (Z.of_nat (length (window (stm s)))), s)
  | [] =>
      if eof (stm s) then (Ok 0, s)
      else match source (stm s) with
           | [] => (Ok 0, mk_state (ctx s) (set_eof true (stm s)))
           | Data b bs :: r =>
               (Ok (Z.of_nat (length (b :: bs))),
                mk_state (ctx s) (refill (b :: bs) r (stm s)))
           | Fault e :: r => (Throw e, mk_state (ctx s) (set_source r (stm s)))
           end
  end.
Proof. unfold fz_available. destruct (window (stm s)); reflexivity. Qed.

#[local] Arguments Z.of_nat : simpl never.
#[local] Arguments Z.to_nat : simpl never.

Ltac split_state s :=
  let c := fresh "c" in
  let e := fresh "e" in
  let p := fresh "p" in
  let a := fresh "a" in
  let w := fresh "w" in
  let r := fresh "r" in
  let k := fresh "k" in
  destruct s as [c [e p a w r k]].

Ltac ex_state :=
  eexists; split;
  [apply pair_equal_spec; split; [|reflexivity]; reflexivity|].

Ltac consumed_goals :=
  cbn; repeat match goal with |- _ /\ _ => split end;
  try congruence; try (rewrite ?Nat2Z.inj_succ; lia);
  try (intros; cbn; intuition discriminate).

Lemma consumed_refl s : consumed [] s s.
Proof. unfold consumed; cbn; repeat split; auto; lia. Qed.

Lemma consumed_trans bs1 bs2 s s1 s2 :
  consumed bs1 s s1 -> consumed bs2 s1 s2 -> consumed (bs1 ++ bs2) s s2.
Proof.
  unfold consumed.
  intros (A1 & E1 & O1 & C1 & V1 & K1 & Z1 & F1) (A2 & E2 & O2 & C2 & V2 & K2 & Z2 & F2).
  split; [|split; [|split; [|split; [|split; [|split; [|split]]]]]];
    try congruence.
  - rewrite A1, A2. apply app_assoc.
  - rewrite O2, O1, length_app. lia.
  - rewrite Z1, Z2, length_app. lia.
  - intros e. rewrite F2. apply F1.
Qed.

(** Bytes ahead: the fill succeeds, leaves them in the window and consumes
    nothing. *)
Lemma fz_available_some max s :
  ahead (stm s) <> [] ->
  exists s',
    fz_available max s = (Ok (Z.of_nat (length (window (stm s')))), s')
    /\ window (stm s') <> []
    /\ consumed [] s s'.
Proof.
  split_state s. rewrite fz_available_eq. unfold ahead, consumed, ahead_end, offset, stream_size. cbn.
  intros H. destruct w as [|b w]; cbn.
  - destruct e; cbn in *; [congruence|].
    destruct r as [|[b bs|x] r]; cbn in *; try congruence.
    ex_state. cbn.
    consumed_goals.
  - ex_state. cbn.
    consumed_goals.
Qed.

(** Nothing ahead and the source at its end: the fill gives 0 and the end
    flag is set. *)
Lemma fz_available_end max s :
  ahead (stm s) = [] -> ahead_end (stm s) = None ->
  exists s',
    fz_available max s = (Ok 0, s')
    /\ window (stm s') = [] /\ eof (stm s') = true
    /\ consumed [] s s'.
Proof.
  split_state s. rewrite fz_available_eq. unfold ahead, consumed, ahead_end, offset, stream_size. cbn.
  intros H E. destruct w as [|b w]; cbn in *; [|congruence].
  destruct e; cbn in *.
  - ex_state. consumed_goals.
  - destruct r as [|[b bs|x] r]; cbn in *; try congruence.
    ex_state. consumed_goals.
Qed.

(** Nothing ahead and the source about to throw: the fill throws that error
    on. *)
Lemma fz_available_fault max s e :
  ahead (stm s) = [] -> ahead_end (stm s) = Some e ->
  exists s', fz_available max s = (Throw e, s') /\ ctx s' = ctx s.
Proof.
  split_state s. rewrite fz_available_eq. unfold ahead, ahead_end. cbn.
  intros H E. destruct w as [|b w]; cbn in *; [|congruence].
  destruct e0; cbn in *; [congruence|].
  destruct r as [|[b bs|x] r]; cbn in *; try congruence.
  injection E as ->. eexists; split; reflexivity.
Qed.

(** Whatever the fill returns is the size of the window it leaves, and it
    returns 0 only with the end flag set. *)
Lemma fz_available_ok max s n s' :
  fz_available max s = (Ok n, s') ->
  n = Z.of_nat (length (window (stm s')))
  /\ (n = 0 -> eof (stm s') = true)
  /\ consumed [] s s'.
Proof.
  split_state s. rewrite fz_available_eq. unfold consumed, ahead, ahead_end, offset, stream_size. cbn.
  destruct w as [|b w]; cbn.
  - destruct e; cbn.
    + intros H; injection H as <- <-; consumed_goals.
    + destruct r as [|[b bs|x] r]; cbn; intros H; try discriminate;
        injection H as <- <-; cbn; consumed_goals.
  - intros H; injection H as <- <-; consumed_goals.
Qed.

(** A thrown fill only ever throws an error of the source. *)
Lemma fz_available_throw max s e s' :
  fz_available max s = (Throw e, s') ->
  In (Fault e) (source (stm s)) /\ ctx s' = ctx s
  /\ (stream_size (stm s') <= stream_size (stm s))%nat
  /\ (forall x, In x (source (stm s')) -> In x (source (stm s))).
Proof.
  split_state s. rewrite fz_available_eq. unfold stream_size. cbn.
  destruct w as [|b w]; cbn; [|discriminate].
  destruct e0; cbn; [discriminate|].
  destruct r as [|[b bs|x] r]; cbn; intros H; try discriminate.
  injection H as <- <-; cbn. repeat split; auto; lia.
Qed.

(** ** The byte primitives *)

Lemma consumed_pop b w s1 :
  window (stm s1) = b :: w ->
  consumed [b] s1 (mk_state (ctx s1) (set_window w (stm s1))).
Proof.
  split_state s1. unfold consumed, ahead, ahead_end, offset, stream_size. cbn.
  intros ->. consumed_goals.
Qed.

Lemma fz_read_byte_some s b rest :
  ahead (stm s) = b :: rest ->
  exists s', fz_read_byte s = (Ok (byte_val b), s') /\ consumed [b] s s'.
Proof.
  intros H.
  destruct (fz_available_some 1 s) as (s1 & E & W & C); [congruence|].
  unfold fz_read_byte, bind, get_stm, put_stm, ret. rewrite E.
  destruct (window (stm s1)) as [|b' w] eqn:Ew; [congruence|].
  assert (b' = b) as ->.
  { destruct C as (A & _). unfold ahead in A at 2. rewrite Ew, H in A.
    cbn in A. congruence. }
  eexists; split; [reflexivity|].
  apply (consumed_trans [] [b] _ _ _ C). now apply consumed_pop.
Qed.

Lemma fz_read_byte_end s :
  ahead (stm s) = [] -> ahead_end (stm s) = None ->
  exists s',
    fz_read_byte s = (Ok EOF, s')
    /\ window (stm s') = [] /\ eof (stm s') = true /\ consumed [] s s'.
Proof.
  intros H E.
  destruct (fz_available_end 1 s H E) as (s1 & E1 & W & F & C).
  unfold fz_read_byte, bind, get_stm, put_stm, ret. rewrite E1, W.
  eexists; split; [reflexivity|]. auto.
Qed.

Lemma fz_read_byte_fault s e :
  ahead (stm s) = [] -> ahead_end (stm s) = Some e ->
  exists s', fz_read_byte s = (Throw e, s') /\ ctx s' = ctx s.
Proof.
  intros H E.
  destruct (fz_available_fault 1 s e H E) as (s1 & E1 & C).
  unfold fz_read_byte, bind. rewrite E1. eauto.
Qed.

Lemma fz_peek_byte_some s b rest :
  ahead (stm s) = b :: rest ->
  exists s', fz_peek_byte s = (Ok (byte_val b), s') /\ consumed [] s s'.
Proof.
  intros H.
  destruct (fz_available_some 1 s) as (s1 & E & W & C); [congruence|].
  unfold fz_peek_byte, bind, get_stm, ret. rewrite E.
  destruct (window (stm s1)) as [|b' w] eqn:Ew; [congruence|].
  assert (b' = b) as ->.
  { destruct C as (A & _). unfold ahead in A at 2. rewrite Ew, H in A.
    cbn in A. congruence. }
  eexists; split; [reflexivity|]. exact C.
Qed.

Lemma fz_peek_byte_end s :
  ahead (stm s) = [] -> ahead_end (stm s) = None ->
  exists s',
    fz_peek_byte s = (Ok EOF, s')
    /\ window (stm s') = [] /\ eof (stm s') = true /\ consumed [] s s'.
Proof.
  intros H E.
  destruct (fz_available_end 1 s H E) as (s1 & E1 & W & F & C).
  unfold fz_peek_byte, bind, get_stm, ret. rewrite E1, W.
  eexists; split; [reflexivity|]. auto.
Qed.

Lemma byte_val_range b : 0 <= byte_val b < 256.
Proof.
  unfold byte_val. pose proof (Byte.to_N_bounded b). lia.
Qed.

Lemma byte_val_not_eof b : byte_val b <> EOF.
Proof. pose proof (byte_val_range b). unfold EOF. lia. Qed.

(** What follows the bytes just consumed. *)
Lemma consumed_ahead bs rest s s' :
  consumed bs s s' -> ahead (stm s) = bs ++ rest -> ahead (stm s') = rest.
Proof.
  intros (A & _) H. rewrite A in H. now apply app_inv_head in H.
Qed.

Lemma consumed_end bs s s' :
  consumed bs s s' -> ahead_end (stm s') = ahead_end (stm s).
Proof. now intros (_ & E & _). Qed.

(** ** fz_read *)

Lemma take_window_spec n s :
  0 <= n <= Z.of_nat (length (window (stm s))) ->
  exists s',
    take_window n s = (Ok (firstn (Z.to_nat n) (window (stm s))), s')
    /\ consumed (firstn (Z.to_nat n) (window (stm s))) s s'.
Proof.
  intros Hn. unfold take_window, bind, get_stm, put_stm, ret.
  eexists; split; [reflexivity|].
  split_state s. unfold consumed, ahead, ahead_end, offset, stream_size. cbn in *.
  assert (L : length (firstn (Z.to_nat n) w) = Z.to_nat n)
    by (apply firstn_length_le; lia).
  assert (K : length (skipn (Z.to_nat n) w) = (length w - Z.to_nat n)%nat)
    by apply length_skipn.
  repeat match goal with |- _ /\ _ => split end; try reflexivity.
  - now rewrite app_assoc, firstn_skipn.
  - rewrite L, K. lia.
  - rewrite L, K. lia.
Qed.

(** A returning [fz_read]: the bytes written are the next bytes of the stream,
    the count is their number, and the loop stopped because the request was
    satisfied or because the fill gave 0. *)
Lemma fz_read_loop_ok fuel : forall buf count len s dest n s',
  0 <= len -> (Z.to_nat len < fuel)%nat ->
  fz_read_loop fuel buf count len s = (Ok (dest, n), s') ->
  exists bs,
    dest = buf ++ bs /\ n = count + Z.of_nat (length bs)
    /\ consumed bs s s'
    /\ Z.of_nat (length bs) <= len
    /\ (Z.of_nat (length bs) = len
        \/ (window (stm s') = [] /\ eof (stm s') = true)).
Proof.
  induction fuel as [|fuel IH]; intros buf count len s dest n s' Hl Hf E; [lia|].
  cbn [fz_read_loop] in E. unfold bind in E at 1.
  destruct (fz_available len s) as [[n0|e] s1] eqn:Ea; [|discriminate].
  destruct (fz_available_ok _ _ _ _ Ea) as (Hn0 & Hz & C0).
  set (m := if n0 >? len then len else n0) in E.
  assert (Hm : 0 <= m <= len /\ m <= n0) by (subst m; destruct (Z.gtb_spec n0 len); lia).
  destruct (Z.eqb_spec m 0) as [Em|Em].
  - unfold ret in E. injection E as <- <- <-.
    exists []. rewrite app_nil_r.
    refine (conj _ (conj _ (conj _ (conj _ _)))); auto; cbn; try lia.
    destruct (Z.eq_dec len 0) as [|Hne]; [left; cbn; lia|right].
    assert (n0 = 0) by (subst m; destruct (Z.gtb_spec n0 len); lia).
    split; [|auto]. apply length_zero_iff_nil. lia.
  - unfold bind in E at 1.
    destruct (take_window_spec m s1) as (s2 & Et & C1); [lia|].
    rewrite Et in E.
    set (chunk := firstn (Z.to_nat m) (window (stm s1))) in *.
    assert (Lc : Z.of_nat (length chunk) = m).
    { subst chunk. rewrite firstn_length_le; lia. }
    pose proof (consumed_trans _ _ _ _ _ C0 C1) as C01. cbn in C01.
    destruct (Z.gtb_spec (len - m) 0) as [Hg|Hg].
    + apply IH in E; [|lia|lia].
      destruct E as (bs & -> & -> & C2 & Hb & Hs).
      exists (chunk ++ bs). rewrite length_app, app_assoc.
      refine (conj _ (conj _ (conj _ (conj _ _)))); auto; try lia.
      * eapply consumed_trans; eauto.
      * destruct Hs as [Hs|Hs]; [left; lia|now right].
    + unfold ret in E. injection E as <- <- <-.
      exists chunk.
      refine (conj _ (conj _ (conj _ (conj _ _)))); auto; try lia.
Qed.

(** A throwing [fz_read]: the error is the one the source throws after its
    last byte, and the stream held fewer bytes than requested. *)
Lemma fz_read_loop_throw fuel : forall buf count len s e s',
  fz_read_loop fuel buf count len s = (Throw e, s') ->
  ahead_end (stm s) = Some e
  /\ (Z.of_nat (length (ahead (stm s))) < len \/ ahead (stm s) = [])
  /\ In (Fault e) (source (stm s)) /\ ctx s' = ctx s.
Proof.
  induction fuel as [|fuel IH]; intros buf count len s e s' E; [discriminate|].
  cbn [fz_read_loop] in E. unfold bind in E at 1.
  destruct (fz_available len s) as [[n0|e0] s1] eqn:Ea.
  - destruct (fz_available_ok _ _ _ _ Ea) as (Hn0 & Hz & C0).
    set (m := if n0 >? len then len else n0) in E.
    destruct (Z.eqb_spec m 0) as [Em|Em]; [discriminate|].
    assert (Hm : m <= n0 /\ m <= len /\ (m = len \/ m = n0))
      by (subst m; destruct (Z.gtb_spec n0 len); lia).
    destruct (Z_lt_le_dec m 0) as [Hneg|Hpos].
    { (* a negative request takes nothing and ends the loop *)
      unfold bind, take_window, get_stm, put_stm, ret in E.
      destruct (Z.gtb_spec (len - m) 0); [|discriminate].
      exfalso. lia. }
    unfold bind in E at 1.
    destruct (take_window_spec m s1) as (s2 & Et & C1); [lia|].
    rewrite Et in E.
    set (chunk := firstn (Z.to_nat m) (window (stm s1))) in *.
    assert (Lc : Z.of_nat (length chunk) = m).
    { subst chunk. rewrite firstn_length_le; lia. }
    pose proof (consumed_trans _ _ _ _ _ C0 C1) as C01. cbn in C01.
    destruct (Z.gtb_spec (len - m) 0) as [Hg|Hg]; [|discriminate].
    apply IH in E. destruct E as (He & Hlen & Hin & Hc).
    destruct C01 as (A & E' & _ & Cc & _ & _ & _ & F).
    refine (conj _ (conj _ (conj _ _))); try congruence.
    + left. rewrite A, length_app.
      destruct Hlen as [Hlen|Hlen]; [lia|]. rewrite Hlen. cbn. lia.
    + now apply F.
  - injection E as <- <-.
    destruct (ahead (stm s)) as [|b rest] eqn:Ha.
    + destruct (ahead_end (stm s)) as [e1|] eqn:He.
      * destruct (fz_available_fault len s e1 Ha He) as (s2 & E2 & Hc).
        rewrite E2 in Ea. injection Ea as <- <-.
        destruct (fz_available_throw _ _ _ _ E2) as (Hin & _).
        refine (conj _ (conj _ (conj _ _))); auto.
      * destruct (fz_available_end len s Ha He) as (s2 & E2 & _).
        rewrite E2 in Ea. discriminate.
    + destruct (fz_available_some len s) as (s2 & E2 & _); [congruence|].
      rewrite E2 in Ea. discriminate.
Qed.

Lemma firstn_all_app {A} (l l' : list A) :
  firstn (length l) (l ++ l') = l.
Proof. rewrite firstn_app, Nat.sub_diag, firstn_all. cbn. apply app_nil_r. Qed.

(** [fz_read] on a stream whose source ends without an error, or which holds
    at least the requested bytes: it returns the first [len] bytes ahead, or
    all of them when there are fewer. *)
Lemma fz_read_view len s :
  0 <= len ->
  ahead_end (stm s) = None
  \/ (len <= Z.of_nat (length (ahead (stm s))) /\ ahead (stm s) <> []) ->
  exists s',
    fz_read len s =
      (Ok (firstn (Z.to_nat len) (ahead (stm s)),
           Z.min len (Z.of_nat (length (ahead (stm s))))), s')
    /\ consumed (firstn (Z.to_nat len) (ahead (stm s))) s s'
    /\ (Z.of_nat (length (ahead (stm s))) < len ->
        window (stm s') = [] /\ eof (stm s') = true).
Proof.
  intros Hl Hv. unfold fz_read.
  destruct (fz_read_loop (S (Z.to_nat len)) [] 0 len s) as [[[dest n]|e] s'] eqn:E.
  - apply fz_read_loop_ok in E; [|lia|lia].
    destruct E as (bs & -> & -> & C & Hb & Hs). cbn [app].
    assert (A := C). destruct A as (A & _).
    assert (Hbs : bs = firstn (Z.to_nat len) (ahead (stm s))).
    { destruct Hs as [Hs|[Hw He]].
      - rewrite A. replace (Z.to_nat len) with (length bs) by lia.
        now rewrite firstn_all_app.
      - assert (ahead (stm s') = []) as Hn by (unfold ahead; now rewrite Hw, He).
        rewrite A, Hn, app_nil_r. rewrite firstn_all2; [reflexivity|lia]. }
    assert (Hmin : 0 + Z.of_nat (length bs)
                   = Z.min len (Z.of_nat (length (ahead (stm s))))).
    { rewrite A, length_app.
      destruct Hs as [Hs|[Hw He]]; [lia|].
      assert (ahead (stm s') = []) as Hn by (unfold ahead; now rewrite Hw, He).
      rewrite Hn. cbn. lia. }
    exists s'. rewrite <- Hbs, Hmin. refine (conj _ (conj _ _)); auto.
    + intros Hlt. destruct Hs as [Hs|Hs]; [|tauto].
      rewrite A, length_app in Hlt. lia.
  - apply fz_read_loop_throw in E. destruct E as (He & Hlen & _).
    destruct Hv as [Hv|[Hv Hne]]; [congruence|].
    destruct Hlen; [lia|contradiction].
Qed.

Lemma fz_available_at_end max s :
  window (stm s) = [] -> eof (stm s) = true -> fz_available max s = (Ok 0, s).
Proof. intros W E. rewrite fz_available_eq, W, E. reflexivity. Qed.

(** C4.  A stream that holds exactly [k] more bytes, asked for [n > k]:
    [fz_read] writes those [k] bytes, returns [k] and throws nothing.  In
    general a returning [fz_read] returns the number of bytes it wrote, which
    are the next bytes of the stream; the read offset has moved by that
    number; and it stopped with the request satisfied or with the fill
    returning 0. *)
Theorem fz_read_short_count :
  (forall s n k,
      ahead_end (stm s) = None ->
      Z.of_nat (length (ahead (stm s))) = k -> k < n ->
      exists s',
        fz_read n s = (Ok (ahead (stm s), k), s')
        /\ consumed (ahead (stm s)) s s'
        /\ offset (stm s') = offset (stm s) + k)
  /\ (forall s len dest count s',
        0 <= len ->
        fz_read len s = (Ok (dest, count), s') ->
        count = Z.of_nat (length dest)
        /\ consumed dest s s'
        /\ offset (stm s') = offset (stm s) + count
        /\ count <= len
        /\ (count = len \/ forall max, fz_available max s' = (Ok 0, s'))).
Proof.
  split.
  - intros s n k He Hk Hlt.
    destruct (fz_read_view n s) as (s' & E & C & _); [lia|now left|].
    rewrite firstn_all2 in E, C by lia.
    rewrite Z.min_r in E by lia. rewrite Hk in E.
    exists s'. refine (conj E (conj C _)).
    destruct C as (_ & _ & O & _). lia.
  - intros s len dest count s' Hl E. unfold fz_read in E.
    apply fz_read_loop_ok in E; [|lia|lia].
    destruct E as (bs & -> & -> & C & Hb & Hs). cbn [app].
    refine (conj _ (conj C (conj _ (conj _ _)))); try lia.
    + destruct C as (_ & _ & O & _). lia.
    + destruct Hs as [Hs|[Hw He]]; [left; lia|right].
      intros max. now apply fz_available_at_end.
Qed.

Lemma fz_read_short_count_witness :
  exists s',
    fz_read 10 (mk_state ctx0 (mem_stream [x61; x62; x63]))
    = (Ok ([x61; x62; x63], 3), s')
    /\ offset (stm s') = 3.
Proof.
  destruct (proj1 fz_read_short_count
              (mk_state ctx0 (mem_stream [x61; x62; x63])) 10 3)
    as (s' & E & _ & O); [reflexivity|reflexivity|lia|].
  exists s'. split; [exact E|exact O].
Defined.

(** ** Shifts and ors of bytes as arithmetic *)

(** From here on [lia] also decides goals with division and remainder by a
    constant. *)
Ltac Zify.zify_post_hook ::= Z.to_euclidean_division_equations.

Lemma lor_disjoint_add k m x y :
  m = 2 ^ k -> 0 <= k -> 0 <= x -> x mod m = 0 -> 0 <= y < m ->
  Z.lor x y = x + y.
Proof.
  intros -> Hk Hx Hm Hy.
  assert (L : Z.land x y = 0).
  { apply Z.bits_inj'. intros n Hn. rewrite Z.land_spec, Z.bits_0.
    destruct (Z_lt_le_dec n k) as [Hlt|Hge].
    - rewrite <- (Z.mod_pow2_bits_low x k n) by lia.
      rewrite Hm, Z.bits_0. reflexivity.
    - rewrite <- (Z.mod_small y (2 ^ k)) by lia.
      rewrite Z.mod_pow2_bits_high by lia. apply andb_false_r. }
  rewrite Z.add_nocarry_lxor by exact L. symmetry. now apply Z.lxor_lor.
Qed.

Lemma lor_disjoint_add_r k m x y :
  m = 2 ^ k -> 0 <= k -> 0 <= x -> x mod m = 0 -> 0 <= y < m ->
  Z.lor y x = x + y.
Proof. intros. rewrite Z.lor_comm. now apply (lor_disjoint_add k m). Qed.

Lemma shl32_mul a k : 0 <= k -> shl32 a k = (a * 2 ^ k) mod 2 ^ 32.
Proof. intros. unfold shl32, to_u32. now rewrite Z.shiftl_mul_pow2. Qed.

Lemma shl64_mul a k : 0 <= k -> shl64 a k = (a * 2 ^ k) mod 2 ^ 64.
Proof. intros. unfold shl64, to_u64. now rewrite Z.shiftl_mul_pow2. Qed.

Ltac side := first [reflexivity | lia].

Ltac pow_consts :=
  change (2 ^ 8) with 256 in *;
  change (2 ^ 16) with 65536 in *;
  change (2 ^ 24) with 16777216 in *;
  change (2 ^ 32) with 4294967296 in *;
  change (2 ^ 40) with 1099511627776 in *;
  change (2 ^ 48) with 281474976710656 in *;
  change (2 ^ 56) with 72057594037927936 in *;
  change (2 ^ 64) with 18446744073709551616 in *.

(** Turn the innermost [Z.lor] of two bit-disjoint terms into a sum. *)
Ltac lor_sum :=
  match goal with
  | |- context [Z.lor ?x ?y] =>
      lazymatch x with context [Z.lor _ _] => fail | _ => idtac end;
      lazymatch y with context [Z.lor _ _] => fail | _ => idtac end;
      first
        [ rewrite (lor_disjoint_add 8 256 x y) by side
        | rewrite (lor_disjoint_add 16 65536 x y) by side
        | rewrite (lor_disjoint_add 24 16777216 x y) by side
        | rewrite (lor_disjoint_add 32 4294967296 x y) by side
        | rewrite (lor_disjoint_add 40 1099511627776 x y) by side
        | rewrite (lor_disjoint_add 48 281474976710656 x y) by side
        | rewrite (lor_disjoint_add 56 72057594037927936 x y) by side
        | rewrite (lor_disjoint_add_r 8 256 y x) by side
        | rewrite (lor_disjoint_add_r 16 65536 y x) by side
        | rewrite (lor_disjoint_add_r 24 16777216 y x) by side
        | rewrite (lor_disjoint_add_r 32 4294967296 y x) by side
        | rewrite (lor_disjoint_add_r 40 1099511627776 y x) by side
        | rewrite (lor_disjoint_add_r 48 281474976710656 y x) by side
        | rewrite (lor_disjoint_add_r 56 72057594037927936 y x) by side ]
  end.

Ltac shifts_to_arith :=
  rewrite ?shl32_mul, ?shl64_mul by lia;
  rewrite ?Z.shiftl_mul_pow2 by lia;
  unfold to_u16, to_u32, to_u64;
  pow_consts;
  repeat lor_sum.

Lemma be_concat_value_from bs : forall acc,
  0 <= acc ->
  fold_left (fun acc b => Z.lor (Z.shiftl acc 8) (byte_val b)) bs acc
  = fold_left (fun acc b => acc * 256 + byte_val b) bs acc.
Proof.
  induction bs as [|b bs IH]; intros acc Ha; [reflexivity|].
  pose proof (byte_val_range b) as Hb. cbn [fold_left].
  rewrite Z.shiftl_mul_pow2 by lia. change (2 ^ 8) with 256.
  rewrite (lor_disjoint_add 8 256) by side.
  apply IH. lia.
Qed.

Lemma be_concat_value bs : be_concat bs = be_value bs.
Proof. apply be_concat_value_from. lia. Qed.

Lemma be16_val a b :
  0 <= a < 256 -> 0 <= b < 256 ->
  to_u16 (Z.lor (shl32 a 8) b) = a * 256 + b.
Proof. intros. shifts_to_arith. lia. Qed.

Lemma be24_val a b c :
  0 <= a < 256 -> 0 <= b < 256 -> 0 <= c < 256 ->
  Z.lor (Z.lor (shl32 a 16) (shl32 b 8)) c = (a * 256 + b) * 256 + c.
Proof. intros. shifts_to_arith. lia. Qed.

Lemma be32_val a b c d :
  0 <= a < 256 -> 0 <= b < 256 -> 0 <= c < 256 -> 0 <= d < 256 ->
  Z.lor (Z.lor (Z.lor (shl32 a 24) (shl32 b 16)) (shl32 c 8)) d
  = ((a * 256 + b) * 256 + c) * 256 + d.
Proof. intros. shifts_to_arith. lia. Qed.

Lemma be64_val a b c d e f g h :
  0 <= a < 256 -> 0 <= b < 256 -> 0 <= c < 256 -> 0 <= d < 256 ->
  0 <= e < 256 -> 0 <= f < 256 -> 0 <= g < 256 -> 0 <= h < 256 ->
  Z.lor (Z.lor (Z.lor (Z.lor (Z.lor (Z.lor (Z.lor
    (shl64 a 56) (shl64 b 48)) (shl64 c 40)) (shl64 d 32))
    (shl64 e 24)) (shl64 f 16)) (shl64 g 8)) h
  = ((((((a * 256 + b) * 256 + c) * 256 + d) * 256 + e) * 256 + f) * 256 + g)
    * 256 + h.
Proof. intros. shifts_to_arith. lia. Qed.

Lemma le16_val a b :
  0 <= a < 256 -> 0 <= b < 256 ->
  to_u16 (Z.lor a (shl32 b 8)) = b * 256 + a.
Proof. intros. shifts_to_arith. lia. Qed.

Lemma le24_val a b c :
  0 <= a < 256 -> 0 <= b < 256 -> 0 <= c < 256 ->
  Z.lor (Z.lor a (shl32 b 8)) (shl32 c 16) = (c * 256 + b) * 256 + a.
Proof. intros. shifts_to_arith. lia. Qed.

Lemma le32_val a b c d :
  0 <= a < 256 -> 0 <= b < 256 -> 0 <= c < 256 -> 0 <= d < 256 ->
  Z.lor (Z.lor (Z.lor a (shl32 b 8)) (shl32 c 16)) (shl32 d 24)
  = ((d * 256 + c) * 256 + b) * 256 + a.
Proof. intros. shifts_to_arith. lia. Qed.

Lemma le64_val a b c d e f g h :
  0 <= a < 256 -> 0 <= b < 256 -> 0 <= c < 256 -> 0 <= d < 256 ->
  0 <= e < 256 -> 0 <= f < 256 -> 0 <= g < 256 -> 0 <= h < 256 ->
  Z.lor (Z.lor (Z.lor (Z.lor (Z.lor (Z.lor (Z.lor
    a (shl64 b 8)) (shl64 c 16)) (shl64 d 24))
    (shl64 e 32)) (shl64 f 40)) (shl64 g 48)) (shl64 h 56)
  = ((((((h * 256 + g) * 256 + f) * 256 + e) * 256 + d) * 256 + c) * 256 + b)
    * 256 + a.
Proof. intros. shifts_to_arith. lia. Qed.

Lemma to_u32_byte b : to_u32 (byte_val b) = byte_val b.
Proof. pose proof (byte_val_range b). unfold to_u32. pow_consts. lia. Qed.

Lemma to_u64_byte b : to_u64 (byte_val b) = byte_val b.
Proof. pose proof (byte_val_range b). unfold to_u64. pow_consts. lia. Qed.

Lemma eof32_byte b : eof32 (byte_val b) = false.
Proof.
  pose proof (byte_val_range b). unfold eof32.
  change (to_u32 EOF) with 4294967295. lia.
Qed.

Lemma eof64_byte b : eof64 (byte_val b) = false.
Proof.
  pose proof (byte_val_range b). unfold eof64.
  change (to_u64 EOF) with 18446744073709551615. lia.
Qed.

(** ** The integer decoders *)

(** One byte read off a stream whose next byte is known. *)
Ltac read_next :=
  match goal with
  | Ha : ahead (stm ?s) = ?b :: ?rest |- context [fz_read_byte ?s] =>
      let s1 := fresh "s" in
      let E := fresh "E" in
      let C := fresh "C" in
      let Ha' := fresh "Ha" in
      destruct (fz_read_byte_some s b rest Ha) as (s1 & E & C);
      rewrite !E; cbv beta iota;
      pose proof (consumed_ahead [b] rest _ _ C Ha) as Ha';
      clear E
  end.

(** One byte read off a stream that is at its end. *)
Ltac read_eof :=
  match goal with
  | Ha : ahead (stm ?s) = [], He : ahead_end (stm ?s) = None
    |- context [fz_read_byte ?s] =>
      let s1 := fresh "s" in
      let E := fresh "E" in
      let C := fresh "C" in
      let W := fresh "W" in
      let F := fresh "F" in
      let Ha' := fresh "Ha" in
      let He' := fresh "He" in
      destruct (fz_read_byte_end s Ha He) as (s1 & E & W & F & C);
      rewrite !E; cbv beta iota;
      pose proof (consumed_ahead [] [] _ _ C Ha) as Ha';
      pose proof (consumed_end [] _ _ C) as He';
      rewrite He in He';
      clear E
  end.

Ltac chain_consumed :=
  repeat match goal with
  | C1 : consumed ?x ?s ?s1, C2 : consumed ?y ?s1 ?s2 |- _ =>
      pose proof (consumed_trans x y s s1 s2 C1 C2); clear C1 C2
  end.

Ltac unfold_decoders :=
  unfold fz_read_uint16, fz_read_uint16_le, fz_read_uint24, fz_read_uint24_le,
    fz_read_uint32, fz_read_uint32_le, fz_read_uint64, fz_read_uint64_le,
    read_u32, read_u64, fz_throw;
  cbn [fz_read_bytes]; unfold bind, ret.

Ltac byte_values :=
  rewrite ?to_u32_byte, ?to_u64_byte, ?eof32_byte, ?eof64_byte; cbn [orb];
  rewrite ?be_concat_value; unfold le_concat; rewrite ?be_concat_value;
  cbn [rev app be_value fold_left].

Ltac finish_view :=
  match goal with
  | |- exists s', (_, ?s1) = _ /\ _ =>
      exists s1; cbn [app] in *;
      refine (conj _ (conj _ (conj _ _)));
      [do 2 f_equal; lia | do 2 f_equal; lia | reflexivity | assumption]
  end.

Lemma decode16_view s a b rest :
  ahead (stm s) = a :: b :: rest ->
  exists s',
    fz_read_uint16 s = (Ok (be_concat [a; b]), s')
    /\ fz_read_uint16_le s = (Ok (le_concat [a; b]), s')
    /\ fz_read_bytes 2 s = (Ok (map byte_val [a; b]), s')
    /\ consumed [a; b] s s'.
Proof.
  intros Ha. unfold_decoders. do 2 read_next. chain_consumed.
  pose proof (byte_val_range a). pose proof (byte_val_range b).
  byte_values. rewrite be16_val, le16_val by assumption.
  finish_view.
Qed.

Lemma decode24_view s a b c rest :
  ahead (stm s) = a :: b :: c :: rest ->
  exists s',
    fz_read_uint24 s = (Ok (be_concat [a; b; c]), s')
    /\ fz_read_uint24_le s = (Ok (le_concat [a; b; c]), s')
    /\ fz_read_bytes 3 s = (Ok (map byte_val [a; b; c]), s')
    /\ consumed [a; b; c] s s'.
Proof.
  intros Ha. unfold_decoders. do 3 read_next. chain_consumed.
  pose proof (byte_val_range a). pose proof (byte_val_range b).
  pose proof (byte_val_range c).
  byte_values. rewrite be24_val, le24_val by assumption.
  finish_view.
Qed.

Lemma decode32_view s a b c d rest :
  ahead (stm s) = a :: b :: c :: d :: rest ->
  exists s',
    fz_read_uint32 s = (Ok (be_concat [a; b; c; d]), s')
    /\ fz_read_uint32_le s = (Ok (le_concat [a; b; c; d]), s')
    /\ fz_read_bytes 4 s = (Ok (map byte_val [a; b; c; d]), s')
    /\ consumed [a; b; c; d] s s'.
Proof.
  intros Ha. unfold_decoders. do 4 read_next. chain_consumed.
  pose proof (byte_val_range a). pose proof (byte_val_range b).
  pose proof (byte_val_range c). pose proof (byte_val_range d).
  byte_values. rewrite be32_val, le32_val by assumption.
  finish_view.
Qed.

Lemma decode64_view s a b c d e f g h rest :
  ahead (stm s) = a :: b :: c :: d :: e :: f :: g :: h :: rest ->
  exists s',
    fz_read_uint64 s = (Ok (be_concat [a; b; c; d; e; f; g; h]), s')
    /\ fz_read_uint64_le s = (Ok (le_concat [a; b; c; d; e; f; g; h]), s')
    /\ fz_read_bytes 8 s = (Ok (map byte_val [a; b; c; d; e; f; g; h]), s')
    /\ consumed [a; b; c; d; e; f; g; h] s s'.
Proof.
  intros Ha. unfold_decoders. do 8 read_next. chain_consumed.
  pose proof (byte_val_range a). pose proof (byte_val_range b).
  pose proof (byte_val_range c). pose proof (byte_val_range d).
  pose proof (byte_val_range e). pose proof (byte_val_range f).
  pose proof (byte_val_range g). pose proof (byte_val_range h).
  byte_values. rewrite be64_val, le64_val by assumption.
  finish_view.
Qed.

(** C7.  With enough bytes ahead, each decoder reads [width/8] bytes, one
    single-byte read after the other, and returns their concatenation by
    shifts: most significant byte first for the big-endian decoders, least
    significant first for the little-endian ones. *)
Theorem fixed_width_decode (s : state) (bs rest : list byte) :
  ahead (stm s) = bs ++ rest ->
  (length bs = 2%nat ->
   exists s',
     fz_read_uint16 s = (Ok (be_concat bs), s')
     /\ fz_read_uint16_le s = (Ok (le_concat bs), s')
     /\ fz_read_bytes 2 s = (Ok (map byte_val bs), s')
     /\ consumed bs s s')
  /\ (length bs = 3%nat ->
      exists s',
        fz_read_uint24 s = (Ok (be_concat bs), s')
        /\ fz_read_uint24_le s = (Ok (le_concat bs), s')
        /\ fz_read_bytes 3 s = (Ok (map byte_val bs), s')
        /\ consumed bs s s')
  /\ (length bs = 4%nat ->
      exists s',
        fz_read_uint32 s = (Ok (be_concat bs), s')
        /\ fz_read_uint32_le s = (Ok (le_concat bs), s')
        /\ fz_read_bytes 4 s = (Ok (map byte_val bs), s')
        /\ consumed bs s s')
  /\ (length bs = 8%nat ->
      exists s',
        fz_read_uint64 s = (Ok (be_concat bs), s')
        /\ fz_read_uint64_le s = (Ok (le_concat bs), s')
        /\ fz_read_bytes 8 s = (Ok (map byte_val bs), s')
        /\ consumed bs s s').
Proof.
  intros Ha. refine (conj _ (conj _ (conj _ _))); intros L.
  - destruct bs as [|a [|b [|]]]; try discriminate L.
    now apply (decode16_view s a b rest).
  - destruct bs as [|a [|b [|c [|]]]]; try discriminate L.
    now apply (decode24_view s a b c rest).
  - destruct bs as [|a [|b [|c [|d [|]]]]]; try discriminate L.
    now apply (decode32_view s a b c d rest).
  - destruct bs as [|a [|b [|c [|d [|e [|f [|g [|h [|]]]]]]]]];
      try discriminate L.
    now apply (decode64_view s a b c d e f g h rest).
Qed.

Lemma fixed_width_decode_witness :
  exists s',
    fz_read_uint16 (mk_state ctx0 (mem_stream [x12; x34])) = (Ok 0x1234, s')
    /\ fz_read_uint16_le (mk_state ctx0 (mem_stream [x12; x34])) = (Ok 0x3412, s').
Proof.
  destruct (proj1 (fixed_width_decode
                     (mk_state ctx0 (mem_stream [x12; x34])) [x12; x34] []
                     eq_refl) eq_refl)
    as (s' & E1 & E2 & _).
  exists s'. split; [exact E1|exact E2].
Defined.

(** One byte read, keeping track of how the stream ends. *)
Ltac read_next_end :=
  match goal with
  | Ha : ahead (stm ?s) = ?b :: ?rest, He : ahead_end (stm ?s) = None
    |- context [fz_read_byte ?s] =>
      let s1 := fresh "s" in
      let E := fresh "E" in
      let C := fresh "C" in
      let Ha' := fresh "Ha" in
      let He' := fresh "He" in
      destruct (fz_read_byte_some s b rest Ha) as (s1 & E & C);
      rewrite !E; cbv beta iota;
      pose proof (consumed_ahead [b] rest _ _ C Ha) as Ha';
      pose proof (consumed_end [b] _ _ C) as He';
      rewrite He in He';
      clear E
  end.

Ltac finish_short :=
  chain_consumed;
  change (to_u32 EOF) with 4294967295;
  change (to_u64 EOF) with 18446744073709551615;
  change (eof32 4294967295) with true;
  change (eof64 18446744073709551615) with true;
  rewrite ?to_u32_byte, ?to_u64_byte, ?eof32_byte, ?eof64_byte; cbn [orb];
  match goal with
  | |- exists s', (_, ?s1) = _ /\ _ =>
      exists s1; cbn [app] in *;
      refine (conj _ (conj _ (conj _ (conj _ _))));
      [reflexivity | reflexivity | assumption | assumption | assumption]
  end.

Ltac short_decode :=
  unfold_decoders; repeat read_next_end; repeat read_eof; finish_short.

(** C8.  With fewer bytes ahead than the decoder needs, and the source then
    at its end, the decode throws the premature-end error of its width and
    returns no value; the bytes that were there have been consumed and the
    stream is left at its end. *)
Theorem fixed_width_decode_short (s : state) (bs : list byte) :
  ahead (stm s) = bs -> ahead_end (stm s) = None ->
  ((length bs < 2)%nat ->
   exists s',
     fz_read_uint16 s = (Throw premature16, s')
     /\ fz_read_uint16_le s = (Throw premature16, s')
     /\ consumed bs s s' /\ ahead (stm s') = [] /\ eof (stm s') = true)
  /\ ((length bs < 3)%nat ->
      exists s',
        fz_read_uint24 s = (Throw premature24, s')
        /\ fz_read_uint24_le s = (Throw premature24, s')
        /\ consumed bs s s' /\ ahead (stm s') = [] /\ eof (stm s') = true)
  /\ ((length bs < 4)%nat ->
      exists s',
        fz_read_uint32 s = (Throw premature32, s')
        /\ fz_read_uint32_le s = (Throw premature32, s')
        /\ consumed bs s s' /\ ahead (stm s') = [] /\ eof (stm s') = true)
  /\ ((length bs < 8)%nat ->
      exists s',
        fz_read_uint64 s = (Throw premature64, s')
        /\ fz_read_uint64_le s = (Throw premature64, s')
        /\ consumed bs s s' /\ ahead (stm s') = [] /\ eof (stm s') = true).
Proof.
  intros Ha He. refine (conj _ (conj _ (conj _ _))); intros L.
  - destruct bs as [|a [|b ?]]; cbn [length] in L; try lia; short_decode.
  - destruct bs as [|a [|b [|c ?]]]; cbn [length] in L; try lia; short_decode.
  - destruct bs as [|a [|b [|c [|d ?]]]]; cbn [length] in L; try lia;
      short_decode.
  - destruct bs as [|a [|b [|c [|d [|e [|f [|g [|h ?]]]]]]]];
      cbn [length] in L; try lia; short_decode.
Qed.

Lemma fixed_width_decode_short_witness :
  exists s',
    fz_read_uint32 (mk_state ctx0 (mem_stream [x12; x34]))
    = (Throw premature32, s')
    /\ offset (stm s') = 2 /\ ahead (stm s') = [].
Proof.
  destruct (proj1 (proj2 (proj2 (fixed_width_decode_short
              (mk_state ctx0 (mem_stream [x12; x34])) [x12; x34]
              eq_refl eq_refl))))
    as (s' & E & _ & C & A & _); [cbn; lia|].
  exists s'. refine (conj E (conj _ A)).
  destruct C as (_ & _ & O & _). exact O.
Defined.

(** ** fz_read_line *)

Lemma byte_val_cr b : byte_val b = 13 <-> b = x0d.
Proof. destruct b; vm_compute; split; intros H; (reflexivity || discriminate H). Qed.

Lemma byte_val_lf b : byte_val b = 10 <-> b = x0a.
Proof. destruct b; vm_compute; split; intros H; (reflexivity || discriminate H). Qed.

Lemma view_cases t :
  (exists b rest, ahead t = b :: rest)
  \/ (ahead t = [] /\ ahead_end t = None)
  \/ (exists e, ahead t = [] /\ ahead_end t = Some e).
Proof.
  destruct (ahead t) as [|b rest]; [|left; eauto].
  right. destruct (ahead_end t) as [e|]; [right; eauto|left; auto].
Qed.

Lemma fz_read_byte_inv s c s' :
  fz_read_byte s = (Ok c, s') ->
  (c = EOF /\ ahead (stm s) = [] /\ ahead_end (stm s) = None
   /\ consumed [] s s' /\ window (stm s') = [] /\ eof (stm s') = true)
  \/ (exists b rest,
        c = byte_val b /\ ahead (stm s) = b :: rest /\ consumed [b] s s').
Proof.
  intros E.
  destruct (view_cases (stm s)) as [(b & rest & Ha)|[(Ha & He)|(e & Ha & He)]].
  - destruct (fz_read_byte_some s b rest Ha) as (s1 & E1 & C).
    rewrite E1 in E. injection E as <- <-. right. eauto.
  - destruct (fz_read_byte_end s Ha He) as (s1 & E1 & W & F & C).
    rewrite E1 in E. injection E as <- <-. left. auto 10.
  - destruct (fz_read_byte_fault s e Ha He) as (s1 & E1 & _).
    rewrite E1 in E. discriminate.
Qed.

Lemma fz_peek_byte_inv s c s' :
  fz_peek_byte s = (Ok c, s') ->
  consumed [] s s'
  /\ ((c = EOF /\ ahead (stm s) = [] /\ ahead_end (stm s) = None)
      \/ (exists b rest, c = byte_val b /\ ahead (stm s) = b :: rest)).
Proof.
  intros E.
  destruct (view_cases (stm s)) as [(b & rest & Ha)|[(Ha & He)|(e & Ha & He)]].
  - destruct (fz_peek_byte_some s b rest Ha) as (s1 & E1 & C).
    rewrite E1 in E. injection E as <- <-. split; [auto|right; eauto].
  - destruct (fz_peek_byte_end s Ha He) as (s1 & E1 & W & F & C).
    rewrite E1 in E. injection E as <- <-. split; [auto|left; auto].
  - destruct (fz_available_fault 1 s e Ha He) as (s1 & E1 & _).
    unfold fz_peek_byte, bind in E. rewrite E1 in E. discriminate.
Qed.

Lemma plain_val b : plain b -> byte_val b <> 13 /\ byte_val b <> 10.
Proof.
  intros [H1 H2]. split; intros H; [apply byte_val_cr in H|apply byte_val_lf in H];
    contradiction.
Qed.

(** The loop over a run of plain bytes: they go to the output one by one. *)
Lemma read_line_loop_run line : forall fuel out n c s rest,
  Forall plain line ->
  ahead (stm s) = line ++ rest ->
  Z.of_nat (length line) + 1 < n ->
  exists s1 c1,
    consumed line s s1
    /\ read_line_loop (length line + fuel) out n c s
       = read_line_loop fuel (out ++ map byte_val line)
           (n - Z.of_nat (length line)) c1 s1.
Proof.
  induction line as [|b line IH]; intros fuel out n c s rest Hp Ha Hn.
  - exists s, c. split; [apply consumed_refl|].
    cbn. now rewrite app_nil_r, Z.sub_0_r.
  - inversion Hp as [|? ? Hb Hp']; subst.
    destruct (plain_val b Hb) as [Hcr Hlf].
    pose proof (byte_val_not_eof b) as Heof.
    cbn [length] in Hn. rewrite Nat2Z.inj_succ in Hn.
    destruct (fz_read_byte_some s b (line ++ rest) Ha) as (s1 & E1 & C1).
    destruct (IH fuel (out ++ [byte_val b]) (n - 1) (byte_val b) s1 rest Hp')
      as (s2 & c2 & C2 & E2).
    { now apply (consumed_ahead [b] _ _ _ C1). }
    { lia. }
    exists s2, c2. split; [apply (consumed_trans [b] line _ _ _ C1 C2)|].
    cbn [length Nat.add read_line_loop].
    destruct (Z.gtb_spec n 1); [|lia].
    unfold bind at 1. rewrite E1.
    destruct (Z.eqb_spec (byte_val b) EOF); [contradiction|].
    destruct (Z.eqb_spec (byte_val b) 13); [contradiction|].
    destruct (Z.eqb_spec (byte_val b) 10); [contradiction|].
    rewrite E2, <- app_assoc. cbn [map app]. rewrite Nat2Z.inj_succ.
    replace (n - Z.succ (Z.of_nat (length line)))
      with (n - 1 - Z.of_nat (length line)) by lia.
    reflexivity.
Qed.

(** The loop at a terminator, with room left ([1 < n]). *)
Lemma read_line_loop_lf f out n c s rest :
  1 < n -> ahead (stm s) = x0a :: rest ->
  exists s',
    read_line_loop (S f) out n c s = (Ok (out, n, 10), s')
    /\ consumed [x0a] s s'.
Proof.
  intros Hn Ha. cbn [read_line_loop].
  destruct (Z.gtb_spec n 1); [|lia].
  destruct (fz_read_byte_some s _ _ Ha) as (s1 & E1 & C1).
  unfold bind at 1. rewrite E1. change (byte_val x0a) with 10.
  change (10 =? EOF) with false. change (10 =? 13) with false.
  change (10 =? 10) with true. cbv beta iota. unfold ret. eauto.
Qed.

Lemma read_line_loop_crlf f out n c s rest :
  1 < n -> ahead (stm s) = x0d :: x0a :: rest ->
  exists s',
    read_line_loop (S f) out n c s = (Ok (out, n, 10), s')
    /\ consumed [x0d; x0a] s s'.
Proof.
  intros Hn Ha. cbn [read_line_loop].
  destruct (Z.gtb_spec n 1); [|lia].
  destruct (fz_read_byte_some s _ _ Ha) as (s1 & E1 & C1).
  pose proof (consumed_ahead [x0d] _ _ _ C1 Ha) as Ha1.
  destruct (fz_peek_byte_some s1 _ _ Ha1) as (s2 & E2 & C2).
  pose proof (consumed_ahead [] _ _ _ C2 Ha1) as Ha2.
  destruct (fz_read_byte_some s2 _ _ Ha2) as (s3 & E3 & C3).
  unfold bind at 1. rewrite E1. change (byte_val x0d) with 13.
  cbv beta iota. change (13 =? EOF) with false. change (13 =? 13) with true.
  cbv beta iota. unfold bind, ret. rewrite E2. change (byte_val x0a) with 10.
  change (10 =? 10) with true. cbv beta iota. rewrite E3.
  eexists; split; [reflexivity|].
  apply (consumed_trans [x0d] [x0a] _ _ _ C1).
  apply (consumed_trans [] [x0a] _ _ _ C2 C3).
Qed.

Lemma read_line_loop_cr f out n c s b rest :
  1 < n -> ahead (stm s) = x0d :: b :: rest -> b <> x0a ->
  exists s',
    read_line_loop (S f) out n c s = (Ok (out, n, byte_val b), s')
    /\ consumed [x0d] s s'.
Proof.
  intros Hn Ha Hb. cbn [read_line_loop].
  destruct (Z.gtb_spec n 1); [|lia].
  destruct (fz_read_byte_some s _ _ Ha) as (s1 & E1 & C1).
  pose proof (consumed_ahead [x0d] _ _ _ C1 Ha) as Ha1.
  destruct (fz_peek_byte_some s1 _ _ Ha1) as (s2 & E2 & C2).
  unfold bind at 1. rewrite E1. change (byte_val x0d) with 13.
  cbv beta iota. change (13 =? EOF) with false. change (13 =? 13) with true.
  cbv beta iota. unfold bind, ret. rewrite E2.
  destruct (Z.eqb_spec (byte_val b) 10) as [Hlf|Hlf].
  { apply byte_val_lf in Hlf. contradiction. }
  eexists; split; [reflexivity|].
  apply (consumed_trans [x0d] [] _ _ _ C1 C2).
Qed.

Lemma read_line_loop_cr_end f out n c s :
  1 < n -> ahead (stm s) = [x0d] -> ahead_end (stm s) = None ->
  exists s',
    read_line_loop (S f) out n c s = (Ok (out, n, EOF), s')
    /\ consumed [x0d] s s'.
Proof.
  intros Hn Ha He. cbn [read_line_loop].
  destruct (Z.gtb_spec n 1); [|lia].
  destruct (fz_read_byte_some s _ _ Ha) as (s1 & E1 & C1).
  pose proof (consumed_ahead [x0d] _ _ _ C1 Ha) as Ha1.
  pose proof (consumed_end _ _ _ C1) as He1. rewrite He in He1.
  destruct (fz_peek_byte_end s1 Ha1 He1) as (s2 & E2 & _ & _ & C2).
  unfold bind at 1. rewrite E1. change (byte_val x0d) with 13.
  cbv beta iota. change (13 =? EOF) with false. change (13 =? 13) with true.
  cbv beta iota. unfold bind, ret. rewrite E2.
  change (EOF =? 10) with false. cbv beta iota.
  eexists; split; [reflexivity|].
  apply (consumed_trans [x0d] [] _ _ _ C1 C2).
Qed.

Lemma read_line_loop_end f out n c s :
  1 < n -> ahead (stm s) = [] -> ahead_end (stm s) = None ->
  exists s',
    read_line_loop (S f) out n c s = (Ok (out, n, EOF), s')
    /\ consumed [] s s'.
Proof.
  intros Hn Ha He. cbn [read_line_loop].
  destruct (Z.gtb_spec n 1); [|lia].
  destruct (fz_read_byte_end s Ha He) as (s1 & E1 & _ & _ & C1).
  unfold bind at 1. rewrite E1. change (EOF =? EOF) with true.
  cbv beta iota. unfold ret. eauto.
Qed.

(** [fz_read_line] over a run of plain bytes: the loop goes on from the end
    of the run with those bytes stored. *)
Lemma fz_read_line_run n s line rest :
  Forall plain line ->
  ahead (stm s) = line ++ rest ->
  Z.of_nat (length line) + 2 <= n ->
  exists s1 f c1,
    consumed line s s1
    /\ fz_read_line n s
       = match read_line_loop (S f) (map byte_val line)
                 (n - Z.of_nat (length line)) c1 s1 with
         | (Ok (out, m, c), s2) =>
             (Ok (mk_line out (negb (m =? 0))
                    (negb (is_nil out && (c =? EOF)))), s2)
         | (Throw e, s2) => (Throw e, s2)
         end.
Proof.
  intros Hp Ha Hn.
  remember (Z.to_nat n - length line - 1)%nat as f eqn:Ef.
  assert (Hf : Z.to_nat n = (length line + S f)%nat) by lia.
  destruct (read_line_loop_run line (S f) [] n EOF s rest Hp Ha)
    as (s1 & c1 & C1 & E1); [lia|].
  exists s1, f, c1. split; [exact C1|].
  unfold fz_read_line, bind. rewrite Hf, E1. cbn [app].
  destruct (read_line_loop _ _ _ _ s1) as [[[[out m] c]|e] s2]; reflexivity.
Qed.





(** The two lines of the examples, run: the stream is left at ['d'], at
    offsets 5 and 4; and a line whose ["\r\n"] straddles two blocks of the
    source. *)
Example fz_read_line_crlf_run :
  fz_read_line 16
    (mk_state ctx0 (mem_stream [x61; x62; x63; x0d; x0a; x64; x65; x66]))
  = (Ok (mk_line [97; 98; 99] true true),
     mk_state ctx0 (mk_stream false 8 0 [x64; x65; x66] [] None))
  /\ fz_tell (mk_stream false 8 0 [x64; x65; x66] [] None) = 5.
Proof. split; reflexivity. Qed.

Example fz_read_line_cr_run :
  fz_read_line 16
    (mk_state ctx0 (mem_stream [x61; x62; x63; x0d; x64; x65; x66]))
  = (Ok (mk_line [97; 98; 99] true true),
     mk_state ctx0 (mk_stream false 7 0 [x64; x65; x66] [] None))
  /\ fz_tell (mk_stream false 7 0 [x64; x65; x66] [] None) = 4.
Proof. split; reflexivity. Qed.

Example fz_read_line_crlf_two_blocks :
  fz_read_line 16
    (mk_state ctx0
       (mk_stream false 2 0 [x61; x62]
          [Data x63 [x0d]; Data x0a [x64; x65; x66]] None))
  = (Ok (mk_line [97; 98; 99] true true),
     mk_state ctx0 (mk_stream false 8 0 [x64; x65; x66] [] None)).
Proof. reflexivity. Qed.

(** The loop never gives back less than it was given. *)
Lemma read_line_loop_keeps fuel : forall out n c s out' n' c' s',
  out <> [] ->
  read_line_loop fuel out n c s = (Ok (out', n', c'), s') ->
  out' <> [].
Proof.
  induction fuel as [|fuel IH]; intros out n c s out' n' c' s' Hne E.
  - cbn in E. unfold ret in E. congruence.
  - cbn [read_line_loop] in E.
    destruct (n >? 1); [|unfold ret in E; congruence].
    unfold bind at 1 in E.
    destruct (fz_read_byte s) as [[c0|e] s1]; [|discriminate].
    destruct (c0 =? EOF); [unfold ret in E; congruence|].
    destruct (c0 =? 13).
    + unfold bind, ret in E.
      destruct (fz_peek_byte s1) as [[c1|e] s2]; [|discriminate].
      destruct (c1 =? 10).
      * destruct (fz_read_byte s2) as [[c2|e] s3]; [|discriminate]. congruence.
      * congruence.
    + destruct (c0 =? 10); [unfold ret in E; congruence|].
      apply IH in E; [exact E|]. now destruct out.
Qed.

(** With a capacity below 2 the loop is not entered: nothing is read and
    NULL is returned, whatever the stream holds. *)
Lemma fz_read_line_no_room n s :
  n <= 1 -> fz_read_line n s = (Ok (mk_line [] (negb (n =? 0)) false), s).
Proof.
  intros Hn. unfold fz_read_line, bind.
  destruct (Z.to_nat n) as [|f] eqn:Ef; cbn [read_line_loop].
  - reflexivity.
  - destruct (Z.gtb_spec n 1); [lia|]. reflexivity.
Qed.

(** C5, counterexample.  Capacity 1, three bytes waiting: NULL is returned
    although the end of the stream was not hit, and the stream is
    untouched. *)
Lemma fz_read_line_null_without_eof :
  fz_read_line 1 (mk_state ctx0 (mem_stream [x61; x62; x63]))
  = (Ok (mk_line [] true false), mk_state ctx0 (mem_stream [x61; x62; x63]))
  /\ ahead (mem_stream [x61; x62; x63]) = [x61; x62; x63].
Proof. split; reflexivity. Qed.

(** A stream that holds a lone ['\r']: the line is empty and ends in a
    terminator, yet NULL is returned, because the peeked end-of-stream
    indicator overwrites [c]. *)
Example fz_read_line_lone_cr :
  fz_read_line 16 (mk_state ctx0 (mem_stream [x0d]))
  = (Ok (mk_line [] true false),
     mk_state ctx0 (mk_stream true 1 0 [] [] None)).
Proof. reflexivity. Qed.

(** C5, amended.  An exhausted stream gives NULL, for every capacity.  With
    a capacity of at least 2: a ['\n'], or a ['\r'] with a byte after it,
    as first byte gives an empty line and not NULL; and NULL is returned
    only with nothing stored and the stream exhausted from the start, the
    stream that holds a lone ['\r'] set aside.  With a capacity below 2,
    NULL is returned and nothing is read. *)
Theorem fz_read_line_no_line (s : state) (n : Z) :
  (ahead (stm s) = [] -> ahead_end (stm s) = None ->
   exists s',
     fz_read_line n s = (Ok (mk_line [] (negb (n =? 0)) false), s')
     /\ consumed [] s s')
  /\ (2 <= n ->
      forall rest,
        ahead (stm s) = x0a :: rest
        \/ (exists b, ahead (stm s) = x0d :: b :: rest) ->
        exists s', fz_read_line n s = (Ok (mk_line [] true true), s'))
  /\ (2 <= n -> ahead (stm s) <> [x0d] ->
      forall l s',
        fz_read_line n s = (Ok l, s') -> line_ret l = false ->
        line_mem l = [] /\ ahead (stm s) = [] /\ ahead_end (stm s) = None)
  /\ (n <= 1 ->
      fz_read_line n s = (Ok (mk_line [] (negb (n =? 0)) false), s)).
Proof.
  refine (conj _ (conj _ (conj _ _))).
  - intros Ha He. destruct (Z_le_gt_dec n 1) as [Hn|Hn].
    + exists s. split; [now apply fz_read_line_no_room|apply consumed_refl].
    + destruct (fz_read_line_run n s [] [] (Forall_nil _) Ha)
        as (s1 & f & c1 & C1 & E); [cbn; lia|].
      pose proof (consumed_ahead [] [] _ _ C1 Ha) as Ha1.
      pose proof (consumed_end _ _ _ C1) as He1. rewrite He in He1.
      destruct (read_line_loop_end f [] (n - 0) c1 s1) as (s2 & E2 & C2);
        [lia|exact Ha1|exact He1|].
      cbn [length map] in E. change (Z.of_nat 0) with 0 in E.
      rewrite E2 in E. exists s2. rewrite E.
      split; [|apply (consumed_trans [] [] _ _ _ C1 C2)].
      destruct (Z.eqb_spec (n - 0) 0); [lia|].
      destruct (Z.eqb_spec n 0); [lia|]. reflexivity.
  - intros Hn rest Ha.
    assert (A0 : ahead (stm s) = [] ++ ahead (stm s)) by reflexivity.
    destruct (fz_read_line_run n s [] _ (Forall_nil _) A0)
      as (s1 & f & c1 & C1 & E); [cbn; lia|].
    pose proof (consumed_ahead [] _ _ _ C1 A0) as Ha1.
    cbn [length map] in E. change (Z.of_nat 0) with 0 in E.
    destruct Ha as [Ha|(b & Ha)]; rewrite Ha in Ha1.
    + destruct (read_line_loop_lf f [] (n - 0) c1 s1 rest) as (s2 & E2 & _);
        [lia|exact Ha1|].
      rewrite E2 in E. exists s2. rewrite E.
      destruct (Z.eqb_spec (n - 0) 0); [lia|]. reflexivity.
    + destruct (byte_eq_dec b x0a) as [->|Hb].
      * destruct (read_line_loop_crlf f [] (n - 0) c1 s1 rest) as (s2 & E2 & _);
          [lia|exact Ha1|].
        rewrite E2 in E. exists s2. rewrite E.
        destruct (Z.eqb_spec (n - 0) 0); [lia|]. reflexivity.
      * destruct (read_line_loop_cr f [] (n - 0) c1 s1 b rest) as (s2 & E2 & _);
          [lia|exact Ha1|exact Hb|].
        rewrite E2 in E. exists s2. rewrite E.
        destruct (Z.eqb_spec (n - 0) 0); [lia|].
        destruct (Z.eqb_spec (byte_val b) EOF) as [He|He];
          [now apply byte_val_not_eof in He|]. reflexivity.
  - intros Hn Hcr l s' E Hret.
    unfold fz_read_line, bind in E.
    destruct (Z.to_nat n) as [|f] eqn:Ef; [lia|].
    cbn [read_line_loop] in E.
    destruct (Z.gtb_spec n 1); [|lia].
    unfold bind at 1 in E.
    destruct (fz_read_byte s) as [[c0|e] s1] eqn:E0; [|discriminate].
    apply fz_read_byte_inv in E0.
    destruct E0 as [(-> & Ha & He & _)|(b & rest & -> & Ha & C0)].
    + change (EOF =? EOF) with true in E. unfold ret in E.
      cbv beta iota in E. injection E as <- <-. cbn. auto.
    + exfalso.
      destruct (Z.eqb_spec (byte_val b) EOF) as [He|_];
        [now apply byte_val_not_eof in He|].
      pose proof (consumed_ahead [b] _ _ _ C0 Ha) as Ha1.
      destruct (Z.eqb_spec (byte_val b) 13) as [Hb|Hb].
      * apply byte_val_cr in Hb. subst b.
        unfold bind, ret in E.
        destruct (fz_peek_byte s1) as [[c1|e] s2] eqn:E1; [|discriminate].
        apply fz_peek_byte_inv in E1.
        destruct E1 as (_ & [(-> & Hr & _)|(b' & rest' & -> & Hr)]).
        -- rewrite Hr in Ha1. subst rest. contradiction.
        -- assert ((byte_val b' =? EOF) = false) as Hne.
           { apply Z.eqb_neq, byte_val_not_eof. }
           destruct (byte_val b' =? 10).
           ++ destruct (fz_read_byte s2) as [[c2|e] s3]; [|discriminate].
              injection E as <- <-. cbn in Hret. rewrite Hne in Hret.
              discriminate.
           ++ injection E as <- <-. cbn in Hret. rewrite Hne in Hret.
              discriminate.
      * destruct (Z.eqb_spec (byte_val b) 10) as [Hl|Hl].
        -- unfold ret in E. cbv beta iota in E.
           injection E as <- <-. cbn in Hret. rewrite Hl in Hret.
           discriminate.
        -- destruct (read_line_loop f ([] ++ [byte_val b]) (n - 1) (byte_val b) s1)
             as [[[[out m] c]|e] s2] eqn:E1; [|discriminate].
           apply read_line_loop_keeps in E1; [|discriminate].
           unfold ret in E. cbv beta iota in E.
           injection E as <- <-. cbn in Hret.
           destruct out; [contradiction|discriminate].
  - apply fz_read_line_no_room.
Qed.

Lemma fz_read_line_no_line_witness :
  (exists s',
      fz_read_line 16 (mk_state ctx0 (mem_stream [])) = (Ok (mk_line [] true false), s'))
  /\ (exists s',
        fz_read_line 16 (mk_state ctx0 (mem_stream [x0a; x61]))
        = (Ok (mk_line [] true true), s'))
  /\ fz_read_line 1 (mk_state ctx0 (mem_stream [x61]))
     = (Ok (mk_line [] true false), mk_state ctx0 (mem_stream [x61])).
Proof.
  refine (conj _ (conj _ _)).
  - destruct (proj1 (fz_read_line_no_line (mk_state ctx0 (mem_stream [])) 16)
                eq_refl eq_refl) as (s' & E & _).
    exists s'. exact E.
  - apply (proj1 (proj2 (fz_read_line_no_line
                           (mk_state ctx0 (mem_stream [x0a; x61])) 16))
             ltac:(lia) [x61]).
    left. reflexivity.
  - apply (proj2 (proj2 (proj2 (fz_read_line_no_line
                                  (mk_state ctx0 (mem_stream [x61])) 1)))).
    lia.
Defined.

(** ** fz_tell, fz_seek *)

Lemma to_i64_small x : min_int64 <= x <= max_int64 -> to_i64 x = x.
Proof. unfold to_i64, min_int64, max_int64. intros H. lia. Qed.

(** C9.  On a stream without native seek, an absolute seek to before the
    current offset (the difference being representable in [int64_t]) and a
    relative seek by a negative amount do three things only: the bit
    accumulator is reset, the warning is recorded, and nothing else changes,
    so the position told is the same and no byte was taken from the
    source. *)
Theorem fz_seek_backward_noop (s : state) (offset whence : Z) :
  seek (stm s) = None ->
  (whence = 0 /\ offset < fz_tell (stm s)
   /\ min_int64 <= offset - fz_tell (stm s))
  \/ (whence = 1 /\ offset < 0) ->
  fz_seek offset whence s
  = (Ok tt,
     mk_state
       (mk_context ("cannot seek backwards"%string :: warnings (ctx s))
          (dropped (ctx s)))
       (set_avail 0 (stm s)))
  /\ fz_tell (set_avail 0 (stm s)) = fz_tell (stm s)
  /\ window (set_avail 0 (stm s)) = window (stm s)
  /\ source (set_avail 0 (stm s)) = source (stm s).
Proof.
  intros Hk Hw. split; [|repeat split].
  unfold fz_seek, bind, get_stm, put_stm. cbn [stm ctx].
  replace (seek (set_avail 0 (stm s))) with (@None (list pull -> Z -> Z -> seek_result))
    by (symmetry; exact Hk).
  change (fz_tell (set_avail 0 (stm s))) with (fz_tell (stm s)).
  destruct Hw as [(-> & Hlt & Hmin)|(-> & Hlt)]; cbn [Z.eqb negb].
  - rewrite to_i64_small by (unfold min_int64, max_int64 in *; lia).
    destruct (Z.ltb_spec (offset - fz_tell (stm s)) 0); [|lia].
    replace (Z.to_nat (offset - fz_tell (stm s))) with 0%nat by lia.
    reflexivity.
  - destruct (Z.ltb_spec offset 0); [|lia].
    replace (Z.to_nat offset) with 0%nat by lia. reflexivity.
Qed.

Lemma fz_seek_backward_noop_witness :
  fz_seek 1 0
    (mk_state ctx0 (mk_stream false 8 5 [x64; x65; x66] [Data x67 []] None))
  = (Ok tt,
     mk_state (mk_context ["cannot seek backwards"%string] [])
       (mk_stream false 8 0 [x64; x65; x66] [Data x67 []] None))
  /\ fz_seek (-2) 1
       (mk_state ctx0 (mk_stream false 8 5 [x64; x65; x66] [Data x67 []] None))
     = (Ok tt,
        mk_state (mk_context ["cannot seek backwards"%string] [])
          (mk_stream false 8 0 [x64; x65; x66] [Data x67 []] None)).
Proof.
  split.
  - apply (fz_seek_backward_noop
             (mk_state ctx0
                (mk_stream false 8 5 [x64; x65; x66] [Data x67 []] None)) 1 0
             eq_refl).
    left. vm_compute. intuition discriminate.
  - apply (fz_seek_backward_noop
             (mk_state ctx0
                (mk_stream false 8 5 [x64; x65; x66] [Data x67 []] None)) (-2) 1
             eq_refl).
    right. split; [reflexivity|lia].
Defined.

(** ** fz_read when the source throws *)

Lemma fz_read_fault len s e :
  ahead_end (stm s) = Some e -> 0 <= len ->
  Z.of_nat (length (ahead (stm s))) < len \/ ahead (stm s) = [] ->
  exists s', fz_read len s = (Throw e, s') /\ ctx s' = ctx s.
Proof.
  intros He Hl Hs. unfold fz_read.
  destruct (fz_read_loop (S (Z.to_nat len)) [] 0 len s) as [[[dest n]|e'] s'] eqn:E.
  - exfalso. destruct (ahead (stm s)) as [|b rest] eqn:Ha.
    + cbn [fz_read_loop] in E. unfold bind at 1 in E.
      destruct (fz_available_fault len s e Ha He) as (s1 & E1 & _).
      rewrite E1 in E. discriminate.
    + destruct Hs as [Hs|Hs]; [|discriminate].
      apply fz_read_loop_ok in E; [|lia|lia].
      destruct E as (bs & _ & _ & C & Hb & [Hfull|[Hw Hf]]).
      * destruct C as (A & _). rewrite Ha in A.
        apply (f_equal (@length byte)) in A. rewrite length_app in A.
        rewrite A in Hs. lia.
      * apply consumed_end in C. rewrite He in C.
        unfold ahead_end in C. rewrite Hf in C. discriminate.
  - apply fz_read_loop_throw in E. destruct E as (He' & _ & _ & Hc).
    assert (e' = e) as -> by congruence. eauto.
Qed.

(** ** The slurp loop *)

Lemma to_size_range x : 0 <= to_size x <= size_max.
Proof. unfold to_size, size_max. pow_consts. lia. Qed.

Lemma wf_buffer_nonneg b : wf_buffer b -> 0 <= len b.
Proof. intros [H _]. lia. Qed.

(** One unfolding of the loop, with the three steps of a round named, for
    an allocator that has the memory asked for. *)
Lemma read_best_loop_round (grow_cap : Z -> Z) fuel check initial buf s :
  read_best_loop grow_cap alloc_ok (S fuel) check initial buf s =
  let buf1 :=
    if len buf =? cap buf
    then mk_buffer (data buf) (len buf) (grow_cap (cap buf)) else buf in
  if check && (len buf1 >=? MIN_BOMB) && (len buf1 / 200 >? initial)
  then (Throw bomb_error, buf1, s)
  else
    match fz_read (to_size (cap buf1 - len buf1)) s with
    | (Throw e, s2) => (Throw e, buf1, s2)
    | (Ok (bytes, n), s2) =>
        if n =? 0 then (Ok tt, buf1, s2)
        else
          read_best_loop grow_cap alloc_ok fuel check initial
            (mk_buffer (data buf1 ++ bytes) (len buf1 + n) (cap buf1)) s2
    end.
Proof.
  cbn [read_best_loop]. unfold fz_grow_buffer, ret.
  destruct (len buf =? cap buf); reflexivity.
Qed.

(** Whatever the loop throws was thrown by the source, or is the bomb
    error thrown with the check armed and its condition met by the
    accumulated length. *)
Lemma read_best_loop_throw (grow_cap : Z -> Z) fuel : forall check initial buf s e buf' s',
  read_best_loop grow_cap alloc_ok fuel check initial buf s = (Throw e, buf', s') ->
  In (Fault e) (source (stm s))
  \/ (e = bomb_error /\ check = true /\ bomb_cond (len buf') initial).
Proof.
  induction fuel as [|fuel IH]; intros check initial buf s e buf' s' E;
    [discriminate|].
  rewrite read_best_loop_round in E. cbv zeta in E.
  set (buf1 := if len buf =? cap buf then _ else buf) in E.
  destruct (check && (len buf1 >=? MIN_BOMB) && (len buf1 / 200 >? initial))
    eqn:Hc.
  - injection E as <- <- <-. right.
    apply andb_true_iff in Hc. destruct Hc as [Hc Hr].
    apply andb_true_iff in Hc. destruct Hc as [Hc Hm].
    unfold bomb_cond. repeat split; [assumption|lia|lia].
  - pose proof (to_size_range (cap buf1 - len buf1)) as Hroom.
    revert E Hroom. generalize (to_size (cap buf1 - len buf1)).
    intros room E Hroom.
    destruct (fz_read room s) as [[[bytes n]|e0] s2] eqn:Er.
    + destruct (n =? 0); [discriminate|].
      apply IH in E. destruct E as [E|E]; [left|now right].
      unfold fz_read in Er. apply fz_read_loop_ok in Er; [|lia|lia].
      destruct Er as (bs & _ & _ & C & _).
      destruct C as (_ & _ & _ & _ & _ & _ & _ & F). now apply F.
    + injection E as <- <- <-. left.
      unfold fz_read in Er. apply fz_read_loop_throw in Er. tauto.
Qed.

(** The buffer after the grow step of a round has room. *)
Lemma grow_step_room (grow_cap : Z -> Z) total buf :
  grows_upto grow_cap total -> wf_buffer buf -> len buf <= total ->
  let buf1 :=
    if len buf =? cap buf
    then mk_buffer (data buf) (len buf) (grow_cap (cap buf)) else buf in
  wf_buffer buf1 /\ data buf1 = data buf /\ len buf1 = len buf
  /\ len buf1 < cap buf1.
Proof.
  intros Hg [Hl Hc] Ht. cbv zeta.
  destruct (Z.eqb_spec (len buf) (cap buf)) as [E|E].
  - pose proof (Hg (cap buf)) as G. unfold wf_buffer. cbn [data len cap].
    repeat split; try reflexivity; lia.
  - unfold wf_buffer. repeat split; try reflexivity; lia.
Qed.

Lemma buffer_eta b : b = mk_buffer (data b) (len b) (cap b).
Proof. now destruct b. Qed.

Lemma to_size_small x : 0 <= x <= size_max -> to_size x = x.
Proof. unfold to_size, size_max. pow_consts. lia. Qed.

(** The read of a round, asked for [room > 0] bytes. *)
Lemma fz_read_room room s :
  0 < room ->
  ahead_end (stm s) = None
  \/ (room <= Z.of_nat (length (ahead (stm s))) /\ ahead (stm s) <> []) ->
  exists s1,
    fz_read room s =
      (Ok (firstn (Z.to_nat room) (ahead (stm s)),
           Z.min room (Z.of_nat (length (ahead (stm s))))), s1)
    /\ consumed (firstn (Z.to_nat room) (ahead (stm s))) s s1
    /\ ahead (stm s1) = skipn (Z.to_nat room) (ahead (stm s)).
Proof.
  intros Hr Hv. destruct (fz_read_view room s) as (s1 & E & C & _);
    [lia|exact Hv|].
  exists s1. refine (conj E (conj C _)).
  apply (consumed_ahead _ _ _ _ C). symmetry. apply firstn_skipn.
Qed.

(** No abort and a source that ends without an error: the loop returns
    with everything that was ahead appended to the buffer. *)
Lemma read_best_loop_through (grow_cap : Z -> Z) total check initial :
  grows_upto grow_cap total ->
  check = false \/ ~ bomb_cond total initial ->
  forall fuel buf s,
    wf_buffer buf ->
    ahead_end (stm s) = None ->
    len buf + Z.of_nat (length (ahead (stm s))) <= total ->
    (stream_size (stm s) < fuel)%nat ->
    exists c' s',
      read_best_loop grow_cap alloc_ok fuel check initial buf s
      = (Ok tt,
         mk_buffer (data buf ++ ahead (stm s))
           (len buf + Z.of_nat (length (ahead (stm s)))) c', s')
      /\ consumed (ahead (stm s)) s s'
      /\ len buf + Z.of_nat (length (ahead (stm s))) <= c' <= size_max.
Proof.
  intros Hg Hb. induction fuel as [|fuel IH]; intros buf s Hwf He Ht Hf; [lia|].
  rewrite read_best_loop_round.
  destruct (grow_step_room grow_cap total buf Hg Hwf) as (Hwf1 & Hd1 & Hl1 & Hroom);
    [lia|].
  cbv zeta. set (buf1 := if len buf =? cap buf then _ else buf) in *.
  pose proof (wf_buffer_nonneg _ Hwf) as Hl0.
  pose proof Hwf as [Hwl Hwc].
  assert (Hc : check && (len buf1 >=? MIN_BOMB) && (len buf1 / 200 >? initial)
               = false).
  { destruct Hb as [->|Hb]; [reflexivity|].
    destruct check; [cbn [andb]|reflexivity].
    destruct (Z.geb_spec (len buf1) MIN_BOMB); [|reflexivity].
    destruct (Z.gtb_spec (len buf1 / 200) initial); [|reflexivity].
    exfalso. apply Hb. unfold bomb_cond, MIN_BOMB in *. cbn in *. lia. }
  rewrite Hc. destruct Hwf1 as [Hlen1 Hcap1].
  clearbody buf1. destruct buf1 as [d1 l1 cap1].
  cbn [data len cap] in *. clear Hlen1. subst d1 l1.
  rewrite to_size_small by lia.
  destruct (fz_read_room (cap1 - len buf) s) as (s1 & E & C & Ha1);
    [lia|now left|].
  rewrite E.
  set (a := ahead (stm s)) in *.
  destruct (Z.eqb_spec (Z.min (cap1 - len buf) (Z.of_nat (length a))) 0)
    as [Hz|Hz].
  - assert (a = []) as Hnil by (apply length_zero_iff_nil; lia).
    rewrite Hnil in *. cbn [firstn length] in *.
    exists cap1, s1. rewrite app_nil_r.
    change (Z.of_nat 0) with 0. rewrite Z.add_0_r.
    destruct (Z.to_nat (cap1 - len buf)); cbn [firstn] in C;
      (split; [reflexivity|split; [exact C|lia]]).
  - pose proof (firstn_skipn (Z.to_nat (cap1 - len buf)) a) as Hsplit.
    assert (Hfl : Z.of_nat (length (firstn (Z.to_nat (cap1 - len buf)) a))
                  = Z.min (cap1 - len buf) (Z.of_nat (length a))).
    { rewrite length_firstn. lia. }
    assert (Hsl : Z.of_nat (length a)
                  = Z.min (cap1 - len buf) (Z.of_nat (length a))
                    + Z.of_nat (length (ahead (stm s1)))).
    { rewrite <- Hfl, <- Nat2Z.inj_add, <- length_app, Ha1, Hsplit.
      reflexivity. }
    destruct (IH (mk_buffer
                    (data buf ++ firstn (Z.to_nat (cap1 - len buf)) a)
                    (len buf
                     + Z.min (cap1 - len buf) (Z.of_nat (length a)))
                    cap1) s1)
      as (c' & s' & E2 & C2 & Hc').
    + unfold wf_buffer. cbn [data len cap].
      rewrite length_app, Nat2Z.inj_add, Hfl. lia.
    + rewrite (consumed_end _ _ _ C). exact He.
    + cbn [len]. lia.
    + destruct C as (_ & _ & _ & _ & _ & _ & Z1 & _).
      assert (length (firstn (Z.to_nat (cap1 - len buf)) a) <> 0)%nat
        by lia.
      lia.
    + exists c', s'. rewrite E2. cbn [data len cap] in *.
      rewrite <- app_assoc, Ha1, Hsplit.
      replace (len buf
               + Z.min (cap1 - len buf) (Z.of_nat (length a))
               + Z.of_nat (length (skipn (Z.to_nat (cap1 - len buf)) a)))
        with (len buf + Z.of_nat (length a))
        by (rewrite Ha1 in Hsl; lia).
      split; [reflexivity|].
      split.
      * rewrite <- Hsplit at 1. rewrite Ha1 in C2.
        apply (consumed_trans _ _ _ _ _ C C2).
      * rewrite Ha1 in Hc', Hsl. lia.
Qed.

Ltac open_round Hg Hwf buf1 :=
  rewrite read_best_loop_round;
  match type of Hwf with
  | wf_buffer ?buf =>
      let Hwf1 := fresh "Hwf1" in
      let Hd1 := fresh "Hd1" in
      let Hl1 := fresh "Hl1" in
      let Hroom := fresh "Hroom" in
      let d1 := fresh "d1" in
      let l1 := fresh "l1" in
      destruct (grow_step_room _ _ buf Hg Hwf) as (Hwf1 & Hd1 & Hl1 & Hroom);
      [lia|];
      cbv zeta; set (buf1 := if len buf =? cap buf then _ else buf) in *;
      destruct Hwf1 as [_ Hwf1];
      clearbody buf1; destruct buf1 as [d1 l1 buf1];
      cbn [data len cap] in *; subst d1 l1
  end.

(** The check armed, a source that ends without an error, and a total
    that meets the condition: the loop aborts with the bomb error, at an
    accumulated length that meets the condition. *)
Lemma read_best_loop_bomb (grow_cap : Z -> Z) total initial :
  grows_upto grow_cap total ->
  bomb_cond total initial ->
  forall fuel buf s,
    wf_buffer buf ->
    ahead_end (stm s) = None ->
    len buf + Z.of_nat (length (ahead (stm s))) = total ->
    (stream_size (stm s) < fuel)%nat ->
    exists buf' s' p q,
      read_best_loop grow_cap alloc_ok fuel true initial buf s
      = (Throw bomb_error, buf', s')
      /\ bomb_cond (len buf') initial /\ len buf' <= total
      /\ ahead (stm s) = p ++ q /\ data buf' = data buf ++ p
      /\ consumed p s s'.
Proof.
  intros Hg Hb. induction fuel as [|fuel IH]; intros buf s Hwf He Ht Hf; [lia|].
  pose proof (wf_buffer_nonneg _ Hwf) as Hl0.
  pose proof Hwf as [Hwl Hwc].
  open_round Hg Hwf cap1. cbn [andb].
  destruct ((len buf >=? MIN_BOMB) && (len buf / 200 >? initial)) eqn:Hc.
  - apply andb_true_iff in Hc. destruct Hc as [Hm Hr].
    exists (mk_buffer (data buf) (len buf) cap1), s, [], (ahead (stm s)).
    cbn [data len cap]. rewrite app_nil_r.
    refine (conj eq_refl (conj _ (conj _ (conj eq_refl
              (conj eq_refl (consumed_refl s)))))); [|lia].
    unfold bomb_cond. lia.
  - rewrite to_size_small by lia.
    destruct (fz_read_room (cap1 - len buf) s) as (s1 & E & C & Ha1);
      [lia|now left|].
    rewrite E. set (a := ahead (stm s)) in *.
    destruct (Z.eqb_spec (Z.min (cap1 - len buf) (Z.of_nat (length a))) 0)
      as [Hz|Hz].
    + exfalso. assert (len buf = total) as Hlt by lia.
      destruct Hb as [Hb1 Hb2]. rewrite <- Hlt in Hb1, Hb2.
      apply andb_false_iff in Hc. destruct Hc as [Hc|Hc]; lia.
    + pose proof (firstn_skipn (Z.to_nat (cap1 - len buf)) a) as Hsplit.
      assert (Hfl : Z.of_nat (length (firstn (Z.to_nat (cap1 - len buf)) a))
                    = Z.min (cap1 - len buf) (Z.of_nat (length a))).
      { rewrite length_firstn. lia. }
      assert (Hsl : Z.of_nat (length a)
                    = Z.min (cap1 - len buf) (Z.of_nat (length a))
                      + Z.of_nat (length (ahead (stm s1)))).
      { rewrite <- Hfl, <- Nat2Z.inj_add, <- length_app, Ha1, Hsplit.
        reflexivity. }
      destruct (IH (mk_buffer
                      (data buf ++ firstn (Z.to_nat (cap1 - len buf)) a)
                      (len buf
                       + Z.min (cap1 - len buf) (Z.of_nat (length a)))
                      cap1) s1)
        as (buf' & s' & p & q & E2 & Hb' & Hl' & Hpq & Hd' & C2).
      * unfold wf_buffer. cbn [data len cap].
        rewrite length_app, Nat2Z.inj_add, Hfl. lia.
      * rewrite (consumed_end _ _ _ C). exact He.
      * cbn [len]. lia.
      * destruct C as (_ & _ & _ & _ & _ & _ & Z1 & _).
        assert (length (firstn (Z.to_nat (cap1 - len buf)) a) <> 0)%nat
          by lia.
        lia.
      * exists buf', s', (firstn (Z.to_nat (cap1 - len buf)) a ++ p), q.
        rewrite E2. cbn [data len cap] in *.
        refine (conj eq_refl (conj Hb' (conj Hl' (conj _ (conj _ _))))).
        -- rewrite <- app_assoc, <- Hpq, Ha1. now rewrite Hsplit.
        -- rewrite Hd'. now rewrite app_assoc.
        -- apply (consumed_trans _ _ _ _ _ C C2).
Qed.

(** No abort and a source that throws [e] after its last byte: the loop
    throws [e], with a buffer that holds some of the bytes that were
    ahead. *)
Lemma read_best_loop_fault (grow_cap : Z -> Z) total check initial e :
  grows_upto grow_cap total ->
  check = false \/ ~ bomb_cond total initial ->
  forall fuel buf s,
    wf_buffer buf ->
    ahead_end (stm s) = Some e ->
    len buf + Z.of_nat (length (ahead (stm s))) <= total ->
    (stream_size (stm s) < fuel)%nat ->
    exists buf' s' p q,
      read_best_loop grow_cap alloc_ok fuel check initial buf s = (Throw e, buf', s')
      /\ ahead (stm s) = p ++ q /\ data buf' = data buf ++ p
      /\ len buf' = len buf + Z.of_nat (length p)
      /\ ctx s' = ctx s.
Proof.
  intros Hg Hb. induction fuel as [|fuel IH]; intros buf s Hwf He Ht Hf; [lia|].
  pose proof (wf_buffer_nonneg _ Hwf) as Hl0.
  pose proof Hwf as [Hwl Hwc].
  open_round Hg Hwf cap1.
  assert (Hc : check && (len buf >=? MIN_BOMB) && (len buf / 200 >? initial)
               = false).
  { destruct Hb as [->|Hb]; [reflexivity|].
    destruct check; [cbn [andb]|reflexivity].
    destruct (Z.geb_spec (len buf) MIN_BOMB); [|reflexivity].
    destruct (Z.gtb_spec (len buf / 200) initial); [|reflexivity].
    exfalso. apply Hb. unfold bomb_cond, MIN_BOMB in *. cbn in *. lia. }
  rewrite Hc. rewrite to_size_small by lia.
  set (a := ahead (stm s)) in *.
  destruct (Z_le_gt_dec (cap1 - len buf) (Z.of_nat (length a))) as [Hfit|Hfit].
  - destruct (fz_read_room (cap1 - len buf) s) as (s1 & E & C & Ha1);
      [lia|right; split; [exact Hfit|]|].
    { fold a. intros Hn. rewrite Hn in Hfit. cbn in Hfit. lia. }
    fold a in E, C, Ha1. rewrite E.
    destruct (Z.eqb_spec (Z.min (cap1 - len buf) (Z.of_nat (length a))) 0)
      as [Hz|Hz]; [lia|].
    pose proof (firstn_skipn (Z.to_nat (cap1 - len buf)) a) as Hsplit.
    assert (Hfl : Z.of_nat (length (firstn (Z.to_nat (cap1 - len buf)) a))
                  = Z.min (cap1 - len buf) (Z.of_nat (length a))).
    { rewrite length_firstn. lia. }
    assert (Hsl : Z.of_nat (length a)
                  = Z.min (cap1 - len buf) (Z.of_nat (length a))
                    + Z.of_nat (length (ahead (stm s1)))).
    { rewrite <- Hfl, <- Nat2Z.inj_add, <- length_app, Ha1, Hsplit.
      reflexivity. }
    destruct (IH (mk_buffer
                    (data buf ++ firstn (Z.to_nat (cap1 - len buf)) a)
                    (len buf
                     + Z.min (cap1 - len buf) (Z.of_nat (length a)))
                    cap1) s1)
      as (buf' & s' & p & q & E2 & Hpq & Hd' & Hl' & Hc').
    + unfold wf_buffer. cbn [data len cap].
      rewrite length_app, Nat2Z.inj_add, Hfl. lia.
    + rewrite (consumed_end _ _ _ C). exact He.
    + cbn [len]. lia.
    + destruct C as (_ & _ & _ & _ & _ & _ & Z1 & _).
      assert (length (firstn (Z.to_nat (cap1 - len buf)) a) <> 0)%nat
        by lia.
      lia.
    + exists buf', s', (firstn (Z.to_nat (cap1 - len buf)) a ++ p), q.
      rewrite E2. cbn [data len cap] in *.
      refine (conj eq_refl (conj _ (conj _ (conj _ _)))).
      * rewrite <- app_assoc, <- Hpq, Ha1. now rewrite Hsplit.
      * rewrite Hd'. now rewrite app_assoc.
      * rewrite Hl', length_app, Nat2Z.inj_add, Hfl. lia.
      * destruct C as (_ & _ & _ & Cc & _). congruence.
  - destruct (fz_read_fault (cap1 - len buf) s e He) as (s1 & E & Cc);
      [lia|left; fold a; lia|].
    rewrite E.
    exists (mk_buffer (data buf) (len buf) cap1), s1, [], a.
    cbn [data len cap app length]. rewrite app_nil_r.
    change (Z.of_nat 0) with 0.
    repeat split; try reflexivity; try lia. exact Cc.
Qed.



(** ** fz_read_best *)

Lemma read_best_try_eq (grow_cap : Z -> Z) check initial s :
  read_best_try grow_cap alloc_ok check initial s =
  let '(r, buf, s2) :=
    read_best_loop grow_cap alloc_ok (S (stream_size (stm s))) check
      (clamp_hint initial)
      (mk_buffer [] 0 (to_size (clamp_hint initial + 1))) s in
  (r, Some buf, s2).
Proof. reflexivity. Qed.

Lemma new_buffer_wf size : wf_buffer (mk_buffer [] 0 (to_size size)).
Proof.
  pose proof (to_size_range size). unfold wf_buffer. cbn [data len cap length].
  change (Z.of_nat 0) with 0. lia.
Qed.

(** With an allocator that has the memory asked for, the try block always
    has a buffer when it ends. *)
Lemma read_best_try_some (grow_cap : Z -> Z) check initial s r buf s' :
  read_best_try grow_cap alloc_ok check initial s = (r, buf, s') ->
  exists b, buf = Some b.
Proof.
  rewrite read_best_try_eq.
  destruct (read_best_loop _ _ _ _ _ _ _) as [[r0 b0] s0].
  intros E. injection E as <- <- <-. eauto.
Qed.

(** What the try block throws was thrown by the source, or is the bomb
    error with the check armed and its condition met. *)
Lemma read_best_try_throw (grow_cap : Z -> Z) check initial s e buf s' :
  read_best_try grow_cap alloc_ok check initial s = (Throw e, buf, s') ->
  In (Fault e) (source (stm s))
  \/ (e = bomb_error /\ check = true
      /\ exists b, buf = Some b /\ bomb_cond (len b) (clamp_hint initial)).
Proof.
  rewrite read_best_try_eq.
  destruct (read_best_loop _ _ _ _ _ _ _) as [[r0 b0] s0] eqn:E0.
  intros E. injection E as -> <- <-.
  apply read_best_loop_throw in E0.
  destruct E0 as [H|(H1 & H2 & H3)]; [now left|right]. eauto 6.
Qed.

(** The condition on the clamped hint and on the hint itself agree for a
    positive hint: past the floor, a two-hundredth of the length is above
    1024 anyway. *)
Lemma bomb_cond_clamp size hint :
  0 < hint -> bomb_cond size (clamp_hint hint) <-> bomb_cond size hint.
Proof.
  intros Hh. unfold bomb_cond, clamp_hint.
  change MIN_BOMB with 104857600.
  destruct (Z.ltb_spec hint 1024); lia.
Qed.


(** C2.  A retry-later error thrown in the try block is thrown on to the
    caller whether or not a flag was passed, whatever the allocator: the
    flag, if any, is left at 0 and the buffer is released.  In particular,
    on a stream whose source throws a retry-later error after its last byte
    (the loop not aborting before, the allocator having the memory asked
    for), [fz_read_best] throws that error in either mode. *)
Theorem fz_read_best_rethrows_trylater
    (grow_cap : Z -> Z) (initial : Z) (truncated : option Z)
    (s : state) (e : fz_error) :
  err_code e = FZ_ERROR_TRYLATER ->
  (forall mem b s1,
      read_best_try grow_cap mem (initial >? 0) initial s = (Throw e, Some b, s1) ->
      fz_read_best grow_cap mem initial truncated s
      = (Throw e, reset_flag truncated, released b s1))
  /\ (forall total,
        grows_upto grow_cap total ->
        initial = 0 \/ ~ bomb_cond total (clamp_hint initial) ->
        ahead_end (stm s) = Some e ->
        Z.of_nat (length (ahead (stm s))) <= total ->
        exists b s1,
          fz_read_best grow_cap alloc_ok initial truncated s
          = (Throw e, reset_flag truncated, released b s1)).
Proof.
  intros Hc.
  assert (Ht : is_trylater e = true) by (unfold is_trylater; now rewrite Hc).
  assert (Hbody : forall mem b s1,
             read_best_try grow_cap mem (initial >? 0) initial s
             = (Throw e, Some b, s1) ->
             fz_read_best grow_cap mem initial truncated s
             = (Throw e, reset_flag truncated, released b s1)).
  { intros mem b s1 E. unfold fz_read_best. rewrite E, Ht. reflexivity. }
  split; [exact Hbody|].
  intros total Hg Hb He Hl.
  destruct (read_best_loop_fault grow_cap total (initial >? 0)
              (clamp_hint initial) e Hg) with
    (fuel := S (stream_size (stm s)))
    (buf := mk_buffer [] 0 (to_size (clamp_hint initial + 1))) (s := s)
    as (b & s1 & p & q & E & _).
  - destruct Hb as [->|Hb]; [left; reflexivity|now right].
  - apply new_buffer_wf.
  - exact He.
  - cbn [len]. lia.
  - lia.
  - exists b, s1. apply Hbody. rewrite read_best_try_eq, E. reflexivity.
Qed.

Lemma fz_read_best_rethrows_trylater_witness :
  let e := mk_error FZ_ERROR_TRYLATER "data not available yet" in
  let s := mk_state ctx0
             (mk_stream false 1025 0 (repeat x61 1025) [Fault e; Data x62 []] None) in
  let b := mk_buffer (repeat x61 1025) 1025 2051 in
  let s1 := mk_state ctx0 (mk_stream false 1025 0 [] [Data x62 []] None) in
  fz_read_best grow_double alloc_ok 0 (Some 7) s = (Throw e, Some 0, released b s1)
  /\ fz_read_best grow_double alloc_ok 0 None s = (Throw e, None, released b s1).
Proof.
  intros e s b s1. split.
  - apply (proj1 (fz_read_best_rethrows_trylater grow_double 0 (Some 7) s e
                    eq_refl) alloc_ok b s1).
    vm_compute. reflexivity.
  - apply (proj1 (fz_read_best_rethrows_trylater grow_double 0 None s e
                    eq_refl) alloc_ok b s1).
    vm_compute. reflexivity.
Defined.



(** C10.  With a hint of 0 the check is not armed.  Whatever the try block
    then throws, with an allocator that has the memory asked for, was thrown
    by the source; so, the source not throwing a bomb
    error of its own, none is thrown by [fz_read_best], by [fz_read_all] or
    by [fz_read_file], which calls [fz_read_all] with the hint 0, however
    many bytes the stream gives. *)
Theorem zero_hint_disarms_bomb_check
    (grow_cap : Z -> Z) (fz_open_file : string -> result fz_stream) :
  (forall s e buf s',
      read_best_try grow_cap alloc_ok (0 >? 0) 0 s = (Throw e, buf, s') ->
      In (Fault e) (source (stm s)))
  /\ (forall s truncated,
        ~ In (Fault bomb_error) (source (stm s)) ->
        fst (fst (read_best_try grow_cap alloc_ok (0 >? 0) 0 s)) <> Throw bomb_error
        /\ fst (fst (fz_read_best grow_cap alloc_ok 0 truncated s)) <> Throw bomb_error
        /\ fst (fz_read_all grow_cap alloc_ok 0 s) <> Throw bomb_error)
  /\ (forall filename c t,
        fz_open_file filename = Ok t ->
        ~ In (Fault bomb_error) (source t) ->
        fst (fz_read_file grow_cap alloc_ok fz_open_file filename c) <> Throw bomb_error).
Proof.
  assert (Hsrc : forall s e buf s',
             read_best_try grow_cap alloc_ok (0 >? 0) 0 s = (Throw e, buf, s') ->
             In (Fault e) (source (stm s))).
  { intros s e buf s' E. apply read_best_try_throw in E.
    destruct E as [E|(_ & E & _)]; [exact E|discriminate E]. }
  assert (Hbest : forall s truncated,
             ~ In (Fault bomb_error) (source (stm s)) ->
             fst (fst (fz_read_best grow_cap alloc_ok 0 truncated s)) <> Throw bomb_error).
  { intros s truncated Hn. unfold fz_read_best.
    destruct (read_best_try grow_cap alloc_ok (0 >? 0) 0 s) as [[[u|e] buf] s1] eqn:E.
    - cbn. discriminate.
    - apply Hsrc in E.
      assert (e <> bomb_error) as Hne by (intros ->; contradiction).
      destruct (is_trylater e).
      + destruct (drop_opt buf s1). cbn. congruence.
      + destruct truncated; cbn; [discriminate|].
        destruct (drop_opt buf s1). cbn. congruence. }
  assert (Hall : forall s,
             ~ In (Fault bomb_error) (source (stm s)) ->
             fst (fz_read_all grow_cap alloc_ok 0 s) <> Throw bomb_error).
  { intros s Hn. unfold fz_read_all. specialize (Hbest s None Hn).
    destruct (fz_read_best grow_cap alloc_ok 0 None s) as [[r t] s1]. exact Hbest. }
  refine (conj Hsrc (conj _ _)).
  - intros s truncated Hn. refine (conj _ (conj (Hbest s truncated Hn) (Hall s Hn))).
    destruct (read_best_try grow_cap alloc_ok (0 >? 0) 0 s) as [[[u|e] buf] s1] eqn:E.
    + cbn. discriminate.
    + apply Hsrc in E. cbn. intros H. injection H as ->. contradiction.
  - intros filename c t Ho Hn. unfold fz_read_file. rewrite Ho.
    specialize (Hall (mk_state c t) Hn).
    destruct (fz_read_all grow_cap alloc_ok 0 (mk_state c t)) as [r s1]. exact Hall.
Qed.

Lemma zero_hint_disarms_bomb_check_witness :
  fst (fz_read_all grow_double alloc_ok 0
         (mk_state ctx0
            (mk_stream false 3 0 [x61; x62; x63] [Data x64 [x65]] None)))
  <> Throw bomb_error
  /\ fst (fz_read_file grow_double alloc_ok
            (fun _ => Ok (mem_stream [x61; x62; x63])) "a.pdf" ctx0)
     <> Throw bomb_error.
Proof.
  split.
  - apply (proj1 (proj2 (zero_hint_disarms_bomb_check grow_double
                           (fun _ => Ok (mem_stream []))))
             (mk_state ctx0
                (mk_stream false 3 0 [x61; x62; x63] [Data x64 [x65]] None))
             None).
    cbn. intuition discriminate.
  - apply (proj2 (proj2 (zero_hint_disarms_bomb_check grow_double
                           (fun _ => Ok (mem_stream [x61; x62; x63]))))
             "a.pdf"%string ctx0 (mem_stream [x61; x62; x63]) eq_refl).
    cbn. tauto.
Defined.

(** A source that ends without an error and no abort on the way: the try
    block returns a buffer with everything that was ahead. *)
Lemma read_best_try_whole (grow_cap : Z -> Z) check initial s total :
  grows_upto grow_cap total ->
  check = false \/ ~ bomb_cond total (clamp_hint initial) ->
  ahead_end (stm s) = None ->
  Z.of_nat (length (ahead (stm s))) <= total ->
  exists c' s',
    read_best_try grow_cap alloc_ok check initial s
    = (Ok tt,
       Some (mk_buffer (ahead (stm s)) (Z.of_nat (length (ahead (stm s)))) c'),
       s')
    /\ consumed (ahead (stm s)) s s'.
Proof.
  intros Hg Hb He Hl.
  destruct (read_best_loop_through grow_cap total check (clamp_hint initial)
              Hg Hb (S (stream_size (stm s)))
              (mk_buffer [] 0 (to_size (clamp_hint initial + 1))) s)
    as (c' & s' & E & C & _).
  - apply new_buffer_wf.
  - exact He.
  - cbn [len]. lia.
  - lia.
  - exists c', s'. rewrite read_best_try_eq, E. cbn [data len app].
    rewrite Z.add_0_l. split; [reflexivity|exact C].
Qed.

(** A source that ends without an error, the check armed, and a size that
    meets the condition: the try block throws the bomb error. *)
Lemma read_best_try_bomb (grow_cap : Z -> Z) initial s :
  grows_upto grow_cap (Z.of_nat (length (ahead (stm s)))) ->
  bomb_cond (Z.of_nat (length (ahead (stm s)))) (clamp_hint initial) ->
  ahead_end (stm s) = None ->
  exists b s',
    read_best_try grow_cap alloc_ok true initial s = (Throw bomb_error, Some b, s')
    /\ bomb_cond (len b) (clamp_hint initial)
    /\ len b <= Z.of_nat (length (ahead (stm s))).
Proof.
  intros Hg Hb He.
  destruct (read_best_loop_bomb grow_cap _ (clamp_hint initial)
              Hg Hb (S (stream_size (stm s)))
              (mk_buffer [] 0 (to_size (clamp_hint initial + 1))) s)
    as (b & s' & p & q & E & Hc & Hl & _).
  - apply new_buffer_wf.
  - exact He.
  - cbn [len]. lia.
  - lia.
  - exists b, s'. rewrite read_best_try_eq, E. auto.
Qed.

(** The same two facts for [fz_read_all] with a positive hint. *)
Lemma fz_read_all_bomb (grow_cap : Z -> Z) hint s :
  0 < hint ->
  ahead_end (stm s) = None ->
  grows_upto grow_cap (Z.of_nat (length (ahead (stm s)))) ->
  bomb_cond (Z.of_nat (length (ahead (stm s)))) hint ->
  exists b s',
    read_best_try grow_cap alloc_ok (hint >? 0) hint s = (Throw bomb_error, Some b, s')
    /\ bomb_cond (len b) hint
    /\ fz_read_best grow_cap alloc_ok hint None s = (Throw bomb_error, None, released b s')
    /\ fz_read_all grow_cap alloc_ok hint s = (Throw bomb_error, released b s').
Proof.
  intros Hh He Hg Hb.
  assert (Hgt : (hint >? 0) = true)
    by (destruct (Z.gtb_spec hint 0); [reflexivity|lia]).
  rewrite Hgt.
  destruct (read_best_try_bomb grow_cap hint s Hg) as (b & s' & E & Hb' & _);
    [now apply bomb_cond_clamp|exact He|].
  exists b, s'. apply (bomb_cond_clamp _ _ Hh) in Hb'.
  refine (conj E (conj Hb' _)).
  unfold fz_read_all, fz_read_best. rewrite Hgt, E. split; reflexivity.
Qed.

Lemma fz_read_all_whole (grow_cap : Z -> Z) hint s :
  0 < hint ->
  ahead_end (stm s) = None ->
  grows_upto grow_cap (Z.of_nat (length (ahead (stm s)))) ->
  Z.of_nat (length (ahead (stm s))) / 200 <= hint ->
  exists c' s',
    fz_read_all grow_cap alloc_ok hint s
    = (Ok (Some (mk_buffer (ahead (stm s))
                   (Z.of_nat (length (ahead (stm s)))) c')), s').
Proof.
  intros Hh He Hg Hs.
  assert (Hgt : (hint >? 0) = true)
    by (destruct (Z.gtb_spec hint 0); [reflexivity|lia]).
  destruct (read_best_try_whole grow_cap true hint s _ Hg) as (c' & s' & E & _);
    [right|exact He|lia|].
  { intros [_ Hr]. unfold clamp_hint in Hr.
    destruct (Z.ltb_spec hint 1024); lia. }
  exists c', s'. unfold fz_read_all, fz_read_best. rewrite Hgt, E. reflexivity.
Qed.

(** C1, amended.  For a positive hint, with an allocator that has the memory
    asked for: the try block throws the bomb error
    (the source throwing none of its own) only with an accumulated length of
    at least 100 MiB of which a two-hundredth exceeds the hint; a round of
    the loop that starts with such a length throws it before reading; a
    stream whose size meets the condition makes the try block throw it, and
    [fz_read_best] without a flag and [fz_read_all] throw it on; a stream
    of a size of which a two-hundredth is at most the hint is read whole. *)
Theorem bomb_abort_positive_hint (grow_cap : Z -> Z) (hint : Z) :
  0 < hint ->
  (forall s buf s',
      read_best_try grow_cap alloc_ok (hint >? 0) hint s = (Throw bomb_error, buf, s') ->
      ~ In (Fault bomb_error) (source (stm s)) ->
      exists b, buf = Some b /\ bomb_cond (len b) hint)
  /\ (forall fuel buf s,
        bomb_cond (len buf) hint ->
        exists c',
          read_best_loop grow_cap alloc_ok (S fuel) (hint >? 0) (clamp_hint hint) buf s
          = (Throw bomb_error, mk_buffer (data buf) (len buf) c', s))
  /\ (forall s,
        ahead_end (stm s) = None ->
        grows_upto grow_cap (Z.of_nat (length (ahead (stm s)))) ->
        bomb_cond (Z.of_nat (length (ahead (stm s)))) hint ->
        exists b s',
          read_best_try grow_cap alloc_ok (hint >? 0) hint s
          = (Throw bomb_error, Some b, s')
          /\ bomb_cond (len b) hint
          /\ fz_read_best grow_cap alloc_ok hint None s
             = (Throw bomb_error, None, released b s')
          /\ fz_read_all grow_cap alloc_ok hint s = (Throw bomb_error, released b s'))
  /\ (forall s,
        ahead_end (stm s) = None ->
        grows_upto grow_cap (Z.of_nat (length (ahead (stm s)))) ->
        Z.of_nat (length (ahead (stm s))) / 200 <= hint ->
        exists c' s',
          fz_read_all grow_cap alloc_ok hint s
          = (Ok (Some (mk_buffer (ahead (stm s))
                         (Z.of_nat (length (ahead (stm s)))) c')), s')).
Proof.
  intros Hh.
  assert (Hgt : (hint >? 0) = true) by (destruct (Z.gtb_spec hint 0); [reflexivity|lia]).
  rewrite Hgt. refine (conj _ (conj _ (conj _ _))).
  - intros s buf s' E Hn. apply read_best_try_throw in E.
    destruct E as [E|(_ & _ & b & -> & Hb)]; [contradiction|].
    exists b. split; [reflexivity|]. now apply (bomb_cond_clamp _ _ Hh).
  - intros fuel buf s Hb. rewrite read_best_loop_round. cbv zeta.
    set (buf1 := if len buf =? cap buf then _ else buf).
    assert (H1 : data buf1 = data buf /\ len buf1 = len buf)
      by (subst buf1; destruct (len buf =? cap buf); split; reflexivity).
    destruct H1 as [Hd Hl]. rewrite Hl.
    apply (bomb_cond_clamp _ _ Hh) in Hb. destruct Hb as [Hm Hr].
    destruct (Z.geb_spec (len buf) MIN_BOMB); [|lia].
    destruct (Z.gtb_spec (len buf / 200) (clamp_hint hint)); [|lia].
    cbn [andb]. exists (cap buf1).
    rewrite (buffer_eta buf1) at 1. now rewrite Hd, Hl.
  - intros s He Hg Hb.
    destruct (fz_read_all_bomb grow_cap hint s Hh He Hg Hb) as (b & s' & E).
    rewrite Hgt in E. eauto.
  - intros s He Hg Hs. now apply fz_read_all_whole.
Qed.

Lemma grow_double_grows total :
  2 * total + 1 <= size_max -> grows_upto grow_double total.
Proof. intros H c Hc. unfold grow_double. lia. Qed.

(** ** Slurping a block of memory of 100 MiB *)

Lemma ahead_mem_stream bs : ahead (mem_stream bs) = bs.
Proof. unfold ahead, mem_stream. cbn [window eof]. apply app_nil_r. Qed.

Lemma min_bomb_value : MIN_BOMB = 104857600.
Proof. reflexivity. Qed.

Lemma zeros_size n : 0 <= n -> Z.of_nat (length (zeros n)) = n.
Proof. intros H. unfold zeros. rewrite repeat_length. now apply Z2Nat.id. Qed.

(** [fz_read_all] with the hint 0 on a block of memory returns the block. *)
Lemma fz_read_all_mem_zero_hint bs :
  2 * Z.of_nat (length bs) + 1 <= size_max ->
  exists c' s',
    fz_read_all grow_double alloc_ok 0 (mk_state ctx0 (mem_stream bs))
    = (Ok (Some (mk_buffer bs (Z.of_nat (length bs)) c')), s').
Proof.
  intros Hs.
  destruct (read_best_try_whole grow_double (0 >? 0) 0
              (mk_state ctx0 (mem_stream bs)) (Z.of_nat (length bs)))
    as (c' & s' & E & _).
  - now apply grow_double_grows.
  - left. reflexivity.
  - reflexivity.
  - cbn [stm]. rewrite ahead_mem_stream. lia.
  - cbn [stm] in E. rewrite ahead_mem_stream in E.
    exists c', s'. unfold fz_read_all, fz_read_best. rewrite E. reflexivity.
Qed.

(** The numbers of the examples. *)
Lemma floor_facts :
  0 <= MIN_BOMB /\ 0 <= MIN_BOMB + 1
  /\ bomb_cond MIN_BOMB 0
  /\ bomb_cond (MIN_BOMB + 1) 1024
  /\ 0 < (MIN_BOMB + 1) / 200
  /\ 2 * MIN_BOMB + 1 <= size_max
  /\ grows_upto grow_double (MIN_BOMB + 1).
Proof.
  unfold bomb_cond. rewrite min_bomb_value.
  refine (conj _ (conj _ (conj _ (conj _ (conj _ (conj _ _)))))); try lia.
  - unfold size_max. pow_consts. lia.
  - apply grow_double_grows. unfold size_max. pow_consts. lia.
Qed.

(** C1, counterexample.  100 MiB of zeros slurped with the hint 0: the
    accumulated length reaches the floor and a two-hundredth of it exceeds the hint, yet nothing is
    thrown and the whole block is returned. *)
Lemma zero_hint_no_abort_above_floor :
  bomb_cond MIN_BOMB 0
  /\ exists c' s',
       fz_read_all grow_double alloc_ok 0
         (mk_state ctx0 (mem_stream (zeros MIN_BOMB)))
       = (Ok (Some (mk_buffer (zeros MIN_BOMB) MIN_BOMB c')), s').
Proof.
  destruct floor_facts as (H0 & _ & Hb & _ & _ & Hs & _).
  split; [exact Hb|].
  destruct (fz_read_all_mem_zero_hint (zeros MIN_BOMB)) as (c' & s' & E).
  - rewrite (zeros_size _ H0). exact Hs.
  - rewrite (zeros_size _ H0) in E. exists c', s'. exact E.
Qed.

(** One byte more than 100 MiB slurped with the hint 1024: the bomb error
    is thrown to the caller.  The same block slurped with a hint of a
    two-hundredth of its size: it is returned whole. *)
Lemma bomb_abort_positive_hint_witness :
  (exists b s',
      fz_read_all grow_double alloc_ok 1024
        (mk_state ctx0 (mem_stream (zeros (MIN_BOMB + 1))))
      = (Throw bomb_error, released b s')
      /\ bomb_cond (len b) 1024)
  /\ (exists c' s',
        fz_read_all grow_double alloc_ok ((MIN_BOMB + 1) / 200)
          (mk_state ctx0 (mem_stream (zeros (MIN_BOMB + 1))))
        = (Ok (Some (mk_buffer (zeros (MIN_BOMB + 1)) (MIN_BOMB + 1) c')), s')).
Proof.
  destruct floor_facts as (_ & H1 & _ & Hb & Hh & _ & Hg).
  assert (H1024 : 0 < 1024) by lia.
  split.
  - destruct (proj1 (proj2 (proj2 (bomb_abort_positive_hint grow_double 1024
                                     H1024)))
                (mk_state ctx0 (mem_stream (zeros (MIN_BOMB + 1)))))
      as (b & s' & _ & Hb' & _ & E).
    + reflexivity.
    + cbn [stm]. rewrite ahead_mem_stream, (zeros_size _ H1). exact Hg.
    + cbn [stm]. rewrite ahead_mem_stream, (zeros_size _ H1). exact Hb.
    + exists b, s'. split; assumption.
  - destruct (proj2 (proj2 (proj2 (bomb_abort_positive_hint grow_double
                                     ((MIN_BOMB + 1) / 200) Hh)))
                (mk_state ctx0 (mem_stream (zeros (MIN_BOMB + 1)))))
      as (c' & s' & E).
    + reflexivity.
    + cbn [stm]. rewrite ahead_mem_stream, (zeros_size _ H1). exact Hg.
    + cbn [stm]. rewrite ahead_mem_stream, (zeros_size _ H1). apply Z.le_refl.
    + cbn [stm] in E. rewrite ahead_mem_stream, (zeros_size _ H1) in E.
      exists c', s'. exact E.
Defined.

(** ** The bounds on the loops are enough *)

(** More rounds than [S (Z.to_nat len)] change nothing for [fz_read]. *)
Lemma fz_read_loop_fuel fuel : forall fuel' buf count len s,
  (Z.to_nat len < fuel)%nat -> (fuel <= fuel')%nat ->
  fz_read_loop fuel buf count len s = fz_read_loop fuel' buf count len s.
Proof.
  induction fuel as [|fuel IH]; intros fuel' buf count len s Hf Hle; [lia|].
  destruct fuel' as [|fuel']; [lia|].
  cbn [fz_read_loop]. unfold bind.
  destruct (fz_available len s) as [[n0|e] s1] eqn:Ea; [|reflexivity].
  destruct (fz_available_ok _ _ _ _ Ea) as (Hn0 & _).
  cbv zeta. set (m := if n0 >? len then len else n0).
  assert (Hm : m = len \/ 0 <= m)
    by (subst m; destruct (Z.gtb_spec n0 len); lia).
  destruct (Z.eqb_spec m 0); [reflexivity|].
  destruct (take_window m s1) as [[chunk|e] s2]; [|reflexivity].
  destruct (Z.gtb_spec (len - m) 0); [|reflexivity].
  apply IH; lia.
Qed.

(** More rounds than [Z.to_nat n] change nothing for [fz_read_line]. *)
Lemma read_line_loop_fuel fuel : forall fuel' out n c s,
  (Z.to_nat n <= fuel)%nat -> (fuel <= fuel')%nat ->
  read_line_loop fuel out n c s = read_line_loop fuel' out n c s.
Proof.
  induction fuel as [|fuel IH]; intros fuel' out n c s Hf Hle.
  - destruct fuel' as [|fuel']; [reflexivity|]. cbn [read_line_loop].
    destruct (Z.gtb_spec n 1); [lia|reflexivity].
  - destruct fuel' as [|fuel']; [lia|]. cbn [read_line_loop].
    destruct (Z.gtb_spec n 1); [|reflexivity].
    unfold bind.
    destruct (fz_read_byte s) as [[c0|e] s1]; [|reflexivity].
    destruct (c0 =? EOF); [reflexivity|].
    destruct (c0 =? 13); [reflexivity|].
    destruct (c0 =? 10); [reflexivity|].
    apply IH; lia.
Qed.

(** More rounds than the stream has bytes, and one, change nothing for
    [fz_read_best]. *)
Lemma read_best_loop_fuel (grow_cap : Z -> Z) fuel :
  forall fuel' check initial buf s,
    (stream_size (stm s) < fuel)%nat -> (fuel <= fuel')%nat ->
    read_best_loop grow_cap alloc_ok fuel check initial buf s
    = read_best_loop grow_cap alloc_ok fuel' check initial buf s.
Proof.
  induction fuel as [|fuel IH]; intros fuel' check initial buf s Hf Hle; [lia|].
  destruct fuel' as [|fuel']; [lia|].
  rewrite !read_best_loop_round. cbv zeta.
  set (buf1 := if len buf =? cap buf then _ else buf).
  destruct (check && (len buf1 >=? MIN_BOMB) && (len buf1 / 200 >? initial));
    [reflexivity|].
  pose proof (to_size_range (cap buf1 - len buf1)) as Hroom.
  revert Hroom. generalize (to_size (cap buf1 - len buf1)). intros room Hroom.
  destruct (fz_read room s) as [[[bytes n]|e] s2] eqn:Er; [|reflexivity].
  destruct (Z.eqb_spec n 0); [reflexivity|].
  unfold fz_read in Er. apply fz_read_loop_ok in Er; [|lia|lia].
  destruct Er as (bs & _ & Hn & C & _).
  destruct C as (_ & _ & _ & _ & _ & _ & Z1 & _).
  apply IH; [|lia].
  assert (length bs <> 0)%nat by lia. lia.
Qed.

(** * Further properties *)

(** ** fz_skip *)

Lemma firstn_plus {A} (n m : nat) (l : list A) :
  firstn (n + m) l = firstn n l ++ firstn m (skipn n l).
Proof.
  revert l. induction n as [|n IH]; intros l; [reflexivity|].
  destruct l as [|x l]; cbn [Nat.add firstn skipn app].
  - now rewrite firstn_nil.
  - now rewrite IH.
Qed.

(** More rounds than [S (Z.to_nat len)] change nothing for [fz_skip]. *)
Lemma fz_skip_loop_fuel fuel : forall fuel' total len s,
  0 <= len -> (Z.to_nat len < fuel)%nat -> (fuel <= fuel')%nat ->
  fz_skip_loop fuel total len s = fz_skip_loop fuel' total len s.
Proof.
  induction fuel as [|fuel IH]; intros fuel' total len s Hl Hf Hle; [lia|].
  destruct fuel' as [|fuel']; [lia|].
  cbn [fz_skip_loop]. destruct (Z.eqb_spec len 0); [reflexivity|].
  set (l := if len >? skip_buf_size then skip_buf_size else len).
  assert (Hl' : 0 < l <= len)
    by (subst l; unfold skip_buf_size; destruct (Z.gtb_spec len 4096); lia).
  unfold bind.
  destruct (fz_read l s) as [[[dest count]|e] s1] eqn:Er; [|reflexivity].
  cbn [snd]. destruct (Z.ltb_spec count l); [reflexivity|].
  unfold fz_read in Er. apply fz_read_loop_ok in Er; [|lia|lia].
  destruct Er as (bs & _ & -> & _ & Hb & _).
  apply IH; lia.
Qed.

Lemma fz_skip_loop_view fuel : forall total len s,
  0 <= len -> (Z.to_nat len < fuel)%nat ->
  ahead_end (stm s) = None \/ len <= Z.of_nat (length (ahead (stm s))) ->
  exists s',
    fz_skip_loop fuel total len s
    = (Ok (total + Z.min len (Z.of_nat (length (ahead (stm s))))), s')
    /\ consumed (firstn (Z.to_nat len) (ahead (stm s))) s s'.
Proof.
  induction fuel as [|fuel IH]; intros total len s Hl Hf Hv; [lia|].
  cbn [fz_skip_loop]. destruct (Z.eqb_spec len 0) as [->|Hne].
  - exists s. unfold ret. rewrite Z.min_l, Z.add_0_r by lia.
    split; [reflexivity|]. change (Z.to_nat 0) with 0%nat. apply consumed_refl.
  - set (l := if len >? skip_buf_size then skip_buf_size else len).
    assert (Hl' : 0 < l <= len)
      by (subst l; unfold skip_buf_size; destruct (Z.gtb_spec len 4096); lia).
    set (a := ahead (stm s)) in *.
    destruct (fz_read_room l s) as (s1 & E & C & Ha1); [lia| |].
    { destruct Hv as [Hv|Hv]; [now left|right]. fold a. split; [lia|].
      intros Hn. rewrite Hn in Hv. cbn in Hv. lia. }
    fold a in E, C, Ha1. unfold bind. rewrite E. cbn [snd].
    destruct (Z.ltb_spec (Z.min l (Z.of_nat (length a))) l) as [Hs|Hs].
    + exists s1. unfold ret.
      replace (Z.min len (Z.of_nat (length a)))
        with (Z.min l (Z.of_nat (length a))) by lia.
      split; [reflexivity|].
      rewrite firstn_all2 in C by lia. rewrite firstn_all2 by lia. exact C.
    + destruct (IH (total + Z.min l (Z.of_nat (length a))) (len - l) s1)
        as (s2 & E2 & C2).
      * lia.
      * lia.
      * destruct Hv as [Hv|Hv].
        -- left. now rewrite (consumed_end _ _ _ C).
        -- right. rewrite Ha1, length_skipn. lia.
      * replace (len - Z.min l (Z.of_nat (length a))) with (len - l) by lia.
        exists s2. rewrite E2. split.
        -- f_equal. f_equal. rewrite Ha1, length_skipn. lia.
        -- replace (Z.to_nat len) with (Z.to_nat l + Z.to_nat (len - l))%nat
             by lia.
           rewrite firstn_plus. rewrite <- Ha1.
           apply (consumed_trans _ _ _ _ _ C C2).
Qed.

(** X1.  [fz_skip] on a stream that holds the [len] bytes, or whose source
    ends without an error: the count returned is [len], or the number of
    bytes that were left when there are fewer; exactly that many bytes are
    consumed, so the read offset moves by the count; and the next read
    starts right after them. *)
Theorem fz_skip_count (len : Z) (s : state) :
  0 <= len ->
  ahead_end (stm s) = None \/ len <= Z.of_nat (length (ahead (stm s))) ->
  exists s',
    fz_skip len s = (Ok (Z.min len (Z.of_nat (length (ahead (stm s))))), s')
    /\ consumed (firstn (Z.to_nat len) (ahead (stm s))) s s'
    /\ offset (stm s')
       = offset (stm s) + Z.min len (Z.of_nat (length (ahead (stm s))))
    /\ ahead (stm s') = skipn (Z.to_nat len) (ahead (stm s)).
Proof.
  intros Hl Hv. unfold fz_skip.
  destruct (fz_skip_loop_view (S (Z.to_nat len)) 0 len s Hl) as (s' & E & C);
    [lia|exact Hv|].
  exists s'. rewrite Z.add_0_l in E. refine (conj E (conj C (conj _ _))).
  - destruct C as (_ & _ & O & _). rewrite O, length_firstn. lia.
  - apply (consumed_ahead _ _ _ _ C). symmetry. apply firstn_skipn.
Qed.

Lemma fz_skip_count_witness :
  (exists s',
      fz_skip 5000
        (mk_state ctx0
           (mk_stream false 3000 0 (repeat x61 3000)
              [Data x62 (repeat x62 2999)] None))
      = (Ok 5000, s')
      /\ offset (stm s') = 5000)
  /\ (exists s',
        fz_skip 10 (mk_state ctx0 (mem_stream [x61; x62; x63])) = (Ok 3, s')
        /\ ahead (stm s') = []).
Proof.
  split.
  - destruct (fz_skip_count 5000
                (mk_state ctx0
                   (mk_stream false 3000 0 (repeat x61 3000)
                      [Data x62 (repeat x62 2999)] None)))
      as (s' & E & _ & O & _); [lia|left; reflexivity|].
    exists s'. split; [exact E|exact O].
  - destruct (fz_skip_count 10 (mk_state ctx0 (mem_stream [x61; x62; x63])))
      as (s' & E & _ & _ & A); [lia|left; reflexivity|].
    exists s'. split; [exact E|exact A].
Defined.

Lemma fz_skip_loop_fault fuel : forall total len s e,
  ahead_end (stm s) = Some e ->
  Z.of_nat (length (ahead (stm s))) < len ->
  (Z.to_nat len < fuel)%nat ->
  exists s', fz_skip_loop fuel total len s = (Throw e, s') /\ ctx s' = ctx s.
Proof.
  induction fuel as [|fuel IH]; intros total len s e He Hs Hf; [lia|].
  cbn [fz_skip_loop]. destruct (Z.eqb_spec len 0) as [->|Hne]; [lia|].
  set (l := if len >? skip_buf_size then skip_buf_size else len).
  assert (Hl' : 0 < l <= len)
    by (subst l; unfold skip_buf_size; destruct (Z.gtb_spec len 4096); lia).
  set (a := ahead (stm s)) in *. unfold bind.
  destruct (Z_lt_le_dec (Z.of_nat (length a)) l) as [Hlt|Hge].
  - destruct (fz_read_fault l s e He) as (s1 & E & Hc); [lia|left; exact Hlt|].
    rewrite E. eauto.
  - destruct (fz_read_room l s) as (s1 & E & C & Ha1); [lia|right|].
    { fold a. split; [lia|]. intros Hn. rewrite Hn in Hge. cbn in Hge. lia. }
    fold a in E, C, Ha1. rewrite E. cbn [snd].
    destruct (Z.ltb_spec (Z.min l (Z.of_nat (length a))) l); [lia|].
    replace (len - Z.min l (Z.of_nat (length a))) with (len - l) by lia.
    destruct (IH (total + Z.min l (Z.of_nat (length a))) (len - l) s1 e)
      as (s2 & E2 & Hc2).
    + now rewrite (consumed_end _ _ _ C).
    + rewrite Ha1, length_skipn. lia.
    + lia.
    + exists s2. split; [exact E2|].
      destruct C as (_ & _ & _ & Cc & _). congruence.
Qed.

(** X2.  [fz_skip] asked for more bytes than the stream holds before its
    source throws: the error of the source is thrown on, and no count is
    returned for the bytes that were skipped before it. *)
Theorem fz_skip_source_error (len : Z) (s : state) (e : fz_error) :
  ahead_end (stm s) = Some e ->
  Z.of_nat (length (ahead (stm s))) < len ->
  exists s', fz_skip len s = (Throw e, s') /\ ctx s' = ctx s.
Proof.
  intros He Hs. unfold fz_skip. apply fz_skip_loop_fault; [exact He|exact Hs|lia].
Qed.

Lemma fz_skip_source_error_witness :
  exists s',
    fz_skip 10
      (mk_state ctx0
         (mk_stream false 3 0 [x61; x62; x63]
            [Fault (mk_error FZ_ERROR_TRYLATER "later"); Data x64 []] None))
    = (Throw (mk_error FZ_ERROR_TRYLATER "later"), s').
Proof.
  destruct (fz_skip_source_error 10
              (mk_state ctx0
                 (mk_stream false 3 0 [x61; x62; x63]
                    [Fault (mk_error FZ_ERROR_TRYLATER "later"); Data x64 []]
                    None))
              (mk_error FZ_ERROR_TRYLATER "later") eq_refl)
    as (s' & E & _); [cbn; lia|].
  exists s'. exact E.
Defined.

(** X3.  Requests for no bytes.  [fz_skip] of 0 returns 0 and leaves the
    stream and the context as they are, whatever the source would answer.
    [fz_read] of 0 goes through its loop once: with the window empty it asks
    the source, so it throws when the source throws, and sets the end flag
    when the source is at its end; it returns 0 and consumes nothing
    otherwise. *)
Theorem zero_length_requests (s : state) :
  fz_skip 0 s = (Ok 0, s)
  /\ (forall e,
        ahead (stm s) = [] -> ahead_end (stm s) = Some e ->
        exists s', fz_read 0 s = (Throw e, s'))
  /\ (ahead (stm s) = [] -> ahead_end (stm s) = None ->
      exists s',
        fz_read 0 s = (Ok ([], 0), s') /\ eof (stm s') = true
        /\ consumed [] s s')
  /\ (ahead (stm s) <> [] ->
      exists s', fz_read 0 s = (Ok ([], 0), s') /\ consumed [] s s').
Proof.
  refine (conj eq_refl (conj _ (conj _ _))).
  - intros e Ha He.
    destruct (fz_read_fault 0 s e He) as (s' & E & _); [lia|now right|]. eauto.
  - intros Ha He.
    destruct (fz_available_end 0 s Ha He) as (s' & E & _ & F & C).
    exists s'. unfold fz_read. cbn [fz_read_loop]. unfold bind. rewrite E.
    cbn. auto.
  - intros Ha.
    destruct (fz_available_some 0 s Ha) as (s' & E & W & C).
    exists s'. unfold fz_read. cbn [fz_read_loop]. unfold bind. rewrite E.
    destruct (Z.gtb_spec (Z.of_nat (length (window (stm s')))) 0) as [H|H].
    + cbn. auto.
    + destruct (window (stm s')); [contradiction|]. cbn [length] in H.
      rewrite Nat2Z.inj_succ in H. lia.
Qed.

Lemma zero_length_requests_witness :
  fz_skip 0
    (mk_state ctx0
       (mk_stream false 0 0 [] [Fault (mk_error FZ_ERROR_GENERIC "io")] None))
  = (Ok 0,
     mk_state ctx0
       (mk_stream false 0 0 [] [Fault (mk_error FZ_ERROR_GENERIC "io")] None))
  /\ exists s',
       fz_read 0
         (mk_state ctx0
            (mk_stream false 0 0 [] [Fault (mk_error FZ_ERROR_GENERIC "io")] None))
       = (Throw (mk_error FZ_ERROR_GENERIC "io"), s').
Proof.
  split.
  - apply (proj1 (zero_length_requests _)).
  - apply (proj1 (proj2 (zero_length_requests
             (mk_state ctx0
                (mk_stream false 0 0 []
                   [Fault (mk_error FZ_ERROR_GENERIC "io")] None))))
             (mk_error FZ_ERROR_GENERIC "io") eq_refl eq_refl).
Defined.

(** ** fz_read, two reads in a row *)

(** X4.  Two reads in a row give what one read of the two lengths together
    gives: the bytes of the second follow those of the first, the counts add
    up, and the stream is left at the same place.  This holds when the
    source ends without an error, and also when the bytes asked for are
    ahead, as long as the second read asks for a byte or a further byte is
    ahead.  It fails without that: a second read for no bytes right where
    the source throws still asks the source, and throws, while the one read
    of the same total returns. *)
Theorem fz_read_twice (n1 n2 : Z) (s : state) :
  0 <= n1 -> 0 <= n2 ->
  (ahead_end (stm s) = None
   \/ (n1 + n2 <= Z.of_nat (length (ahead (stm s)))
       /\ (0 < n2 \/ n1 + n2 < Z.of_nat (length (ahead (stm s))))) ->
   exists d1 c1 s1 d2 c2 s2 s12,
     fz_read n1 s = (Ok (d1, c1), s1)
     /\ fz_read n2 s1 = (Ok (d2, c2), s2)
     /\ fz_read (n1 + n2) s = (Ok (d1 ++ d2, c1 + c2), s12)
     /\ ahead (stm s2) = ahead (stm s12)
     /\ offset (stm s2) = offset (stm s12))
  /\ (forall e,
        ahead_end (stm s) = Some e ->
        0 < n1 -> n2 = 0 -> Z.of_nat (length (ahead (stm s))) = n1 ->
        exists s1 s2 s12,
          fz_read n1 s = (Ok (ahead (stm s), n1), s1)
          /\ fz_read n2 s1 = (Throw e, s2)
          /\ fz_read (n1 + n2) s = (Ok (ahead (stm s), n1), s12)).
Proof.
  intros H1 H2. set (a := ahead (stm s)) in *. split.
  - intros Hv.
    assert (Hv1 : ahead_end (stm s) = None
                  \/ (n1 <= Z.of_nat (length a) /\ a <> [])).
    { destruct Hv as [Hv|[Hv Hp]]; [now left|right]. split; [lia|].
      intros Hn. apply (f_equal (@length byte)) in Hn. cbn in Hn. lia. }
    destruct (fz_read_view n1 s H1 Hv1) as (s1 & E1 & C1 & _).
    fold a in E1, C1.
    assert (Ha1 : ahead (stm s1) = skipn (Z.to_nat n1) a).
    { apply (consumed_ahead _ _ _ _ C1). symmetry. apply firstn_skipn. }
    assert (Hv2 : ahead_end (stm s1) = None
                  \/ (n2 <= Z.of_nat (length (ahead (stm s1)))
                      /\ ahead (stm s1) <> [])).
    { rewrite (consumed_end _ _ _ C1).
      destruct Hv as [Hv|[Hv Hp]]; [now left|right].
      rewrite Ha1. split; [rewrite length_skipn; lia|].
      intros Hn. apply (f_equal (@length byte)) in Hn.
      rewrite length_skipn in Hn. cbn in Hn. lia. }
    destruct (fz_read_view n2 s1 H2 Hv2) as (s2 & E2 & C2 & _).
    assert (Hv12 : ahead_end (stm s) = None
                   \/ (n1 + n2 <= Z.of_nat (length a) /\ a <> [])).
    { destruct Hv as [Hv|[Hv Hp]]; [now left|right]. split; [exact Hv|].
      intros Hn. apply (f_equal (@length byte)) in Hn. cbn in Hn. lia. }
    destruct (fz_read_view (n1 + n2) s) as (s12 & E12 & C12 & _);
      [lia|exact Hv12|]. fold a in E12, C12.
    assert (Hsplit : firstn (Z.to_nat (n1 + n2)) a
                     = firstn (Z.to_nat n1) a
                       ++ firstn (Z.to_nat n2) (ahead (stm s1))).
    { rewrite Ha1, <- firstn_plus. f_equal. lia. }
    exists (firstn (Z.to_nat n1) a), (Z.min n1 (Z.of_nat (length a))), s1,
      (firstn (Z.to_nat n2) (ahead (stm s1))),
      (Z.min n2 (Z.of_nat (length (ahead (stm s1))))), s2, s12.
    refine (conj E1 (conj E2 (conj _ (conj _ _)))).
    + rewrite E12, Hsplit. do 3 f_equal. rewrite Ha1, length_skipn. lia.
    + pose proof (consumed_trans _ _ _ _ _ C1 C2) as C.
      rewrite <- Hsplit in C.
      destruct C as (A & _). destruct C12 as (A12 & _). subst a.
      apply (app_inv_head (firstn (Z.to_nat (n1 + n2)) (ahead (stm s)))).
      rewrite <- A. exact A12.
    + pose proof (consumed_trans _ _ _ _ _ C1 C2) as C.
      rewrite <- Hsplit in C.
      destruct C as (_ & _ & O & _). destruct C12 as (_ & _ & O12 & _). lia.
  - intros e He Hpos -> Hlen. rewrite Z.add_0_r.
    assert (Hne : a <> []).
    { intros Hn. apply (f_equal (@length byte)) in Hn. cbn in Hn. lia. }
    destruct (fz_read_view n1 s H1) as (s1 & E1 & C1 & _).
    { right. split; [fold a; lia|exact Hne]. }
    fold a in E1, C1.
    assert (Hall : firstn (Z.to_nat n1) a = a).
    { apply firstn_all2. lia. }
    rewrite Hall in E1, C1.
    replace (Z.min n1 (Z.of_nat (length a))) with n1 in E1 by lia.
    assert (Ha1 : ahead (stm s1) = []).
    { apply (consumed_ahead _ _ _ _ C1). now rewrite app_nil_r. }
    destruct (fz_read_fault 0 s1 e) as (s2 & E2 & _).
    { rewrite (consumed_end _ _ _ C1). exact He. }
    { lia. }
    { now right. }
    exists s1, s2, s1. auto.
Qed.

Lemma fz_read_twice_witness :
  (exists s1 s2 s12,
      fz_read 2
        (mk_state ctx0 (mk_stream false 1 0 [x61] [Data x62 [x63; x64]] None))
      = (Ok ([x61; x62], 2), s1)
      /\ fz_read 5 s1 = (Ok ([x63; x64], 2), s2)
      /\ fz_read 7
           (mk_state ctx0 (mk_stream false 1 0 [x61] [Data x62 [x63; x64]] None))
         = (Ok ([x61; x62; x63; x64], 4), s12))
  /\ (exists s1 s2 s12,
        let e := mk_error FZ_ERROR_GENERIC "io" in
        let s := mk_state ctx0
                   (mk_stream false 3 0 [x61; x62; x63] [Fault e] None) in
        fz_read 3 s = (Ok ([x61; x62; x63], 3), s1)
        /\ fz_read 0 s1 = (Throw e, s2)
        /\ fz_read (3 + 0) s = (Ok ([x61; x62; x63], 3), s12)).
Proof.
  split.
  - destruct (proj1 (fz_read_twice 2 5
                (mk_state ctx0
                   (mk_stream false 1 0 [x61] [Data x62 [x63; x64]] None))
                ltac:(lia) ltac:(lia)))
      as (d1 & c1 & s1 & d2 & c2 & s2 & s12 & E1 & E2 & E12 & _);
      [left; reflexivity|].
    exists s1, s2, s12.
    assert (Hd1 : (d1, c1) = ([x61; x62], 2)).
    { assert (H := E1). vm_compute in H. injection H as <- <- _. reflexivity. }
    injection Hd1 as -> ->.
    assert (Hs1 : s1 = mk_state ctx0 (mk_stream false 4 0 [x63; x64] [] None)).
    { assert (H := E1). vm_compute in H. injection H as <-. reflexivity. }
    assert (Hd2 : (d2, c2) = ([x63; x64], 2)).
    { assert (H := E2). rewrite Hs1 in H. vm_compute in H.
      injection H as <- <- _. reflexivity. }
    injection Hd2 as -> ->.
    refine (conj E1 (conj E2 E12)).
  - destruct (proj2 (fz_read_twice 3 0
                (mk_state ctx0
                   (mk_stream false 3 0 [x61; x62; x63]
                      [Fault (mk_error FZ_ERROR_GENERIC "io")] None))
                ltac:(lia) ltac:(lia))
                (mk_error FZ_ERROR_GENERIC "io") eq_refl)
      as (s1 & s2 & s12 & E1 & E2 & E12); [lia|reflexivity|reflexivity|].
    exists s1, s2, s12. cbv zeta. refine (conj E1 (conj E2 E12)).
Defined.

(** ** fz_read_line, lines that are cut short *)

(** The loop over a run of plain bytes for which there is room. *)
Lemma read_line_loop_fill line : forall fuel out n c s rest,
  Forall plain line ->
  ahead (stm s) = line ++ rest ->
  Z.of_nat (length line) < n ->
  exists s1 c1,
    consumed line s s1
    /\ read_line_loop (length line + fuel) out n c s
       = read_line_loop fuel (out ++ map byte_val line)
           (n - Z.of_nat (length line)) c1 s1.
Proof.
  induction line as [|b line IH]; intros fuel out n c s rest Hp Ha Hn.
  - exists s, c. split; [apply consumed_refl|].
    cbn [length map Nat.add]. change (Z.of_nat 0) with 0.
    now rewrite app_nil_r, Z.sub_0_r.
  - inversion Hp as [|? ? Hb Hp']; subst.
    destruct (plain_val b Hb) as [Hcr Hlf].
    pose proof (byte_val_not_eof b) as Heof.
    cbn [length] in Hn. rewrite Nat2Z.inj_succ in Hn.
    destruct (fz_read_byte_some s b (line ++ rest) Ha) as (s1 & E1 & C1).
    destruct (IH fuel (out ++ [byte_val b]) (n - 1) (byte_val b) s1 rest Hp')
      as (s2 & c2 & C2 & E2).
    { now apply (consumed_ahead [b] _ _ _ C1). }
    { lia. }
    exists s2, c2. split; [apply (consumed_trans [b] line _ _ _ C1 C2)|].
    cbn [length Nat.add read_line_loop].
    destruct (Z.gtb_spec n 1); [|lia].
    unfold bind at 1. rewrite E1.
    destruct (Z.eqb_spec (byte_val b) EOF); [contradiction|].
    destruct (Z.eqb_spec (byte_val b) 13); [contradiction|].
    destruct (Z.eqb_spec (byte_val b) 10); [contradiction|].
    rewrite E2, <- app_assoc. cbn [map app]. rewrite Nat2Z.inj_succ.
    replace (n - Z.succ (Z.of_nat (length line)))
      with (n - 1 - Z.of_nat (length line)) by lia.
    reflexivity.
Qed.

(** X5.  A line longer than the capacity allows: [fz_read_line] stores the
    first [n - 1] bytes and the terminating null byte, returns [mem], and
    consumes those bytes only; what follows them, the rest of the line and
    its terminator included, stays in the stream for the next read. *)
Theorem fz_read_line_full (s : state) (pre rest : list byte) (n : Z) :
  2 <= n ->
  Forall plain pre ->
  Z.of_nat (length pre) = n - 1 ->
  ahead (stm s) = pre ++ rest ->
  exists s',
    fz_read_line n s = (Ok (mk_line (map byte_val pre) true true), s')
    /\ consumed pre s s' /\ ahead (stm s') = rest.
Proof.
  intros Hn Hp Hl Ha.
  destruct (read_line_loop_fill pre 1 [] n EOF s rest Hp Ha)
    as (s1 & c1 & C1 & E1); [lia|].
  exists s1. refine (conj _ (conj C1 (consumed_ahead _ _ _ _ C1 Ha))).
  unfold fz_read_line, bind.
  replace (Z.to_nat n) with (length pre + 1)%nat by lia.
  rewrite E1. cbn [read_line_loop app].
  destruct (Z.gtb_spec (n - Z.of_nat (length pre)) 1); [lia|].
  unfold ret.
  destruct (Z.eqb_spec (n - Z.of_nat (length pre)) 0); [lia|].
  destruct pre as [|b pre]; [cbn in Hl; lia|]. reflexivity.
Qed.

Lemma fz_read_line_full_witness :
  exists s',
    fz_read_line 3
      (mk_state ctx0 (mem_stream [x61; x62; x63; x64; x0a; x65]))
    = (Ok (mk_line [97; 98] true true), s')
    /\ ahead (stm s') = [x63; x64; x0a; x65].
Proof.
  destruct (fz_read_line_full
              (mk_state ctx0 (mem_stream [x61; x62; x63; x64; x0a; x65]))
              [x61; x62] [x63; x64; x0a; x65] 3)
    as (s' & E & _ & A).
  - lia.
  - repeat constructor; discriminate.
  - reflexivity.
  - reflexivity.
  - exists s'. split; [exact E|exact A].
Defined.

(** X6.  A last line that ends with the stream and not with a terminator:
    [fz_read_line] stores it with the terminating null byte, returns [mem]
    (the line is not empty), and leaves the stream at its end. *)
Theorem fz_read_line_last (s : state) (line : list byte) (n : Z) :
  line <> [] ->
  Forall plain line ->
  Z.of_nat (length line) + 2 <= n ->
  ahead (stm s) = line ->
  ahead_end (stm s) = None ->
  exists s',
    fz_read_line n s = (Ok (mk_line (map byte_val line) true true), s')
    /\ consumed line s s' /\ ahead (stm s') = [].
Proof.
  intros Hne Hp Hn Ha He.
  assert (Ha' : ahead (stm s) = line ++ []) by (now rewrite app_nil_r).
  destruct (fz_read_line_run n s line [] Hp Ha' Hn) as (s1 & f & c1 & C1 & E).
  pose proof (consumed_ahead _ _ _ _ C1 Ha') as Ha1.
  pose proof (consumed_end _ _ _ C1) as He1. rewrite He in He1.
  destruct (read_line_loop_end f (map byte_val line)
              (n - Z.of_nat (length line)) c1 s1) as (s2 & E2 & C2);
    [lia|exact Ha1|exact He1|].
  rewrite E2 in E. exists s2.
  pose proof (consumed_trans _ _ _ _ _ C1 C2) as C. rewrite app_nil_r in C.
  refine (conj _ (conj C _)).
  - rewrite E.
    destruct (Z.eqb_spec (n - Z.of_nat (length line)) 0); [lia|].
    destruct line; [contradiction|]. reflexivity.
  - apply (consumed_ahead _ _ _ _ C). now rewrite app_nil_r.
Qed.

Lemma fz_read_line_last_witness :
  exists s',
    fz_read_line 16 (mk_state ctx0 (mem_stream [x61; x62; x63]))
    = (Ok (mk_line [97; 98; 99] true true), s')
    /\ ahead (stm s') = [].
Proof.
  destruct (fz_read_line_last (mk_state ctx0 (mem_stream [x61; x62; x63]))
              [x61; x62; x63] 16)
    as (s' & E & _ & A).
  - discriminate.
  - repeat constructor; discriminate.
  - cbn. lia.
  - reflexivity.
  - reflexivity.
  - exists s'. split; [exact E|exact A].
Defined.

(** ** fz_seek, the walk forward *)

Lemma seek_forward_within k : forall s,
  (k <= length (ahead (stm s)))%nat ->
  exists s',
    seek_forward k s = (Ok tt, s')
    /\ consumed (firstn k (ahead (stm s))) s s'.
Proof.
  induction k as [|k IH]; intros s Hk.
  - exists s. split; [reflexivity|apply consumed_refl].
  - destruct (ahead (stm s)) as [|b rest] eqn:Ha; [cbn in Hk; lia|].
    destruct (fz_read_byte_some s b rest Ha) as (s1 & E1 & C1).
    pose proof (consumed_ahead [b] rest _ _ C1 Ha) as Ha1.
    destruct (IH s1) as (s2 & E2 & C2); [rewrite Ha1; cbn in Hk; lia|].
    exists s2. cbn [seek_forward firstn]. unfold bind. rewrite E1.
    destruct (Z.eqb_spec (byte_val b) EOF) as [He|_];
      [now apply byte_val_not_eof in He|].
    split; [exact E2|]. rewrite Ha1 in C2.
    apply (consumed_trans [b] _ _ _ _ C1 C2).
Qed.

Lemma seek_forward_short k : forall s,
  (length (ahead (stm s)) < k)%nat ->
  ahead_end (stm s) = None ->
  exists s1,
    seek_forward k s
    = (Ok tt,
       mk_state
         (mk_context ("seek failed"%string :: warnings (ctx s))
            (dropped (ctx s)))
         (stm s1))
    /\ consumed (ahead (stm s)) s s1 /\ eof (stm s1) = true.
Proof.
  induction k as [|k IH]; intros s Hk He; [lia|].
  cbn [seek_forward]. unfold bind.
  destruct (ahead (stm s)) as [|b rest] eqn:Ha.
  - destruct (fz_read_byte_end s Ha He) as (s1 & E1 & _ & F & C1).
    rewrite E1. change (EOF =? EOF) with true. cbv beta iota.
    exists s1. unfold fz_warn.
    destruct C1 as (A & B & O & Cc & R). rewrite Cc.
    refine (conj eq_refl (conj _ F)).
    unfold consumed. rewrite Cc. auto 10.
  - destruct (fz_read_byte_some s b rest Ha) as (s1 & E1 & C1).
    pose proof (consumed_ahead [b] rest _ _ C1 Ha) as Ha1.
    destruct (IH s1) as (s2 & E2 & C2 & F); [rewrite Ha1; cbn in Hk; lia| |].
    { now rewrite (consumed_end _ _ _ C1). }
    rewrite E1.
    destruct (Z.eqb_spec (byte_val b) EOF) as [Hb|_];
      [now apply byte_val_not_eof in Hb|].
    exists s2. rewrite E2.
    assert (Hc : ctx s1 = ctx s) by (destruct C1 as (_ & _ & _ & Cc & _); exact Cc).
    rewrite Hc. refine (conj eq_refl (conj _ F)).
    rewrite Ha1 in C2. apply (consumed_trans [b] rest _ _ _ C1 C2).
Qed.

(** The emulation of a forward seek by single-byte reads, and the request
    relative to the end. *)
Lemma fz_seek_emulated (s : state) (off whence d : Z) :
  seek (stm s) = None ->
  (whence = 0 /\ d = off - fz_tell (stm s) /\ d <= max_int64)
  \/ (whence = 1 /\ d = off) ->
  0 <= d ->
  (d <= Z.of_nat (length (ahead (stm s))) ->
   exists s',
     fz_seek off whence s = (Ok tt, s')
     /\ consumed (firstn (Z.to_nat d) (ahead (stm s)))
          (mk_state (ctx s) (set_avail 0 (stm s))) s'
     /\ offset (stm s') = offset (stm s) + d
     /\ avail (stm s') = 0)
  /\ (Z.of_nat (length (ahead (stm s))) < d ->
      ahead_end (stm s) = None ->
      exists s1,
        fz_seek off whence s
        = (Ok tt,
           mk_state
             (mk_context ("seek failed"%string :: warnings (ctx s))
                (dropped (ctx s)))
             (stm s1))
        /\ consumed (ahead (stm s)) (mk_state (ctx s) (set_avail 0 (stm s))) s1
        /\ eof (stm s1) = true)
  /\ fz_seek off 2 s
     = (Ok tt,
        mk_state
          (mk_context ("cannot seek"%string :: warnings (ctx s))
             (dropped (ctx s)))
          (set_avail 0 (stm s))).
Proof.
  intros Hk Hw Hd.
  set (s0 := mk_state (ctx s) (set_avail 0 (stm s))).
  assert (Ha0 : ahead (stm s0) = ahead (stm s)) by reflexivity.
  assert (He0 : ahead_end (stm s0) = ahead_end (stm s)) by reflexivity.
  assert (Hnow : (d <? 0) = false)
    by (destruct (Z.ltb_spec d 0); [lia|reflexivity]).
  assert (Hseek : fz_seek off whence s = seek_forward (Z.to_nat d) s0).
  { unfold fz_seek, bind, get_stm, put_stm. cbn [stm ctx].
    replace (seek (set_avail 0 (stm s)))
      with (@None (list pull -> Z -> Z -> seek_result))
      by (symmetry; exact Hk).
    change (fz_tell (set_avail 0 (stm s))) with (fz_tell (stm s)).
    destruct Hw as [(-> & Hd' & Hm)|(-> & Hd')]; cbn [Z.eqb negb].
    - rewrite to_i64_small by (unfold min_int64, max_int64 in *; lia).
      rewrite <- Hd', Hnow. reflexivity.
    - rewrite <- Hd', Hnow. reflexivity. }
  refine (conj _ (conj _ _)).
  - intros Hle.
    destruct (seek_forward_within (Z.to_nat d) s0) as (s' & E & C);
      [rewrite Ha0; lia|].
    rewrite Ha0 in C. exists s'. rewrite Hseek.
    refine (conj E (conj C _)).
    destruct C as (_ & _ & O & _ & V & _). split.
    + rewrite O, length_firstn.
      change (offset (stm s0)) with (offset (stm s)). lia.
    + rewrite V. reflexivity.
  - intros Hlt He.
    destruct (seek_forward_short (Z.to_nat d) s0) as (s1 & E & C & F);
      [rewrite Ha0; lia|now rewrite He0|].
    rewrite Ha0 in C. exists s1. rewrite Hseek. auto.
  - unfold fz_seek, bind, get_stm, put_stm. cbn [stm ctx].
    replace (seek (set_avail 0 (stm s)))
      with (@None (list pull -> Z -> Z -> seek_result))
      by (symmetry; exact Hk).
    reflexivity.
Qed.

(** X7.  [fz_seek] on a stream without native seek.  A forward request by
    [d] bytes (absolute: [d] is the target less the position told; relative:
    [d] is the offset) with [d] bytes in the stream consumes exactly those,
    warns of nothing, and leaves the bit accumulator at 0.  With fewer bytes
    and the source at its end, all of them are consumed, the end flag is set
    and the one warning "seek failed" is recorded.  A request relative to
    the end, whatever its offset, records "cannot seek" and moves nothing. *)
Theorem fz_seek_forward (s : state) (off : Z) :
  seek (stm s) = None ->
  (forall whence d,
      (whence = 0 /\ d = off - fz_tell (stm s) /\ d <= max_int64)
      \/ (whence = 1 /\ d = off) ->
      0 <= d ->
      (d <= Z.of_nat (length (ahead (stm s))) ->
       exists s',
         fz_seek off whence s = (Ok tt, s')
         /\ consumed (firstn (Z.to_nat d) (ahead (stm s)))
              (mk_state (ctx s) (set_avail 0 (stm s))) s'
         /\ offset (stm s') = offset (stm s) + d
         /\ avail (stm s') = 0)
      /\ (Z.of_nat (length (ahead (stm s))) < d ->
          ahead_end (stm s) = None ->
          exists s1,
            fz_seek off whence s
            = (Ok tt,
               mk_state
                 (mk_context ("seek failed"%string :: warnings (ctx s))
                    (dropped (ctx s)))
                 (stm s1))
            /\ consumed (ahead (stm s))
                 (mk_state (ctx s) (set_avail 0 (stm s))) s1
            /\ eof (stm s1) = true))
  /\ fz_seek off 2 s
     = (Ok tt,
        mk_state
          (mk_context ("cannot seek"%string :: warnings (ctx s))
             (dropped (ctx s)))
          (set_avail 0 (stm s))).
Proof.
  intros Hk. split.
  - intros whence d Hw Hd.
    destruct (fz_seek_emulated s off whence d Hk Hw Hd) as (H1 & H2 & _).
    split; [exact H1|exact H2].
  - unfold fz_seek, bind, get_stm, put_stm. cbn [stm ctx].
    replace (seek (set_avail 0 (stm s)))
      with (@None (list pull -> Z -> Z -> seek_result))
      by (symmetry; exact Hk).
    reflexivity.
Qed.

Lemma fz_seek_forward_witness :
  (exists s',
      fz_seek 6 0
        (mk_state ctx0 (mk_stream false 5 3 [x63; x64] [Data x65 [x66; x67]] None))
      = (Ok tt, s')
      /\ offset (stm s') = 6 /\ ahead (stm s') = [x66; x67])
  /\ (exists s1,
        fz_seek 9 1
          (mk_state ctx0
             (mk_stream false 5 3 [x63; x64] [Data x65 [x66; x67]] None))
        = (Ok tt, mk_state (mk_context ["seek failed"%string] []) (stm s1))
        /\ eof (stm s1) = true)
  /\ fz_seek (-10) 2
       (mk_state ctx0 (mk_stream false 5 3 [x63; x64] [Data x65 [x66; x67]] None))
     = (Ok tt,
        mk_state (mk_context ["cannot seek"%string] [])
          (mk_stream false 5 0 [x63; x64] [Data x65 [x66; x67]] None)).
Proof.
  refine (conj _ (conj _ _)).
  - destruct (proj1 (proj1 (fz_seek_forward
                (mk_state ctx0
                   (mk_stream false 5 3 [x63; x64] [Data x65 [x66; x67]] None))
                6 eq_refl) 0 3
                ltac:(left; vm_compute; intuition discriminate) ltac:(lia)))
      as (s' & E & C & O & _); [cbn; lia|].
    exists s'. refine (conj E (conj O _)).
    apply (consumed_ahead _ _ _ _ C). reflexivity.
  - destruct (proj2 (proj1 (fz_seek_forward
                (mk_state ctx0
                   (mk_stream false 5 3 [x63; x64] [Data x65 [x66; x67]] None))
                9 eq_refl) 1 9 ltac:(right; split; reflexivity) ltac:(lia)))
      as (s1 & E & _ & F); [cbn; lia|reflexivity|].
    exists s1. split; [exact E|exact F].
  - exact (proj2 (fz_seek_forward
                (mk_state ctx0
                   (mk_stream false 5 3 [x63; x64] [Data x65 [x66; x67]] None))
                (-10) eq_refl)).
Defined.

(** ** fz_seek, what holds in every case *)

Lemma fz_read_byte_avail s :
  avail (stm (snd (fz_read_byte s))) = avail (stm s).
Proof.
  unfold fz_read_byte, bind, get_stm, put_stm, ret.
  rewrite fz_available_eq. split_state s. cbn [stm ctx window eof source].
  destruct w as [|b w]; [|reflexivity].
  destruct e; [reflexivity|].
  destruct r as [|[b bs|x] r]; reflexivity.
Qed.

Lemma seek_forward_avail k : forall s,
  avail (stm (snd (seek_forward k s))) = avail (stm s).
Proof.
  induction k as [|k IH]; intros s; [reflexivity|].
  cbn [seek_forward]. unfold bind.
  pose proof (fz_read_byte_avail s) as H.
  destruct (fz_read_byte s) as [[c|e] s1]; cbn [snd] in *; [|exact H].
  destruct (c =? EOF); [exact H|]. now rewrite IH.
Qed.

(** X8.  Whatever [fz_seek] is asked and however it ends (returning, with or
    without a warning, or throwing an error of the native seek or of the
    source), the bit accumulator of the stream is 0 afterwards. *)
Theorem fz_seek_resets_bits (s : state) (off whence : Z) :
  avail (stm (snd (fz_seek off whence s))) = 0.
Proof.
  unfold fz_seek, bind, get_stm, put_stm. cbn [stm ctx].
  destruct (seek (set_avail 0 (stm s))) as [native|].
  - destruct (native _ _ _) as [w p r|e]; reflexivity.
  - destruct (negb (whence =? 2)); [|reflexivity].
    set (d := if whence =? 0 then _ else off).
    destruct (d <? 0); unfold fz_warn, ret; cbv beta iota;
      now rewrite seek_forward_avail.
Qed.

(** X9.  [fz_seek] on a stream with native seek.  A request relative to the
    current position is the absolute request for the position told plus the
    offset.  When the native seek succeeds the stream takes the window, the
    position and the source it gives and the end flag is cleared, nothing is
    warned of; when it throws, the error is thrown on and the end flag is
    not cleared (a native seek that throws is taken to leave the stream as
    it found it). *)
Theorem fz_seek_native (s : state) (off whence : Z)
    (native : list pull -> Z -> Z -> seek_result) :
  seek (stm s) = Some native ->
  fz_seek off 1 s = fz_seek (to_i64 (off + fz_tell (stm s))) 0 s
  /\ (whence <> 1 ->
      forall w p r,
        native (source (stm s)) off whence = SeekOk w p r ->
        fz_seek off whence s
        = (Ok tt, mk_state (ctx s) (mk_stream false p 0 w r (Some native))))
  /\ (whence <> 1 ->
      forall e,
        native (source (stm s)) off whence = SeekFail e ->
        fz_seek off whence s
        = (Throw e, mk_state (ctx s) (set_avail 0 (stm s)))).
Proof.
  intros Hk.
  assert (Hk' : seek (set_avail 0 (stm s)) = Some native) by exact Hk.
  refine (conj _ (conj _ _)).
  - unfold fz_seek, bind, get_stm, put_stm. cbn [stm ctx]. rewrite Hk'.
    reflexivity.
  - intros Hw w p r Hn. unfold fz_seek, bind, get_stm, put_stm.
    cbn [stm ctx]. rewrite Hk'.
    destruct (Z.eqb_spec whence 1); [contradiction|].
    change (source (set_avail 0 (stm s))) with (source (stm s)).
    rewrite Hn. reflexivity.
  - intros Hw e Hn. unfold fz_seek, bind, get_stm, put_stm.
    cbn [stm ctx]. rewrite Hk'.
    destruct (Z.eqb_spec whence 1); [contradiction|].
    change (source (set_avail 0 (stm s))) with (source (stm s)).
    rewrite Hn. reflexivity.
Qed.

Lemma fz_seek_native_witness :
  let native := fun (r : list pull) (o w : Z) =>
                  if o <? 0 then SeekFail (mk_error FZ_ERROR_GENERIC "cannot lseek")
                  else SeekOk [] o [Data x7a []] in
  let s := mk_state ctx0 (mk_stream true 8 3 [x61; x62] [] (Some native)) in
  fz_seek 1 1 s = fz_seek 7 0 s
  /\ fz_seek 7 0 s
     = (Ok tt, mk_state ctx0 (mk_stream false 7 0 [] [Data x7a []] (Some native)))
  /\ fz_seek (-5) 0 s
     = (Throw (mk_error FZ_ERROR_GENERIC "cannot lseek"),
        mk_state ctx0 (mk_stream true 8 0 [x61; x62] [] (Some native))).
Proof.
  intros native s.
  destruct (fz_seek_native s 1 0 native eq_refl) as (H1 & _).
  destruct (fz_seek_native s 7 0 native eq_refl) as (_ & H2 & _).
  destruct (fz_seek_native s (-5) 0 native eq_refl) as (_ & _ & H3).
  refine (conj H1 (conj _ _)).
  - apply H2; [discriminate|reflexivity].
  - apply H3; [discriminate|reflexivity].
Defined.

(** ** The integer decoders, further *)

(** One byte read off a stream whose source will throw [e] once the bytes
    ahead are used up. *)
Ltac read_next_fault :=
  match goal with
  | Ha : ahead (stm ?s) = ?b :: ?rest, He : ahead_end (stm ?s) = Some ?e
    |- context [fz_read_byte ?s] =>
      let s1 := fresh "s" in
      let E := fresh "E" in
      let C := fresh "C" in
      let Ha' := fresh "Ha" in
      let He' := fresh "He" in
      destruct (fz_read_byte_some s b rest Ha) as (s1 & E & C);
      rewrite !E; cbv beta iota;
      pose proof (consumed_ahead [b] rest _ _ C Ha) as Ha';
      pose proof (consumed_end [b] _ _ C) as He';
      rewrite He in He';
      clear E
  end.

Ltac read_fault :=
  match goal with
  | Ha : ahead (stm ?s) = [], He : ahead_end (stm ?s) = Some ?e
    |- context [fz_read_byte ?s] =>
      let s1 := fresh "s" in
      let E := fresh "E" in
      let K := fresh "K" in
      destruct (fz_read_byte_fault s e Ha He) as (s1 & E & K);
      rewrite !E; cbv beta iota;
      clear E
  end.

Lemma consumed_ctx bs s s' : consumed bs s s' -> ctx s' = ctx s.
Proof. intros (_ & _ & _ & K & _). exact K. Qed.

Ltac finish_fault :=
  chain_consumed;
  match goal with
  | |- exists s', (_, ?s1) = _ /\ _ =>
      exists s1; refine (conj eq_refl (conj eq_refl _));
      repeat match goal with
      | C : consumed _ _ _ |- _ => apply consumed_ctx in C
      end;
      congruence
  end.

Ltac fault_decode :=
  unfold_decoders; repeat read_next_fault; read_fault; finish_fault.

Lemma decode16_fault s bs e :
  ahead (stm s) = bs -> ahead_end (stm s) = Some e -> (length bs < 2)%nat ->
  exists s',
    fz_read_uint16 s = (Throw e, s') /\ fz_read_uint16_le s = (Throw e, s')
    /\ ctx s' = ctx s.
Proof.
  intros Ha He L.
  destruct bs as [|a [|b ?]]; cbn [length] in L; try lia; fault_decode.
Qed.

Lemma decode24_fault s bs e :
  ahead (stm s) = bs -> ahead_end (stm s) = Some e -> (length bs < 3)%nat ->
  exists s',
    fz_read_uint24 s = (Throw e, s') /\ fz_read_uint24_le s = (Throw e, s')
    /\ ctx s' = ctx s.
Proof.
  intros Ha He L.
  destruct bs as [|a [|b [|c ?]]]; cbn [length] in L; try lia; fault_decode.
Qed.

Lemma decode32_fault s bs e :
  ahead (stm s) = bs -> ahead_end (stm s) = Some e -> (length bs < 4)%nat ->
  exists s',
    fz_read_uint32 s = (Throw e, s') /\ fz_read_uint32_le s = (Throw e, s')
    /\ ctx s' = ctx s.
Proof.
  intros Ha He L.
  destruct bs as [|a [|b [|c [|d ?]]]]; cbn [length] in L; try lia;
    fault_decode.
Qed.

Lemma decode64_fault s bs e :
  ahead (stm s) = bs -> ahead_end (stm s) = Some e -> (length bs < 8)%nat ->
  exists s',
    fz_read_uint64 s = (Throw e, s') /\ fz_read_uint64_le s = (Throw e, s')
    /\ ctx s' = ctx s.
Proof.
  intros Ha He L.
  destruct bs as [|a [|b [|c [|d [|e' [|f [|g [|h ?]]]]]]]];
    cbn [length] in L; try lia; fault_decode.
Qed.

Ltac unfold_signed :=
  unfold fz_read_int16, fz_read_int16_le, fz_read_int32, fz_read_int32_le,
    fz_read_int64, fz_read_int64_le, bind.

(** X10.  When the source throws [e] before the bytes of the decoder's width
    have been read, the decoder, unsigned or signed, throws that same error
    and not its premature-end error; nothing is recorded in the context. *)
Theorem decoders_source_error (s : state) (bs : list byte) (e : fz_error) :
  ahead (stm s) = bs -> ahead_end (stm s) = Some e ->
  ((length bs < 2)%nat ->
   exists s',
     fz_read_uint16 s = (Throw e, s') /\ fz_read_uint16_le s = (Throw e, s')
     /\ fz_read_int16 s = (Throw e, s') /\ fz_read_int16_le s = (Throw e, s')
     /\ ctx s' = ctx s)
  /\ ((length bs < 3)%nat ->
      exists s',
        fz_read_uint24 s = (Throw e, s') /\ fz_read_uint24_le s = (Throw e, s')
        /\ ctx s' = ctx s)
  /\ ((length bs < 4)%nat ->
      exists s',
        fz_read_uint32 s = (Throw e, s') /\ fz_read_uint32_le s = (Throw e, s')
        /\ fz_read_int32 s = (Throw e, s') /\ fz_read_int32_le s = (Throw e, s')
        /\ ctx s' = ctx s)
  /\ ((length bs < 8)%nat ->
      exists s',
        fz_read_uint64 s = (Throw e, s') /\ fz_read_uint64_le s = (Throw e, s')
        /\ fz_read_int64 s = (Throw e, s') /\ fz_read_int64_le s = (Throw e, s')
        /\ ctx s' = ctx s).
Proof.
  intros Ha He. refine (conj _ (conj _ (conj _ _))); intros L.
  - destruct (decode16_fault s bs e Ha He L) as (s' & E1 & E2 & K).
    exists s'. unfold_signed. rewrite E1, E2. auto.
  - exact (decode24_fault s bs e Ha He L).
  - destruct (decode32_fault s bs e Ha He L) as (s' & E1 & E2 & K).
    exists s'. unfold_signed. rewrite E1, E2. auto.
  - destruct (decode64_fault s bs e Ha He L) as (s' & E1 & E2 & K).
    exists s'. unfold_signed. rewrite E1, E2. auto.
Qed.

Lemma decoders_source_error_witness :
  let e := mk_error FZ_ERROR_TRYLATER "data not yet there" in
  let s := mk_state ctx0
             (mk_stream false 1 0 [x12] [Data x34 []; Fault e; Data x56 []] None) in
  exists s',
    fz_read_uint32 s = (Throw e, s') /\ fz_read_int32_le s = (Throw e, s')
    /\ ctx s' = ctx0.
Proof.
  intros e s.
  destruct (proj1 (proj2 (proj2 (decoders_source_error s [x12; x34] e
              eq_refl eq_refl))))
    as (s' & E1 & _ & _ & E2 & K); [cbn; lia|].
  exists s'. auto.
Defined.

(** A decoder that returned a value found all its bytes ahead. *)
Ltac dead_read H :=
  repeat match type of H with
  | context [fz_read_byte ?s] =>
      destruct (fz_read_byte s) as [[?|?] ?]; cbv beta iota in H;
      [|discriminate H]
  end;
  change (to_u32 EOF) with 4294967295 in H;
  change (to_u64 EOF) with 18446744073709551615 in H;
  change (eof32 4294967295) with true in H;
  change (eof64 18446744073709551615) with true in H;
  rewrite ?orb_true_r, ?orb_true_l in H; discriminate H.

Ltac ok_read H :=
  match type of H with
  | context [fz_read_byte ?s] =>
      let c := fresh "c" in
      let s1 := fresh "s" in
      let E := fresh "E" in
      destruct (fz_read_byte s) as [[c|?] s1] eqn:E; cbv beta iota in H;
      [|discriminate H];
      apply fz_read_byte_inv in E;
      destruct E as [(-> & _)|(?b & ?rest & -> & ?Ha & ?C)]; [dead_read H|]
  end.

Ltac count_ahead :=
  repeat match goal with
  | C : consumed _ _ _ |- _ =>
      let A := fresh "A" in
      destruct C as (A & _); apply (f_equal (@length byte)) in A;
      cbn [length app] in A
  end;
  repeat match goal with
  | Ha : ahead _ = _ :: _ |- _ =>
      apply (f_equal (@length byte)) in Ha; cbn [length] in Ha
  end;
  lia.

Ltac ok_decode H :=
  revert H; unfold_decoders; intros H; repeat ok_read H; count_ahead.

Lemma decode16_ok s x s' :
  fz_read_uint16 s = (Ok x, s') \/ fz_read_uint16_le s = (Ok x, s') ->
  (2 <= length (ahead (stm s)))%nat.
Proof. intros [H|H]; ok_decode H. Qed.

Lemma decode32_ok s x s' :
  fz_read_uint32 s = (Ok x, s') \/ fz_read_uint32_le s = (Ok x, s') ->
  (4 <= length (ahead (stm s)))%nat.
Proof. intros [H|H]; ok_decode H. Qed.

Lemma decode64_ok s x s' :
  fz_read_uint64 s = (Ok x, s') \/ fz_read_uint64_le s = (Ok x, s') ->
  (8 <= length (ahead (stm s)))%nat.
Proof. intros [H|H]; ok_decode H. Qed.

Lemma decode16_inv s x s' :
  fz_read_uint16 s = (Ok x, s') \/ fz_read_uint16_le s = (Ok x, s') ->
  exists a b rest,
    ahead (stm s) = a :: b :: rest
    /\ fz_read_uint16 s = (Ok (be_value [a; b]), s')
    /\ fz_read_uint16_le s = (Ok (be_value [b; a]), s')
    /\ fz_read_bytes 2 s = (Ok (map byte_val [a; b]), s')
    /\ consumed [a; b] s s'.
Proof.
  intros H. pose proof (decode16_ok s x s' H) as L.
  destruct (ahead (stm s)) as [|a [|b rest]] eqn:Ha; cbn [length] in L; try lia.
  destruct (decode16_view s a b rest Ha) as (s1 & E1 & E2 & E3 & C).
  unfold le_concat in E2. rewrite be_concat_value in E1, E2. cbn [rev app] in E2.
  assert (s1 = s') as -> by (destruct H as [H|H]; congruence).
  exists a, b, rest. auto.
Qed.

Lemma decode32_inv s x s' :
  fz_read_uint32 s = (Ok x, s') \/ fz_read_uint32_le s = (Ok x, s') ->
  exists a b c d rest,
    ahead (stm s) = a :: b :: c :: d :: rest
    /\ fz_read_uint32 s = (Ok (be_value [a; b; c; d]), s')
    /\ fz_read_uint32_le s = (Ok (be_value [d; c; b; a]), s')
    /\ fz_read_bytes 4 s = (Ok (map byte_val [a; b; c; d]), s')
    /\ consumed [a; b; c; d] s s'.
Proof.
  intros H. pose proof (decode32_ok s x s' H) as L.
  destruct (ahead (stm s)) as [|a [|b [|c [|d rest]]]] eqn:Ha;
    cbn [length] in L; try lia.
  destruct (decode32_view s a b c d rest Ha) as (s1 & E1 & E2 & E3 & C).
  unfold le_concat in E2. rewrite be_concat_value in E1, E2. cbn [rev app] in E2.
  assert (s1 = s') as -> by (destruct H as [H|H]; congruence).
  exists a, b, c, d, rest. auto.
Qed.

Lemma decode64_inv s x s' :
  fz_read_uint64 s = (Ok x, s') \/ fz_read_uint64_le s = (Ok x, s') ->
  exists a b c d e f g h rest,
    ahead (stm s) = a :: b :: c :: d :: e :: f :: g :: h :: rest
    /\ fz_read_uint64 s = (Ok (be_value [a; b; c; d; e; f; g; h]), s')
    /\ fz_read_uint64_le s = (Ok (be_value [h; g; f; e; d; c; b; a]), s')
    /\ fz_read_bytes 8 s = (Ok (map byte_val [a; b; c; d; e; f; g; h]), s')
    /\ consumed [a; b; c; d; e; f; g; h] s s'.
Proof.
  intros H. pose proof (decode64_ok s x s' H) as L.
  destruct (ahead (stm s)) as [|a [|b [|c [|d [|e [|f [|g [|h rest]]]]]]]] eqn:Ha;
    cbn [length] in L; try lia.
  destruct (decode64_view s a b c d e f g h rest Ha) as (s1 & E1 & E2 & E3 & C).
  unfold le_concat in E2. rewrite be_concat_value in E1, E2. cbn [rev app] in E2.
  assert (s1 = s') as -> by (destruct H as [H|H]; congruence).
  exists a, b, c, d, e, f, g, h, rest. auto.
Qed.

Lemma to_i16_cases x :
  0 <= x < 65536 -> to_i16 x = if x <? 32768 then x else x - 65536.
Proof.
  intros H. unfold to_i16. change (2 ^ 15) with 32768. pow_consts.
  destruct (Z.ltb_spec x 32768); lia.
Qed.

Lemma to_i32_cases x :
  0 <= x < 4294967296 ->
  to_i32 x = if x <? 2147483648 then x else x - 4294967296.
Proof.
  intros H. unfold to_i32. change (2 ^ 31) with 2147483648. pow_consts.
  destruct (Z.ltb_spec x 2147483648); lia.
Qed.

Lemma to_i64_cases x :
  0 <= x < 18446744073709551616 ->
  to_i64 x = if x <? 9223372036854775808 then x else x - 18446744073709551616.
Proof.
  intros H. unfold to_i64. change (2 ^ 63) with 9223372036854775808. pow_consts.
  destruct (Z.ltb_spec x 9223372036854775808); lia.
Qed.

Ltac byte_ranges :=
  repeat match goal with
  | b : byte |- _ =>
      lazymatch goal with
      | _ : 0 <= byte_val b < 256 |- _ => fail
      | _ => pose proof (byte_val_range b)
      end
  end.

Ltac signed_value E cases :=
  unfold_signed; rewrite E; unfold ret; cbn [be_value fold_left];
  byte_ranges;
  split; [lia|]; rewrite cases by lia; reflexivity.

(** X11.  Each signed decoder returns what its unsigned twin returns, at the
    same final state, read as a two's-complement number of the width: the
    unsigned value [x] lies in [0, 2^w), and the signed result is [x] below
    [2^(w-1)] and [x - 2^w] from there on. *)
Theorem signed_decoders (s s' : state) (x : Z) :
  (fz_read_uint16 s = (Ok x, s') ->
   0 <= x < 2 ^ 16
   /\ fz_read_int16 s = (Ok (if x <? 2 ^ 15 then x else x - 2 ^ 16), s'))
  /\ (fz_read_uint16_le s = (Ok x, s') ->
      0 <= x < 2 ^ 16
      /\ fz_read_int16_le s = (Ok (if x <? 2 ^ 15 then x else x - 2 ^ 16), s'))
  /\ (fz_read_uint32 s = (Ok x, s') ->
      0 <= x < 2 ^ 32
      /\ fz_read_int32 s = (Ok (if x <? 2 ^ 31 then x else x - 2 ^ 32), s'))
  /\ (fz_read_uint32_le s = (Ok x, s') ->
      0 <= x < 2 ^ 32
      /\ fz_read_int32_le s = (Ok (if x <? 2 ^ 31 then x else x - 2 ^ 32), s'))
  /\ (fz_read_uint64 s = (Ok x, s') ->
      0 <= x < 2 ^ 64
      /\ fz_read_int64 s = (Ok (if x <? 2 ^ 63 then x else x - 2 ^ 64), s'))
  /\ (fz_read_uint64_le s = (Ok x, s') ->
      0 <= x < 2 ^ 64
      /\ fz_read_int64_le s = (Ok (if x <? 2 ^ 63 then x else x - 2 ^ 64), s')).
Proof.
  change (2 ^ 15) with 32768. change (2 ^ 31) with 2147483648.
  change (2 ^ 63) with 9223372036854775808. pow_consts.
  refine (conj _ (conj _ (conj _ (conj _ (conj _ _))))); intros H.
  - destruct (decode16_inv s x s' (or_introl H)) as (a & b & r & _ & E & _).
    assert (x = be_value [a; b]) as -> by congruence.
    signed_value E to_i16_cases.
  - destruct (decode16_inv s x s' (or_intror H)) as (a & b & r & _ & _ & E & _).
    assert (x = be_value [b; a]) as -> by congruence.
    signed_value E to_i16_cases.
  - destruct (decode32_inv s x s' (or_introl H))
      as (a & b & c & d & r & _ & E & _).
    assert (x = be_value [a; b; c; d]) as -> by congruence.
    signed_value E to_i32_cases.
  - destruct (decode32_inv s x s' (or_intror H))
      as (a & b & c & d & r & _ & _ & E & _).
    assert (x = be_value [d; c; b; a]) as -> by congruence.
    signed_value E to_i32_cases.
  - destruct (decode64_inv s x s' (or_introl H))
      as (a & b & c & d & e & f & g & h & r & _ & E & _).
    assert (x = be_value [a; b; c; d; e; f; g; h]) as -> by congruence.
    signed_value E to_i64_cases.
  - destruct (decode64_inv s x s' (or_intror H))
      as (a & b & c & d & e & f & g & h & r & _ & _ & E & _).
    assert (x = be_value [h; g; f; e; d; c; b; a]) as -> by congruence.
    signed_value E to_i64_cases.
Qed.

Lemma signed_decoders_witness :
  let s := mk_state ctx0 (mem_stream [xff; xfe]) in
  let s' := mk_state ctx0 (mk_stream false 2 0 [] [] None) in
  fz_read_int16 s = (Ok (-2), s') /\ fz_read_int16_le s = (Ok (-257), s').
Proof.
  intros s s'. split.
  - exact (proj2 (proj1 (signed_decoders s s' 65534) eq_refl)).
  - exact (proj2 (proj1 (proj2 (signed_decoders s s' 65279)) eq_refl)).
Defined.

Lemma fz_read_bytes_app n : forall m s xs ys s1 s2,
  fz_read_bytes n s = (Ok xs, s1) ->
  fz_read_bytes m s1 = (Ok ys, s2) ->
  fz_read_bytes (n + m) s = (Ok (xs ++ ys), s2).
Proof.
  induction n as [|n IH]; intros m s xs ys s1 s2 H1 H2.
  - cbn in H1. injection H1 as <- <-. exact H2.
  - cbn [fz_read_bytes Nat.add] in *. unfold bind, ret in *.
    destruct (fz_read_byte s) as [[c|e] sa]; [|discriminate H1].
    destruct (fz_read_bytes n sa) as [[cs|e] sb] eqn:E; [|discriminate H1].
    injection H1 as <- <-.
    rewrite (IH m sa cs ys sb s2 E H2). reflexivity.
Qed.

Ltac halves_value :=
  cbn [be_value fold_left]; byte_ranges; pow_consts; do 2 f_equal; lia.

(** X12.  Two decodes of one width, one after the other, and one decode of
    twice the width agree: they consume the same bytes, end in the same
    state, and the wide value is the two narrow ones put together, the first
    in the high half for the big-endian decoders and in the low half for the
    little-endian ones. *)
Theorem decoders_compose (s s1 s2 : state) (x y : Z) :
  (fz_read_uint16 s = (Ok x, s1) -> fz_read_uint16 s1 = (Ok y, s2) ->
   fz_read_uint32 s = (Ok (x * 2 ^ 16 + y), s2))
  /\ (fz_read_uint16_le s = (Ok x, s1) -> fz_read_uint16_le s1 = (Ok y, s2) ->
      fz_read_uint32_le s = (Ok (x + y * 2 ^ 16), s2))
  /\ (fz_read_uint32 s = (Ok x, s1) -> fz_read_uint32 s1 = (Ok y, s2) ->
      fz_read_uint64 s = (Ok (x * 2 ^ 32 + y), s2))
  /\ (fz_read_uint32_le s = (Ok x, s1) -> fz_read_uint32_le s1 = (Ok y, s2) ->
      fz_read_uint64_le s = (Ok (x + y * 2 ^ 32), s2)).
Proof.
  refine (conj _ (conj _ (conj _ _))); intros H1 H2.
  - destruct (decode16_inv s x s1 (or_introl H1))
      as (a & b & r & Ha & E1 & _ & B1 & C1).
    destruct (decode16_inv s1 y s2 (or_introl H2))
      as (c & d & r' & Ha' & E2 & _ & B2 & _).
    pose proof (consumed_ahead [a; b] r _ _ C1 Ha) as Hr.
    assert (r = c :: d :: r') as -> by congruence.
    destruct (decode32_view s a b c d r' Ha) as (s' & E & _ & B & _).
    pose proof (fz_read_bytes_app 2 2 s _ _ s1 s2 B1 B2) as B'.
    assert (s' = s2) as -> by (cbn [Nat.add] in B'; congruence).
    assert (x = be_value [a; b]) as -> by congruence.
    assert (y = be_value [c; d]) as -> by congruence.
    rewrite E, be_concat_value. halves_value.
  - destruct (decode16_inv s x s1 (or_intror H1))
      as (a & b & r & Ha & _ & E1 & B1 & C1).
    destruct (decode16_inv s1 y s2 (or_intror H2))
      as (c & d & r' & Ha' & _ & E2 & B2 & _).
    pose proof (consumed_ahead [a; b] r _ _ C1 Ha) as Hr.
    assert (r = c :: d :: r') as -> by congruence.
    destruct (decode32_view s a b c d r' Ha) as (s' & _ & E & B & _).
    pose proof (fz_read_bytes_app 2 2 s _ _ s1 s2 B1 B2) as B'.
    assert (s' = s2) as -> by (cbn [Nat.add] in B'; congruence).
    assert (x = be_value [b; a]) as -> by congruence.
    assert (y = be_value [d; c]) as -> by congruence.
    rewrite E. unfold le_concat. rewrite be_concat_value. cbn [rev app].
    halves_value.
  - destruct (decode32_inv s x s1 (or_introl H1))
      as (a & b & c & d & r & Ha & E1 & _ & B1 & C1).
    destruct (decode32_inv s1 y s2 (or_introl H2))
      as (e & f & g & h & r' & Ha' & E2 & _ & B2 & _).
    pose proof (consumed_ahead [a; b; c; d] r _ _ C1 Ha) as Hr.
    assert (r = e :: f :: g :: h :: r') as -> by congruence.
    destruct (decode64_view s a b c d e f g h r' Ha) as (s' & E & _ & B & _).
    pose proof (fz_read_bytes_app 4 4 s _ _ s1 s2 B1 B2) as B'.
    assert (s' = s2) as -> by (cbn [Nat.add] in B'; congruence).
    assert (x = be_value [a; b; c; d]) as -> by congruence.
    assert (y = be_value [e; f; g; h]) as -> by congruence.
    rewrite E, be_concat_value. halves_value.
  - destruct (decode32_inv s x s1 (or_intror H1))
      as (a & b & c & d & r & Ha & _ & E1 & B1 & C1).
    destruct (decode32_inv s1 y s2 (or_intror H2))
      as (e & f & g & h & r' & Ha' & _ & E2 & B2 & _).
    pose proof (consumed_ahead [a; b; c; d] r _ _ C1 Ha) as Hr.
    assert (r = e :: f :: g :: h :: r') as -> by congruence.
    destruct (decode64_view s a b c d e f g h r' Ha) as (s' & _ & E & B & _).
    pose proof (fz_read_bytes_app 4 4 s _ _ s1 s2 B1 B2) as B'.
    assert (s' = s2) as -> by (cbn [Nat.add] in B'; congruence).
    assert (x = be_value [d; c; b; a]) as -> by congruence.
    assert (y = be_value [h; g; f; e]) as -> by congruence.
    rewrite E. unfold le_concat. rewrite be_concat_value. cbn [rev app].
    halves_value.
Qed.

Lemma decoders_compose_witness :
  let s := mk_state ctx0 (mem_stream [x12; x34; x56; x78]) in
  let s1 := mk_state ctx0 (mk_stream false 4 0 [x56; x78] [] None) in
  let s2 := mk_state ctx0 (mk_stream false 4 0 [] [] None) in
  fz_read_uint32 s = (Ok 0x12345678, s2)
  /\ fz_read_uint32_le s = (Ok 0x78563412, s2).
Proof.
  intros s s1 s2. split.
  - exact (proj1 (decoders_compose s s1 s2 0x1234 0x5678) eq_refl eq_refl).
  - exact (proj1 (proj2 (decoders_compose s s1 s2 0x3412 0x7856))
             eq_refl eq_refl).
Defined.

(** ** fz_read_string *)

Lemma byte_val_zero b : byte_val b = 0 <-> b = x00.
Proof. destruct b; vm_compute; split; intros H; (reflexivity || discriminate H). Qed.

(** The loop over a run of non-zero bytes for which there is room. *)
Lemma read_string_loop_run str : forall fuel out len s rest,
  Forall nonzero str ->
  ahead (stm s) = str ++ rest ->
  Z.of_nat (length str) <= len ->
  exists s1,
    consumed str s s1
    /\ read_string_loop (length str + fuel) out len s
       = read_string_loop fuel (out ++ map byte_val str)
           (len - Z.of_nat (length str)) s1.
Proof.
  induction str as [|b str IH]; intros fuel out len s rest Hp Ha Hn.
  - exists s. split; [apply consumed_refl|].
    cbn [length map Nat.add]. change (Z.of_nat 0) with 0.
    now rewrite app_nil_r, Z.sub_0_r.
  - inversion Hp as [|? ? Hb Hp']; subst.
    assert (Hz : byte_val b <> 0) by (intros Hz; now apply byte_val_zero in Hz).
    pose proof (byte_val_not_eof b) as Heof.
    cbn [length] in Hn. rewrite Nat2Z.inj_succ in Hn.
    destruct (fz_read_byte_some s b (str ++ rest) Ha) as (s1 & E1 & C1).
    destruct (IH fuel (out ++ [byte_val b]) (len - 1) s1 rest Hp')
      as (s2 & C2 & E2).
    { now apply (consumed_ahead [b] _ _ _ C1). }
    { lia. }
    exists s2. split; [apply (consumed_trans [b] str _ _ _ C1 C2)|].
    cbn [length Nat.add read_string_loop].
    destruct (Z.leb_spec len 0); [lia|].
    unfold bind at 1. rewrite E1.
    destruct (Z.eqb_spec (byte_val b) EOF); [contradiction|].
    destruct (Z.eqb_spec (byte_val b) 0); [contradiction|].
    cbn [negb]. rewrite E2, <- app_assoc. cbn [map app].
    rewrite Nat2Z.inj_succ.
    replace (len - Z.succ (Z.of_nat (length str)))
      with (len - 1 - Z.of_nat (length str)) by lia.
    reflexivity.
Qed.

Lemma string_fuel (n : nat) (len : Z) :
  Z.of_nat n <= len -> S (Z.to_nat len) = (n + S (Z.to_nat len - n))%nat.
Proof. lia. Qed.

(** X13.  A string that fits: with the bytes [str], none of them zero, then a
    zero byte ahead, and room for all of them ([|str| + 1 <= len]),
    [fz_read_string] stores [str] and the terminating zero, and consumes
    exactly these bytes; what follows the terminator stays in the stream. *)
Theorem fz_read_string_fits (s : state) (str rest : list byte) (len : Z) :
  Forall nonzero str ->
  ahead (stm s) = str ++ x00 :: rest ->
  Z.of_nat (length str) + 1 <= len ->
  exists s',
    fz_read_string len s = (Ok (map byte_val str ++ [0]), s')
    /\ consumed (str ++ [x00]) s s'
    /\ ahead (stm s') = rest.
Proof.
  intros Hp Ha Hn.
  destruct (read_string_loop_run str (S (Z.to_nat len - length str)) [] len s
              (x00 :: rest) Hp Ha) as (s1 & C1 & E1); [lia|].
  pose proof (consumed_ahead _ _ _ _ C1 Ha) as Ha1.
  destruct (fz_read_byte_some s1 x00 rest Ha1) as (s2 & E2 & C2).
  pose proof (consumed_trans _ _ _ _ _ C1 C2) as C.
  exists s2. refine (conj _ (conj C _)).
  - unfold fz_read_string. rewrite (string_fuel (length str)) by lia.
    rewrite E1. cbn [read_string_loop app].
    destruct (Z.leb_spec (len - Z.of_nat (length str)) 0); [lia|].
    unfold bind. rewrite E2. reflexivity.
  - apply (consumed_ahead _ _ _ _ C). now rewrite <- app_assoc.
Qed.

Lemma fz_read_string_fits_witness :
  exists s',
    fz_read_string 8 (mk_state ctx0 (mem_stream [x68; x69; x00; x21]))
    = (Ok [104; 105; 0], s')
    /\ ahead (stm s') = [x21].
Proof.
  destruct (fz_read_string_fits (mk_state ctx0 (mem_stream [x68; x69; x00; x21]))
              [x68; x69] [x21] 8) as (s' & E & _ & A).
  - repeat constructor; discriminate.
  - reflexivity.
  - cbn; lia.
  - exists s'. split; [exact E|exact A].
Defined.

(** X14.  A string that does not fit: when the first [len] bytes ahead hold
    no zero byte, [fz_read_string] consumes exactly these [len] bytes and
    throws the buffer-overrun error; a zero byte that comes right after them
    is of no help.  With [len <= 0] it throws at once and reads nothing. *)
Theorem fz_read_string_overrun (s : state) (pre rest : list byte) (len : Z) :
  Forall nonzero pre ->
  ahead (stm s) = pre ++ rest ->
  (Z.of_nat (length pre) = len ->
   exists s',
     fz_read_string len s = (Throw overrun_error, s') /\ consumed pre s s')
  /\ (len <= 0 -> fz_read_string len s = (Throw overrun_error, s)).
Proof.
  intros Hp Ha. split.
  - intros Hn.
    destruct (read_string_loop_run pre (S (Z.to_nat len - length pre)) [] len s
                rest Hp Ha) as (s1 & C1 & E1); [lia|].
    exists s1. split; [|exact C1].
    unfold fz_read_string. rewrite (string_fuel (length pre)) by lia.
    rewrite E1. cbn [read_string_loop].
    destruct (Z.leb_spec (len - Z.of_nat (length pre)) 0); [|lia].
    reflexivity.
  - intros Hn. unfold fz_read_string. cbn [read_string_loop].
    destruct (Z.leb_spec len 0); [|lia]. reflexivity.
Qed.

Lemma fz_read_string_overrun_witness :
  (exists s',
     fz_read_string 2 (mk_state ctx0 (mem_stream [x68; x69; x00]))
     = (Throw overrun_error, s')
     /\ ahead (stm s') = [x00])
  /\ fz_read_string (-1) (mk_state ctx0 (mem_stream [x68; x69; x00]))
     = (Throw overrun_error, mk_state ctx0 (mem_stream [x68; x69; x00])).
Proof.
  destruct (fz_read_string_overrun (mk_state ctx0 (mem_stream [x68; x69; x00]))
              [x68; x69] [x00] 2) as ((s' & E & C) & _).
  - repeat constructor; discriminate.
  - reflexivity.
  - reflexivity.
  - split.
    + exists s'. split; [exact E|].
      now apply (consumed_ahead [x68; x69] [x00] _ _ C).
    + apply (fz_read_string_overrun
               (mk_state ctx0 (mem_stream [x68; x69; x00])) []
               [x68; x69; x00] (-1)).
      * constructor.
      * reflexivity.
      * lia.
Defined.

(** X15.  A string without terminator: when the stream runs out after the
    bytes [str], none of them zero, and there was room for more, the bytes
    are consumed and [fz_read_string] throws: the end-of-file error if the
    source ended, setting the end flag, and the error of the source if the
    source threw. *)
Theorem fz_read_string_unterminated (s : state) (str : list byte) (len : Z) :
  Forall nonzero str ->
  ahead (stm s) = str ->
  Z.of_nat (length str) < len ->
  (ahead_end (stm s) = None ->
   exists s',
     fz_read_string len s = (Throw eof_string_error, s')
     /\ consumed str s s' /\ eof (stm s') = true)
  /\ (forall e, ahead_end (stm s) = Some e ->
      exists s',
        fz_read_string len s = (Throw e, s') /\ ctx s' = ctx s).
Proof.
  intros Hp Ha Hn. rewrite <- (app_nil_r str) in Ha.
  destruct (read_string_loop_run str (S (Z.to_nat len - length str)) [] len s
              [] Hp Ha) as (s1 & C1 & E1); [lia|].
  pose proof (consumed_ahead _ _ _ _ C1 Ha) as Ha1.
  pose proof (consumed_end _ _ _ C1) as He1.
  assert (E : fz_read_string len s
              = read_string_loop (S (Z.to_nat len - length str))
                  ([] ++ map byte_val str) (len - Z.of_nat (length str)) s1).
  { unfold fz_read_string. rewrite (string_fuel (length str)) by lia.
    exact E1. }
  rewrite E. cbn [read_string_loop].
  destruct (Z.leb_spec (len - Z.of_nat (length str)) 0); [lia|].
  unfold bind. split.
  - intros He. rewrite He in He1.
    destruct (fz_read_byte_end s1 Ha1 He1) as (s2 & E2 & _ & F & C2).
    exists s2. rewrite E2. refine (conj eq_refl (conj _ F)).
    pose proof (consumed_trans _ _ _ _ _ C1 C2) as C.
    now rewrite app_nil_r in C.
  - intros e He. rewrite He in He1.
    destruct (fz_read_byte_fault s1 e Ha1 He1) as (s2 & E2 & K).
    exists s2. rewrite E2. split; [reflexivity|].
    rewrite K. now apply (consumed_ctx str).
Qed.

Lemma fz_read_string_unterminated_witness :
  exists s',
    fz_read_string 8 (mk_state ctx0 (mem_stream [x68; x69]))
    = (Throw eof_string_error, s')
    /\ eof (stm s') = true.
Proof.
  destruct (fz_read_string_unterminated
              (mk_state ctx0 (mem_stream [x68; x69])) [x68; x69] 8)
    as (H & _).
  - repeat constructor; discriminate.
  - reflexivity.
  - cbn; lia.
  - destruct (H eq_refl) as (s' & E & _ & F).
    exists s'. split; [exact E|exact F].
Defined.

(** ** fz_read_best, fz_read_all and fz_read_file, further *)

(** Reading never touches the context. *)
Lemma fz_read_ctx len s : 0 <= len -> ctx (snd (fz_read len s)) = ctx s.
Proof.
  intros Hl. unfold fz_read.
  destruct (fz_read_loop (S (Z.to_nat len)) [] 0 len s) as [[[d n]|e] s'] eqn:E;
    cbn [snd].
  - apply fz_read_loop_ok in E; [|lia|lia].
    destruct E as (bs & _ & _ & C & _). now apply (consumed_ctx bs).
  - apply fz_read_loop_throw in E. now destruct E as (_ & _ & _ & K).
Qed.

(** One round of the loop, with an allocator that may fail. *)
Lemma read_best_loop_step (grow_cap : Z -> Z) (mem : fz_alloc)
    fuel check initial buf s :
  read_best_loop grow_cap mem (S fuel) check initial buf s =
  match (if len buf =? cap buf then grow_fails mem buf else None) with
  | Some e => (Throw e, buf, s)
  | None =>
      let buf1 :=
        if len buf =? cap buf
        then mk_buffer (data buf) (len buf) (grow_cap (cap buf)) else buf in
      if check && (len buf1 >=? MIN_BOMB) && (len buf1 / 200 >? initial)
      then (Throw bomb_error, buf1, s)
      else
        match fz_read (to_size (cap buf1 - len buf1)) s with
        | (Throw e, s2) => (Throw e, buf1, s2)
        | (Ok (bytes, n), s2) =>
            if n =? 0 then (Ok tt, buf1, s2)
            else
              read_best_loop grow_cap mem fuel check initial
                (mk_buffer (data buf1 ++ bytes) (len buf1 + n) (cap buf1)) s2
        end
  end.
Proof.
  cbn [read_best_loop]. unfold fz_grow_buffer, ret.
  destruct (len buf =? cap buf); [destruct (grow_fails mem buf)|]; reflexivity.
Qed.

(** The loop leaves the context alone, however it ends. *)
Lemma read_best_loop_ctx (grow_cap : Z -> Z) (mem : fz_alloc) fuel :
  forall check initial buf s r buf' s',
    read_best_loop grow_cap mem fuel check initial buf s = (r, buf', s') ->
    ctx s' = ctx s.
Proof.
  induction fuel as [|fuel IH]; intros check initial buf s r buf' s' E.
  - cbn in E. now injection E as _ _ <-.
  - rewrite read_best_loop_step in E.
    destruct (if len buf =? cap buf then grow_fails mem buf else None).
    { now injection E as _ _ <-. }
    cbv zeta in E.
    set (buf1 := if len buf =? cap buf then _ else buf) in E.
    destruct (check && (len buf1 >=? MIN_BOMB) && (len buf1 / 200 >? initial)).
    { now injection E as _ _ <-. }
    pose proof (fz_read_ctx (to_size (cap buf1 - len buf1)) s) as K.
    destruct (fz_read (to_size (cap buf1 - len buf1)) s) as [[[bytes n]|e] s2];
      cbn [snd] in K.
    + destruct (n =? 0).
      * injection E as _ _ <-. apply K. apply to_size_range.
      * apply IH in E. rewrite E. apply K. apply to_size_range.
    + injection E as _ _ <-. apply K. apply to_size_range.
Qed.

(** What the loop throws was thrown by the source or by the allocator, or
    is the bomb error. *)
Lemma read_best_loop_origin (grow_cap : Z -> Z) (mem : fz_alloc) fuel :
  forall check initial buf s e buf' s',
    read_best_loop grow_cap mem fuel check initial buf s = (Throw e, buf', s') ->
    In (Fault e) (source (stm s)) \/ e = bomb_error
    \/ exists b, grow_fails mem b = Some e.
Proof.
  induction fuel as [|fuel IH]; intros check initial buf s e buf' s' E;
    [discriminate|].
  rewrite read_best_loop_step in E.
  destruct (if len buf =? cap buf then grow_fails mem buf else None)
    as [e0|] eqn:Hg.
  { injection E as <- _ _. right; right.
    destruct (len buf =? cap buf); [eauto|discriminate]. }
  cbv zeta in E.
  set (buf1 := if len buf =? cap buf then _ else buf) in E.
  destruct (check && (len buf1 >=? MIN_BOMB) && (len buf1 / 200 >? initial)).
  { injection E as <- _ _. now right; left. }
  pose proof (to_size_range (cap buf1 - len buf1)) as Hroom.
  revert E Hroom. generalize (to_size (cap buf1 - len buf1)).
  intros room E Hroom.
  destruct (fz_read room s) as [[[bytes n]|e0] s2] eqn:Er.
  - destruct (n =? 0); [discriminate|].
    apply IH in E. destruct E as [E|E]; [left|now right].
    unfold fz_read in Er. apply fz_read_loop_ok in Er; [|lia|lia].
    destruct Er as (bs & _ & _ & C & _).
    destruct C as (_ & _ & _ & _ & _ & _ & _ & F). now apply F.
  - injection E as <- _ _. left.
    unfold fz_read in Er. apply fz_read_loop_throw in Er. tauto.
Qed.

(** The try block, with an allocator that may fail: without the first
    buffer nothing is read, with it the loop runs. *)
Lemma read_best_try_step (grow_cap : Z -> Z) (mem : fz_alloc) check initial s :
  read_best_try grow_cap mem check initial s =
  match new_fails mem (to_size (clamp_hint initial + 1)) with
  | Some e => (Throw e, None, s)
  | None =>
      let '(r, buf, s2) :=
        read_best_loop grow_cap mem (S (stream_size (stm s))) check
          (clamp_hint initial)
          (mk_buffer [] 0 (to_size (clamp_hint initial + 1))) s in
      (r, Some buf, s2)
  end.
Proof.
  unfold read_best_try, fz_new_buffer, clamp_hint.
  destruct (new_fails mem _); reflexivity.
Qed.

Lemma is_trylater_code e :
  is_trylater e = true <-> err_code e = FZ_ERROR_TRYLATER.
Proof. unfold is_trylater. destruct (err_code e); split; congruence. Qed.

(** What the try block of [fz_read_best] hands to the catch block: the
    context is as before; there is no buffer only if the first allocation
    threw, and then that error is the one thrown; what is thrown comes from
    the source or from the allocator, or is the bomb error. *)
Lemma read_best_try_fate (grow_cap : Z -> Z) (mem : fz_alloc)
    check initial s r buf s' :
  read_best_try grow_cap mem check initial s = (r, buf, s') ->
  ctx s' = ctx s
  /\ (buf = None ->
      exists e, r = Throw e
                /\ new_fails mem (to_size (clamp_hint initial + 1)) = Some e)
  /\ (forall e, r = Throw e ->
      In (Fault e) (source (stm s)) \/ e = bomb_error
      \/ new_fails mem (to_size (clamp_hint initial + 1)) = Some e
      \/ exists b, grow_fails mem b = Some e).
Proof.
  rewrite read_best_try_step.
  destruct (new_fails mem (to_size (clamp_hint initial + 1))) as [e0|].
  - intros E. injection E as <- <- <-.
    refine (conj eq_refl (conj _ _)); [eauto|].
    intros e E. injection E as <-. auto.
  - destruct (read_best_loop _ _ _ _ _ _ _) as [[r0 b0] s0] eqn:E0.
    intros E. injection E as <- <- <-.
    refine (conj (read_best_loop_ctx _ _ _ _ _ _ _ _ _ _ E0) (conj _ _)).
    + discriminate.
    + intros e ->.
      destruct (read_best_loop_origin _ _ _ _ _ _ _ _ _ _ E0) as [H|[H|H]]; auto.
Qed.

(** X16.  Where the buffer of [fz_read_best] goes, whatever the stream, the
    arguments and the allocator.  When the call returns, the context is as
    before (no warning, nothing released) and the flag is the reset one or,
    for a caller that passed one, 1; what is returned is a buffer, except
    that a caller with a flag gets NULL, with the flag at 1, when the first
    allocation threw an error other than try-later.  When the call throws,
    the flag is the reset one; either the first allocation threw, and then
    no buffer was there to release and the context is as before, or one
    buffer has been released and nothing else changed in the context; the
    error is one the source or the allocator threw, or the bomb error; and a
    caller that passed a flag sees a try-later error only. *)
Theorem fz_read_best_buffer_fate
    (grow_cap : Z -> Z) (mem : fz_alloc) (initial : Z) (truncated : option Z)
    (s : state) :
  match fz_read_best grow_cap mem initial truncated s with
  | (Ok r, t, s') =>
      ctx s' = ctx s
      /\ (t = reset_flag truncated \/ (truncated <> None /\ t = Some 1))
      /\ (r = None ->
          truncated <> None /\ t = Some 1
          /\ exists e,
               new_fails mem (to_size (clamp_hint initial + 1)) = Some e
               /\ err_code e <> FZ_ERROR_TRYLATER)
  | (Throw e, t, s') =>
      t = reset_flag truncated
      /\ ((ctx s' = ctx s
           /\ new_fails mem (to_size (clamp_hint initial + 1)) = Some e)
          \/ (exists b,
                 ctx s' = mk_context (warnings (ctx s)) (b :: dropped (ctx s))))
      /\ (In (Fault e) (source (stm s)) \/ e = bomb_error
          \/ new_fails mem (to_size (clamp_hint initial + 1)) = Some e
          \/ exists b, grow_fails mem b = Some e)
      /\ (truncated <> None -> err_code e = FZ_ERROR_TRYLATER)
  end.
Proof.
  unfold fz_read_best.
  destruct (read_best_try grow_cap mem (initial >? 0) initial s)
    as [[r buf] s1] eqn:E.
  destruct (read_best_try_fate _ _ _ _ _ _ _ _ E) as (K & Hnone & Horigin).
  destruct r as [[]|e].
  - refine (conj K (conj (or_introl eq_refl) _)).
    intros ->. destruct (Hnone eq_refl) as (e & He & _). discriminate He.
  - specialize (Horigin e eq_refl).
    assert (Hdrop :
      (ctx (snd (drop_opt buf s1)) = ctx s
       /\ new_fails mem (to_size (clamp_hint initial + 1)) = Some e)
      \/ (exists b,
             ctx (snd (drop_opt buf s1))
             = mk_context (warnings (ctx s)) (b :: dropped (ctx s)))).
    { destruct buf as [b|].
      - right. exists b. cbn. now rewrite K.
      - left. destruct (Hnone eq_refl) as (e' & He & Hn).
        injection He as <-. split; [exact K|exact Hn]. }
    destruct (is_trylater e) eqn:Ht.
    + destruct (drop_opt buf s1) as [u s2]. cbn [snd] in Hdrop.
      refine (conj eq_refl (conj Hdrop (conj Horigin _))).
      intros _. now apply is_trylater_code.
    + destruct truncated as [v|].
      * refine (conj K (conj _ _)).
        -- right. split; [discriminate|reflexivity].
        -- intros ->. destruct (Hnone eq_refl) as (e' & He & Hn).
           injection He as <-.
           refine (conj _ (conj eq_refl _)); [discriminate|].
           exists e. split; [exact Hn|].
           intros Hc. apply is_trylater_code in Hc. congruence.
      * destruct (drop_opt buf s1) as [u s2]. cbn [snd] in Hdrop.
        refine (conj eq_refl (conj Hdrop (conj Horigin _))).
        intros H. now elim H.
Qed.

(** An allocator without memory for the first buffer: a caller that passed
    a flag gets NULL with the flag at 1; a caller without one gets the
    error, and nothing was released. *)
Example fz_read_best_no_memory :
  let e := mk_error (FZ_ERROR_OTHER 1) "malloc failed" in
  let mem := mk_alloc (fun _ => Some e) (fun _ => None) in
  let s := mk_state ctx0 (mem_stream [x61; x62; x63]) in
  fz_read_best grow_double mem 0 (Some 7) s = (Ok None, Some 1, s)
  /\ fz_read_best grow_double mem 0 None s = (Throw e, None, s).
Proof. split; reflexivity. Qed.

(** A stream that ends without an error and does not set off the bomb check
    is returned whole. *)
Lemma fz_read_best_clean (grow_cap : Z -> Z) initial truncated s :
  ahead_end (stm s) = None ->
  grows_upto grow_cap (Z.of_nat (length (ahead (stm s)))) ->
  initial <= 0 \/ ~ bomb_cond (Z.of_nat (length (ahead (stm s)))) initial ->
  exists c' s',
    fz_read_best grow_cap alloc_ok initial truncated s
    = (Ok (Some (mk_buffer (ahead (stm s))
                   (Z.of_nat (length (ahead (stm s)))) c')),
       reset_flag truncated, s')
    /\ Z.of_nat (length (ahead (stm s))) <= c' <= size_max
    /\ consumed (ahead (stm s)) s s'.
Proof.
  intros He Hg Hb.
  assert (Hb' : (initial >? 0) = false
                \/ ~ bomb_cond (Z.of_nat (length (ahead (stm s))))
                       (clamp_hint initial)).
  { destruct (Z.gtb_spec initial 0) as [Hpos|Hneg]; [right|now left].
    destruct Hb as [Hb|Hb]; [lia|]. now rewrite bomb_cond_clamp. }
  destruct (read_best_loop_through grow_cap _ (initial >? 0) (clamp_hint initial)
              Hg Hb' (S (stream_size (stm s)))
              (mk_buffer [] 0 (to_size (clamp_hint initial + 1))) s)
    as (c' & s' & E & C & Hc).
  - apply new_buffer_wf.
  - exact He.
  - cbn [len]. lia.
  - lia.
  - cbn [data len app] in E, Hc. rewrite Z.add_0_l in E, Hc.
    exists c', s'. unfold fz_read_best. rewrite read_best_try_eq, E.
    auto.
Qed.

(** X17.  A stream that ends without an error, with a buffer that can grow
    to its size (the allocator having the memory asked for, the growth
    policy giving room) and a hint that the size does not dwarf (or no hint
    at all):
    [fz_read_best] and [fz_read_all] return a buffer that holds exactly the
    bytes that were ahead, its length field counting them within the
    capacity; the stream is left at its end, so that slurping it once more
    returns an empty buffer. *)
Theorem fz_read_best_whole
    (grow_cap : Z -> Z) (initial : Z) (truncated : option Z) (s : state) :
  ahead_end (stm s) = None ->
  grows_upto grow_cap (Z.of_nat (length (ahead (stm s)))) ->
  initial <= 0 \/ ~ bomb_cond (Z.of_nat (length (ahead (stm s)))) initial ->
  exists b s',
    fz_read_best grow_cap alloc_ok initial truncated s
    = (Ok (Some b), reset_flag truncated, s')
    /\ fz_read_all grow_cap alloc_ok initial s = (Ok (Some b), s')
    /\ data b = ahead (stm s) /\ wf_buffer b
    /\ consumed (ahead (stm s)) s s' /\ ahead (stm s') = []
    /\ forall initial', exists b' s'',
         fz_read_all grow_cap alloc_ok initial' s' = (Ok (Some b'), s'')
         /\ data b' = [] /\ len b' = 0.
Proof.
  intros He Hg Hb.
  destruct (fz_read_best_clean grow_cap initial truncated s He Hg Hb)
    as (c' & s' & E & Hc & C).
  destruct (fz_read_best_clean grow_cap initial None s He Hg Hb)
    as (c2 & s2 & E2 & _).
  assert (Ha' : ahead (stm s') = []).
  { apply (consumed_ahead _ _ _ _ C). now rewrite app_nil_r. }
  eexists; exists s'. refine (conj E (conj _ (conj eq_refl (conj _ (conj C (conj Ha' _)))))).
  - unfold fz_read_best in E, E2. unfold fz_read_all, fz_read_best.
    destruct (read_best_try grow_cap alloc_ok (initial >? 0) initial s)
      as [[[[]|e] buf] s1].
    + injection E as -> ->. reflexivity.
    + destruct (is_trylater e); [|destruct truncated];
        try destruct (drop_opt buf s1); discriminate.
  - split; [reflexivity|exact Hc].
  - intros initial'.
    destruct (fz_read_best_clean grow_cap initial' None s') as (c3 & s3 & E3 & _).
    + rewrite (consumed_end _ _ _ C). exact He.
    + rewrite Ha'. intros c Hcc. apply Hg. cbn [length] in Hcc. lia.
    + rewrite Ha'. right. intros [Hm _]. cbn [length] in Hm.
      change MIN_BOMB with 104857600 in Hm. lia.
    + rewrite Ha' in E3. cbn [length] in E3.
      eexists; exists s3. unfold fz_read_all. rewrite E3.
      split; [reflexivity|]. split; reflexivity.
Qed.

Lemma fz_read_best_whole_witness :
  let s := mk_state ctx0
             (mk_stream false 3 0 [x61; x62; x63] [Data x64 [x65]] None) in
  exists b s',
    fz_read_best grow_double alloc_ok 4 (Some 7) s = (Ok (Some b), Some 0, s')
    /\ data b = [x61; x62; x63; x64; x65] /\ ahead (stm s') = [].
Proof.
  intros s.
  destruct (fz_read_best_whole grow_double 4 (Some 7) s)
    as (b & s' & E & _ & D & _ & _ & A & _).
  - reflexivity.
  - apply grow_double_grows. vm_compute. discriminate.
  - right. intros [Hm _]. vm_compute in Hm. apply Hm. reflexivity.
  - exists b, s'. refine (conj E (conj D A)).
Defined.

(** X18.  [fz_read_file], with an allocator that has the memory asked for.
    An error of opening the file is thrown on with
    the context untouched.  A file whose stream ends without an error is
    returned whole, whatever its size, in a buffer that holds exactly its
    bytes, and the context is as before.  An error of the source while
    reading is thrown on after the buffer has been released. *)
Theorem fz_read_file_outcomes
    (grow_cap : Z -> Z) (fz_open_file : string -> result fz_stream)
    (filename : string) (c : fz_context) :
  (forall e,
      fz_open_file filename = Throw e ->
      fz_read_file grow_cap alloc_ok fz_open_file filename c = (Throw e, c))
  /\ (forall t,
        fz_open_file filename = Ok t ->
        ahead_end t = None ->
        grows_upto grow_cap (Z.of_nat (length (ahead t))) ->
        exists b,
          fz_read_file grow_cap alloc_ok fz_open_file filename c = (Ok (Some b), c)
          /\ data b = ahead t /\ wf_buffer b)
  /\ (forall t e,
        fz_open_file filename = Ok t ->
        ahead_end t = Some e ->
        grows_upto grow_cap (Z.of_nat (length (ahead t))) ->
        exists b p q,
          fz_read_file grow_cap alloc_ok fz_open_file filename c
          = (Throw e, mk_context (warnings c) (b :: dropped c))
          /\ ahead t = p ++ q /\ data b = p).
Proof.
  refine (conj _ (conj _ _)).
  - intros e Ho. unfold fz_read_file. now rewrite Ho.
  - intros t Ho He Hg.
    destruct (fz_read_best_clean grow_cap 0 None (mk_state c t))
      as (c' & s' & E & Hc & C); [exact He|exact Hg|left; lia|].
    eexists. unfold fz_read_file, fz_read_all. rewrite Ho, E.
    cbn [stm] in *. rewrite (consumed_ctx _ _ _ C). cbn [ctx].
    refine (conj eq_refl (conj eq_refl _)). split; [reflexivity|exact Hc].
  - intros t e Ho He Hg.
    destruct (read_best_loop_fault grow_cap _ false (clamp_hint 0) e Hg
                (or_introl eq_refl)
                (S (stream_size t))
                (mk_buffer [] 0 (to_size (clamp_hint 0 + 1))) (mk_state c t))
      as (b & s' & p & q & E & Ha & Hd & _ & K).
    + apply new_buffer_wf.
    + exact He.
    + cbn [len stm]. lia.
    + cbn [stm]. lia.
    + exists b, p, q. refine (conj _ (conj Ha Hd)).
      unfold fz_read_file, fz_read_all, fz_read_best. rewrite Ho.
      rewrite read_best_try_eq. change (0 >? 0) with false.
      cbn [stm] in E |- *. rewrite E.
      destruct (is_trylater e); cbn [drop_opt]; unfold fz_drop_buffer;
        cbn [ctx]; rewrite K; reflexivity.
Qed.

Lemma fz_read_file_outcomes_witness :
  let disk := fun name : string =>
                if String.eqb name "a.pdf"
                then Ok (mem_stream [x25; x50; x44; x46])
                else Throw (mk_error FZ_ERROR_GENERIC "cannot open file") in
  (exists b,
      fz_read_file grow_double alloc_ok disk "a.pdf" ctx0 = (Ok (Some b), ctx0)
      /\ data b = [x25; x50; x44; x46])
  /\ fz_read_file grow_double alloc_ok disk "b.pdf" ctx0
     = (Throw (mk_error FZ_ERROR_GENERIC "cannot open file"), ctx0).
Proof.
  intros disk. split.
  - destruct (proj1 (proj2 (fz_read_file_outcomes grow_double disk "a.pdf" ctx0))
                (mem_stream [x25; x50; x44; x46]) eq_refl eq_refl)
      as (b & E & D & _).
    + apply grow_double_grows. vm_compute. discriminate.
    + exists b. split; [exact E|exact D].
  - exact (proj1 (fz_read_file_outcomes grow_double disk "b.pdf" ctx0) _ eq_refl).
Defined.
